(** * lstr: a string that carries logits and an origin trace

    A shallow embedding of [src/ell/lstr.py].  The class [lstr] extends the
    built-in [str]; every method of the class is a few lines of provenance
    bookkeeping around a call into the built-in string type.  The file has
    three layers:

    - the Python values, types and outcomes the class handles;
    - [Module str]: the built-in string operations the class delegates to
      ([super(lstr, self).__add__], [.split], [.partition], ...), written out
      so that they compute;
    - [Module lstr]: the methods of the class, one definition per method of
      the source, under the source's names; then the operators that reach
      them.

    Text is a [string] whose characters are read as the code points 0..255.
    Integers are unbounded ([Z]); where the built-in converts an argument to
    an index-sized integer (a repetition count, [maxsplit], the count of
    [replace]) the range is that of a 64-bit build and a value outside it
    is an [OverflowError].  Running out of memory is not part of the model.
    The logits are an opaque payload that the class never inspects.  An
    iterable is a list, a tuple or a string, which can be gone through more
    than once; an iterator that runs once is modelled apart. *)

From Stdlib Require Import ZArith String Ascii List Lia QArith.
From stdpp Require Import base gmap strings list pretty.

Local Open Scope string_scope.

(** ** Outcomes of a call *)

Inductive exn : Set :=
| TypeError
| ValueError
| IndexError
| OverflowError
| AttributeError.

(** A call returns a value or raises.  [Unmodelled] marks the inputs at which
    a built-in's behaviour lies outside the fragment written out below (case
    mapping beyond ASCII, numeric format conversions with flags, ...): no
    result is invented for them. *)
Inductive result (A : Type) : Type :=
| Ok (a : A)
| Raise (e : exn)
| Unmodelled.

Arguments Ok {A} a.
Arguments Raise {A} e.
Arguments Unmodelled {A}.

#[global] Instance result_ret : MRet result := fun A a => Ok a.

#[global] Instance result_bind : MBind result := fun A B f m =>
  match m with
  | Ok a => f a
  | Raise e => Raise e
  | Unmodelled => Unmodelled
  end.

#[global] Instance result_fmap : FMap result := fun A B f m =>
  match m with
  | Ok a => Ok (f a)
  | Raise e => Raise e
  | Unmodelled => Unmodelled
  end.

(** [[f(x) for x in xs]] with a fallible [f]: the first failure ends it. *)
Fixpoint traverse {A B : Type} (f : A -> result B) (xs : list A) : result (list B) :=
  match xs with
  | [] => Ok []
  | x :: xs' => y ← f x; ys ← traverse f xs'; Ok (y :: ys)
  end.

(** ** The instance layout of [lstr] *)

(** [np.ndarray]: carried, never read. *)
Definition ndarray : Type := list Q.

(** An instance holds its text (the [str] part), [_logits] and the
    name-mangled [__origin_trace]. *)
Record lstr : Type := mk_lstr {
  content : string;
  _logits : option ndarray;
  __origin_trace : gset string
}.

(** ** Python values *)

(** The values a method of the class is handed or hands back.  [PStrSub] is
    an instance of a class that derives from [str] and is unrelated to
    [lstr]; [PLstrSub] is an instance of a class that derives from [lstr].
    Both inherit every method unchanged. *)
#[warnings="-register-all"]
Inductive pyval : Type :=
| PNone
| PNotImplemented
| PBool (b : bool)
| PInt (n : Z)
| PStr (s : string)
| PStrSub (s : string)
| PLstr (l : lstr)
| PLstrSub (l : lstr)
| PSlice (start stop step : option Z)
| PTuple (vs : list pyval)
| PList (vs : list pyval).

Inductive pytype : Set :=
| TNoneType
| TNotImplementedType
| TBool
| TInt
| TStr
| TStrSub
| TLstr
| TLstrSub
| TSlice
| TTuple
| TList.

#[global] Instance pytype_eq_dec : EqDecision pytype.
Proof. solve_decision. Defined.

(** [type(v)] *)
Definition type (v : pyval) : pytype :=
  match v with
  | PNone => TNoneType
  | PNotImplemented => TNotImplementedType
  | PBool _ => TBool
  | PInt _ => TInt
  | PStr _ => TStr
  | PStrSub _ => TStrSub
  | PLstr _ => TLstr
  | PLstrSub _ => TLstrSub
  | PSlice _ _ _ => TSlice
  | PTuple _ => TTuple
  | PList _ => TList
  end.

(** The direct base class; [None] stands for [object]. *)
Definition base (c : pytype) : option pytype :=
  match c with
  | TBool => Some TInt
  | TStrSub => Some TStr
  | TLstr => Some TStr
  | TLstrSub => Some TLstr
  | _ => None
  end.

(** [issubclass(c, d)]: [d] is reached from [c] along [base]; the chain has
    at most two links. *)
Definition issubclass (c d : pytype) : bool :=
  bool_decide (c = d)
  || bool_decide (base c = Some d)
  || bool_decide (base c ≫= base = Some d).

(** [isinstance(v, d)] *)
Definition isinstance (v : pyval) (d : pytype) : bool := issubclass (type v) d.

(** [type(v) is d] *)
Definition type_is (v : pyval) (d : pytype) : bool := bool_decide (type v = d).

(** The text of a value that is an instance of [str]. *)
Definition as_str (v : pyval) : option string :=
  match v with
  | PStr s | PStrSub s => Some s
  | PLstr l | PLstrSub l => Some (content l)
  | _ => None
  end.

(** The instance data of a value that is an instance of [lstr]. *)
Definition as_lstr (v : pyval) : option lstr :=
  match v with
  | PLstr l | PLstrSub l => Some l
  | _ => None
  end.

(** [isinstance(v, SupportsIndex)]: the value has [__index__]; the integer
    it yields. *)
Definition as_index (v : pyval) : option Z :=
  match v with
  | PInt n => Some n
  | PBool b => Some (if b then 1 else 0)%Z
  | _ => None
  end.

Definition supports_index (v : pyval) : bool :=
  match as_index v with
  | Some _ => true
  | None => false
  end.

(** [PY_SSIZE_T_MAX] of a 64-bit build: [2^63 - 1]. *)
Definition PY_SSIZE_T_MAX : Z := 9223372036854775807.

(** [PyNumber_AsSsize_t(n, OverflowError)] and [PyLong_AsSsize_t(n)]: an
    integer that does not fit an index-sized integer is an
    [OverflowError]. *)
Definition as_ssize_t (n : Z) : result Z :=
  if ((n <? - PY_SSIZE_T_MAX - 1) || (PY_SSIZE_T_MAX <? n))%Z then Raise OverflowError
  else Ok n.

(** [v.__origin_trace], read where [isinstance(v, lstr)] has been checked. *)
Definition origin_trace_of (v : pyval) : gset string :=
  from_option __origin_trace ∅ (as_lstr v).

(** ** Calling a Python function *)

(** Binding of positional and keyword arguments to the parameters of a
    [def]: each parameter has a name and possibly a default.  Too many
    positionals, a keyword given twice or unknown, or a parameter left
    without a value is a [TypeError]. *)
Fixpoint bind_args (params : list (string * option pyval)) (args : list pyval)
    (kwargs : list (string * pyval)) : result (list pyval) :=
  match params with
  | [] =>
      match args, kwargs with
      | [], [] => Ok []
      | _, _ => Raise TypeError
      end
  | (name, dflt) :: params' =>
      match args with
      | a :: args' =>
          if List.existsb (fun kv => String.eqb (fst kv) name) kwargs then Raise TypeError
          else vs ← bind_args params' args' kwargs; Ok (a :: vs)
      | [] =>
          match List.find (fun kv => String.eqb (fst kv) name) kwargs, dflt with
          | Some kv, _ =>
              vs ← bind_args params' []
                     (List.filter (fun kv => negb (String.eqb (fst kv) name)) kwargs);
              Ok (snd kv :: vs)
          | None, Some d => vs ← bind_args params' [] kwargs; Ok (d :: vs)
          | None, None => Raise TypeError
          end
      end
  end.

(** ** Text helpers *)

Module text.

Definition code (c : ascii) : N := N_of_ascii c.

Definition snoc (s : string) (c : ascii) : string := s +:+ String c "".

Fixpoint take (n : nat) (s : string) : string :=
  match n, s with
  | S n', String c s' => String c (take n' s')
  | _, _ => ""
  end.

Fixpoint drop (n : nat) (s : string) : string :=
  match n, s with
  | S n', String _ s' => drop n' s'
  | _, _ => s
  end.

Fixpoint repeat (n : nat) (s : string) : string :=
  match n with
  | O => ""
  | S n' => s +:+ repeat n' s
  end.

Fixpoint map (f : ascii -> ascii) (s : string) : string :=
  match s with
  | "" => ""
  | String c s' => String (f c) (map f s')
  end.

Fixpoint forallb (p : ascii -> bool) (s : string) : bool :=
  match s with
  | "" => true
  | String c s' => p c && forallb p s'
  end.

Fixpoint existsb (p : ascii -> bool) (s : string) : bool :=
  match s with
  | "" => false
  | String c s' => p c || existsb p s'
  end.

(** The characters of [s], each as a one-character string. *)
Fixpoint chars (s : string) : list string :=
  match s with
  | "" => []
  | String c s' => String c "" :: chars s'
  end.

(** Index of the leftmost occurrence of [sub] in [s]. *)
Fixpoint find (sub s : string) : option nat :=
  if String.prefix sub s then Some O
  else match s with
       | "" => None
       | String _ s' => S <$> find sub s'
       end.

(** Index of the rightmost occurrence: the leftmost one read backwards. *)
Definition rfind (sub s : string) : option nat :=
  (fun p => String.length s - p - String.length sub) <$> find (String.rev sub) (String.rev s).

(** [Py_UNICODE_ISSPACE] on the code points below 256. *)
Definition isspace (c : ascii) : bool :=
  let n := code c in
  ((9 <=? n) && (n <=? 13) || (28 <=? n) && (n <=? 32) || (n =? 133) || (n =? 160))%N.

(** [Py_UNICODE_ISLINEBREAK] on the code points below 256. *)
Definition islinebreak (c : ascii) : bool :=
  let n := code c in
  ((10 <=? n) && (n <=? 13) || (28 <=? n) && (n <=? 30) || (n =? 133))%N.

Definition isascii (c : ascii) : bool := (code c <? 128)%N.

Definition toupper (c : ascii) : ascii :=
  let n := code c in
  if ((97 <=? n) && (n <=? 122))%N then ascii_of_N (n - 32) else c.

Definition tolower (c : ascii) : ascii :=
  let n := code c in
  if ((65 <=? n) && (n <=? 90))%N then ascii_of_N (n + 32) else c.

Definition hexdigit (n : N) : ascii :=
  if (n <? 10)%N then ascii_of_N (48 + n) else ascii_of_N (87 + n).

(** The [\xhh] escape of a code point. *)
Definition hexescape (c : ascii) : string :=
  String "\" (String "x" (String (hexdigit (code c / 16)) (String (hexdigit (code c mod 16)) ""))).

End text.

(** ** [str(v)], [repr(v)] and [ascii(v)] *)

Definition dquote : ascii := ascii_of_N 34.

(** [unicode_repr]: the quote is the double quote only when the text has a
    single quote and no double quote; the quote and the backslash are
    escaped, tab, newline and return get their letter, other control
    characters and (with [ascii_only], or when not printable) the code
    points above 126 are written as [\xhh]. *)
Definition repr_quote (s : string) : ascii :=
  if text.existsb (Ascii.eqb "'") s && negb (text.existsb (Ascii.eqb dquote) s)
  then dquote else "'"%char.

Definition repr_char (ascii_only : bool) (quote c : ascii) : string :=
  let n := text.code c in
  if Ascii.eqb c quote || Ascii.eqb c "\" then String "\" (String c "")
  else if (n =? 9)%N then "\t"
  else if (n =? 10)%N then "\n"
  else if (n =? 13)%N then "\r"
  else if ((n <? 32) || (n =? 127))%N then text.hexescape c
  else if (n <? 127)%N then String c ""
  else if ascii_only || (n <=? 160)%N || (n =? 173)%N then text.hexescape c
  else String c "".

Fixpoint repr_body (ascii_only : bool) (quote : ascii) (s : string) : string :=
  match s with
  | "" => ""
  | String c s' => repr_char ascii_only quote c +:+ repr_body ascii_only quote s'
  end.

Definition repr_text (ascii_only : bool) (s : string) : string :=
  let q := repr_quote s in
  String q (repr_body ascii_only q s) +:+ String q "".

Definition repr_opt (o : option Z) : string :=
  match o with
  | Some n => pretty n
  | None => "None"
  end.

(** [repr(v)] ([ascii_only = false]) and [ascii(v)] ([ascii_only = true]).
    For an instance of [lstr] this is [lstr.__repr__], which returns
    [super().__repr__()]: the representation of the text alone. *)
Fixpoint py_repr_gen (ascii_only : bool) (v : pyval) : string :=
  match v with
  | PNone => "None"
  | PNotImplemented => "NotImplemented"
  | PBool b => if b then "True" else "False"
  | PInt n => pretty n
  | PStr s | PStrSub s => repr_text ascii_only s
  | PLstr l | PLstrSub l => repr_text ascii_only (content l)
  | PSlice a b c =>
      "slice(" +:+ repr_opt a +:+ ", " +:+ repr_opt b +:+ ", " +:+ repr_opt c +:+ ")"
  | PTuple vs =>
      "(" +:+ String.concat ", " (List.map (py_repr_gen ascii_only) vs)
          +:+ (if bool_decide (length vs = 1%nat) then "," else "") +:+ ")"
  | PList vs =>
      "[" +:+ String.concat ", " (List.map (py_repr_gen ascii_only) vs) +:+ "]"
  end.

Definition py_repr : pyval -> string := py_repr_gen false.
Definition py_ascii : pyval -> string := py_repr_gen true.

(** [str(v)]: the text itself for an instance of [str] ([lstr] does not
    define [__str__]), the representation otherwise. *)
Definition py_str (v : pyval) : string :=
  match as_str v with
  | Some s => s
  | None => py_repr v
  end.

(** [iter(v)] run to the end.  The elements of a list or tuple; the
    characters of a string, each a plain [str] (the class does not define
    [__iter__]). *)
Definition iterate (v : pyval) : result (list pyval) :=
  match v with
  | PList vs | PTuple vs => Ok vs
  | PStr s | PStrSub s => Ok (PStr <$> text.chars s)
  | PLstr l | PLstrSub l => Ok (PStr <$> text.chars (content l))
  | _ => Raise TypeError
  end.

(** ** The built-in [str] *)

Module str.

(** [maxcount] of the C split routines: how many more splits may be made.
    A negative [maxsplit] lifts the bound.  [budget_of] is applied to a
    count that has passed [as_ssize_t]. *)
Inductive budget : Set :=
| Unbounded
| AtMost (n : nat).

Definition budget_of (maxsplit : Z) : budget :=
  if (maxsplit <? 0)%Z then Unbounded else AtMost (Z.to_nat maxsplit).

(** [maxcount-- > 0] *)
Definition spend (b : budget) : option budget :=
  match b with
  | Unbounded => Some Unbounded
  | AtMost O => None
  | AtMost (S n) => Some (AtMost n)
  end.

(** [str.__add__]: concatenation with an instance of [str]. *)
Definition __add__ (s : string) (other : pyval) : result string :=
  match as_str other with
  | Some t => Ok (s +:+ t)
  | None => Raise TypeError
  end.

(** [str.__mul__]: repetition.  The count has to fit an index-sized
    integer; a count below one gives the empty text and a count of one the
    text itself; a repeated text longer than [PY_SSIZE_T_MAX] is an
    [OverflowError]. *)
Definition __mul__ (s : string) (n : pyval) : result string :=
  match as_index n with
  | Some k =>
      len ← as_ssize_t k;
      if (len <? 1)%Z then Ok ""
      else if (len =? 1)%Z then Ok s
      else if (PY_SSIZE_T_MAX / len <? Z.of_nat (String.length s))%Z then Raise OverflowError
      else Ok (text.repeat (Z.to_nat len) s)
  | None => Raise TypeError
  end.

(** *** Indexing and slicing *)

Definition getitem_index (s : string) (i : Z) : result string :=
  let n := Z.of_nat (String.length s) in
  let j := if (i <? 0)%Z then (i + n)%Z else i in
  if ((0 <=? j) && (j <? n))%Z
  then match String.get (Z.to_nat j) s with
       | Some c => Ok (String c "")
       | None => Raise IndexError
       end
  else Raise IndexError.

(** [PySlice_AdjustIndices] for one bound. *)
Definition clamp (len step i : Z) : Z :=
  if (i <? 0)%Z
  then (if (i + len <? 0)%Z then (if (step <? 0)%Z then -1 else 0) else i + len)%Z
  else if (len <=? i)%Z then (if (step <? 0)%Z then len - 1 else len)%Z
  else i.

(** First index and number of items of [s[start:stop:step]], [step] not 0. *)
Definition slice_indices (len : Z) (start stop : option Z) (step : Z) : Z * nat :=
  let lo := match start with
            | Some i => clamp len step i
            | None => if (step <? 0)%Z then (len - 1)%Z else 0%Z
            end in
  let hi := match stop with
            | Some i => clamp len step i
            | None => if (step <? 0)%Z then (-1)%Z else len
            end in
  let count :=
    if (step <? 0)%Z
    then (if (hi <? lo)%Z then (lo - hi - 1) / (- step) + 1 else 0)%Z
    else (if (lo <? hi)%Z then (hi - lo - 1) / step + 1 else 0)%Z in
  (lo, Z.to_nat count).

Fixpoint pick (s : string) (pos step : Z) (count : nat) : string :=
  match count with
  | O => ""
  | S count' =>
      match String.get (Z.to_nat pos) s with
      | Some c => String c (pick s (pos + step) step count')
      | None => pick s (pos + step) step count'
      end
  end.

Definition getitem_slice (s : string) (start stop step : option Z) : result string :=
  let st := default 1%Z step in
  if (st =? 0)%Z then Raise ValueError
  else let '(lo, count) := slice_indices (Z.of_nat (String.length s)) start stop st in
       Ok (pick s lo st count).

(** [str.__getitem__] *)
Definition __getitem__ (s : string) (key : pyval) : result string :=
  match key with
  | PSlice start stop step => getitem_slice s start stop step
  | _ => match as_index key with
         | Some i => getitem_index s i
         | None => Raise TypeError
         end
  end.

(** *** Splitting *)

(** Split on a non-empty separator, left to right.  [skip] counts the
    characters of a separator just matched that are still to be passed over;
    [cur] is the fragment being collected.  When the budget is spent the rest
    of the text ends the current fragment. *)
Fixpoint split_sep (sep : string) (b : budget) (skip : nat) (cur s : string) : list string :=
  match s with
  | "" => [cur]
  | String c s' =>
      match skip with
      | S k => split_sep sep b k cur s'
      | O =>
          if String.prefix sep s
          then match spend b with
               | Some b' => cur :: split_sep sep b' (String.length sep - 1) "" s'
               | None => [cur +:+ s]
               end
          else split_sep sep b O (text.snoc cur c) s'
      end
  end.

(** Split on runs of whitespace ([sep] is [None]).  [cur] is the word being
    collected, if any; with the budget spent, what is left after the
    whitespace is one last fragment. *)
Fixpoint split_whitespace (b : budget) (cur : option string) (s : string) : list string :=
  match s with
  | "" => match cur with
          | Some w => [w]
          | None => []
          end
  | String c s' =>
      match cur with
      | Some w =>
          if text.isspace c then w :: split_whitespace b None s'
          else split_whitespace b (Some (text.snoc w c)) s'
      | None =>
          if text.isspace c then split_whitespace b None s'
          else match spend b with
               | Some b' => split_whitespace b' (Some (String c "")) s'
               | None => [s]
               end
      end
  end.

Definition split_text (sep : option string) (b : budget) (s : string) : result (list string) :=
  match sep with
  | None => Ok (split_whitespace b None s)
  | Some "" => Raise ValueError
  | Some p => Ok (split_sep p b O "" s)
  end.

(** The right-to-left variants are the left-to-right ones on the reversed
    text, with every fragment and the list turned back. *)
Definition rsplit_text (sep : option string) (b : budget) (s : string) : result (list string) :=
  (fun parts => reverse (String.rev <$> parts))
    <$> split_text (String.rev <$> sep) b (String.rev s).

Definition split_args (sep maxsplit : pyval) : result (option string * budget) :=
  match as_index maxsplit with
  | None => Raise TypeError
  | Some n =>
      n ← as_ssize_t n;
      match sep with
      | PNone => Ok (None, budget_of n)
      | _ => match as_str sep with
             | Some p => Ok (Some p, budget_of n)
             | None => Raise TypeError
             end
      end
  end.

(** [str.split(sep, maxsplit)] *)
Definition split (s : string) (sep maxsplit : pyval) : result (list string) :=
  '(p, b) ← split_args sep maxsplit; split_text p b s.

(** [str.rsplit(sep, maxsplit)] *)
Definition rsplit (s : string) (sep maxsplit : pyval) : result (list string) :=
  '(p, b) ← split_args sep maxsplit; rsplit_text p b s.

(** [str.splitlines(keepends)]: a line ends at a line break, return followed
    by newline counting as one; a text that ends in a line break has no
    empty last line. *)
Fixpoint splitlines_go (keepends : bool) (cur : string) (s : string) : list string :=
  match s with
  | "" => if bool_decide (cur = "") then [] else [cur]
  | String c s' =>
      if text.islinebreak c
      then match s' with
           | String d s'' =>
               if Ascii.eqb c (ascii_of_N 13) && Ascii.eqb d (ascii_of_N 10)
               then (if keepends then text.snoc (text.snoc cur c) d else cur)
                      :: splitlines_go keepends "" s''
               else (if keepends then text.snoc cur c else cur)
                      :: splitlines_go keepends "" s'
           | "" => [if keepends then text.snoc cur c else cur]
           end
      else splitlines_go keepends (text.snoc cur c) s'
  end.

Definition splitlines (s : string) (keepends : bool) : list string :=
  splitlines_go keepends "" s.

(** *** Partition *)

Definition partition_text (s sep : string) : result (string * string * string) :=
  if bool_decide (sep = "") then Raise ValueError
  else match text.find sep s with
       | Some pos => Ok (text.take pos s, sep, text.drop (pos + String.length sep) s)
       | None => Ok (s, "", "")
       end.

Definition rpartition_text (s sep : string) : result (string * string * string) :=
  if bool_decide (sep = "") then Raise ValueError
  else match text.rfind sep s with
       | Some pos => Ok (text.take pos s, sep, text.drop (pos + String.length sep) s)
       | None => Ok ("", "", s)
       end.

(** [str.partition(sep)] *)
Definition partition (s : string) (sep : pyval) : result (string * string * string) :=
  match as_str sep with
  | Some p => partition_text s p
  | None => Raise TypeError
  end.

(** [str.rpartition(sep)] *)
Definition rpartition (s : string) (sep : pyval) : result (string * string * string) :=
  match as_str sep with
  | Some p => rpartition_text s p
  | None => Raise TypeError
  end.

(** [str.join(iterable)]: every item has to be an instance of [str]. *)
Definition join (sep : string) (iterable : pyval) : result string :=
  items ← iterate iterable;
  parts ← traverse (fun v => match as_str v with
                              | Some t => Ok t
                              | None => Raise TypeError
                              end) items;
  Ok (String.concat sep parts).

(** *** Template substitution ([%]) *)

(** One conversion applied to one argument.  Written out: [s], [r], [a],
    the decimal conversions [d], [i], [u] and [c].  The other numeric
    conversions reject what is not a number and are not written out for
    numbers. *)
Definition convert (c : ascii) (v : pyval) : result string :=
  if Ascii.eqb c "s" then Ok (py_str v)
  else if Ascii.eqb c "r" then Ok (py_repr v)
  else if Ascii.eqb c "a" then Ok (py_ascii v)
  else if Ascii.eqb c "d" || Ascii.eqb c "i" || Ascii.eqb c "u"
  then match as_index v with
       | Some n => Ok (pretty n)
       | None => Raise TypeError
       end
  else if Ascii.eqb c "c"
  then match as_index v, as_str v with
       | Some n, _ =>
           if ((n <? 0) || (1114112 <=? n))%Z then Raise OverflowError
           else if (n <? 256)%Z then Ok (String (ascii_of_N (Z.to_N n)) "")
           else Unmodelled
       | None, Some t =>
           if bool_decide (String.length t = 1%nat) then Ok t else Raise TypeError
       | None, None => Raise TypeError
       end
  else if text.existsb (Ascii.eqb c) "oxXeEfFgG"
  then match as_index v with
       | Some _ => Unmodelled
       | None => Raise TypeError
       end
  else Raise ValueError.

(** A mapping key [%(key)] is closed when its parenthesis is, the
    parentheses inside it counted; [depth] is the number of those still
    open. *)
Fixpoint key_closed (depth : nat) (t : string) : bool :=
  match t with
  | "" => false
  | String c t' =>
      if Ascii.eqb c ")"
      then match depth with
           | O => true
           | S depth' => key_closed depth' t'
           end
      else if Ascii.eqb c "(" then key_closed (S depth) t'
      else key_closed depth t'
  end.

(** The scan of the template.  [pending] holds after a [%]; [lenient] holds
    when the right operand is a mapping-like single value (here a list), for
    which unused arguments are not an error.  A mapping key needs a mapping:
    without one it is a [TypeError]; with a list, a key that is not closed
    is a [ValueError] and a closed one a [TypeError], a list having no
    items under a string.  Flags, width, precision and length modifiers
    are not written out. *)
Fixpoint format (lenient : bool) (args : list pyval) (pending : bool) (t : string) : result string :=
  match t with
  | "" =>
      if pending then Raise ValueError
      else if negb lenient && negb (bool_decide (args = [])) then Raise TypeError
      else Ok ""
  | String c t' =>
      if pending
      then if Ascii.eqb c "%" then String c <$> format lenient args false t'
           else if Ascii.eqb c "("
           then (if lenient && negb (key_closed O t') then Raise ValueError
                 else Raise TypeError)
           else if text.existsb (Ascii.eqb c) "-+ #0123456789*.hlL" then Unmodelled
           else match args with
                | [] => Raise TypeError
                | v :: args' =>
                    piece ← convert c v;
                    rest ← format lenient args' false t';
                    Ok (piece +:+ rest)
                end
      else if Ascii.eqb c "%" then format lenient args true t'
      else String c <$> format lenient args false t'
  end.

(** [str.__mod__]: a tuple supplies one argument per conversion, any other
    value is the single argument. *)
Definition __mod__ (s : string) (other : pyval) : result string :=
  match other with
  | PTuple vs => format false vs false s
  | PList _ => format true [other] false s
  | _ => format false [other] false s
  end.

(** *** Methods the class reaches only through [__getattribute__] *)

(** [str.upper] and [str.lower], written out for ASCII text. *)
Definition upper (s : string) : result string :=
  if text.forallb text.isascii s then Ok (text.map text.toupper s) else Unmodelled.

Definition lower (s : string) : result string :=
  if text.forallb text.isascii s then Ok (text.map text.tolower s) else Unmodelled.

Fixpoint lstrip_text (p : ascii -> bool) (s : string) : string :=
  match s with
  | "" => ""
  | String c s' => if p c then lstrip_text p s' else s
  end.

Definition strip_text (p : ascii -> bool) (s : string) : string :=
  String.rev (lstrip_text p (String.rev (lstrip_text p s))).

(** [str.strip(chars)] *)
Definition strip (s : string) (chars : pyval) : result string :=
  match chars with
  | PNone => Ok (strip_text text.isspace s)
  | _ => match as_str chars with
         | Some cs => Ok (strip_text (fun c => text.existsb (Ascii.eqb c) cs) s)
         | None => Raise TypeError
         end
  end.

(** Replacing the empty text puts [new] in front of the text and after each
    of its characters, as far as the budget goes. *)
Fixpoint interleave (new : string) (b : budget) (s : string) : string :=
  match spend b with
  | None => s
  | Some b' =>
      new +:+ match s with
              | "" => ""
              | String c s' => String c (interleave new b' s')
              end
  end.

(** [str.replace(old, new, count)]: the leftmost occurrences that do not
    overlap, at most [count] of them when [count] is not negative. *)
Definition replace (s : string) (old new count : pyval) : result string :=
  match as_str old, as_str new, as_index count with
  | Some o, Some n, Some k =>
      k ← as_ssize_t k;
      if bool_decide (o = "") then Ok (interleave n (budget_of k) s)
      else Ok (String.concat n (split_sep o (budget_of k) O "" s))
  | _, _, _ => Raise TypeError
  end.

(** The elements of a tuple given to [startswith], in order: the first
    that matches ends the search, one that is not a string met before that
    is a [TypeError]. *)
Fixpoint startswith_any (s : string) (vs : list pyval) : result bool :=
  match vs with
  | [] => Ok false
  | v :: vs' =>
      match as_str v with
      | Some q => if String.prefix q s then Ok true else startswith_any s vs'
      | None => Raise TypeError
      end
  end.

(** [str.startswith(prefix)] with a text or a tuple of texts. *)
Definition startswith (s : string) (p : pyval) : result bool :=
  match p with
  | PTuple vs => startswith_any s vs
  | _ => match as_str p with
         | Some q => Ok (String.prefix q s)
         | None => Raise TypeError
         end
  end.

(** A bound built-in method: positional and keyword arguments in, an
    outcome out. *)
Definition callable : Type := list pyval -> list (string * pyval) -> result pyval.

(** A method without parameters. *)
Definition nullary (r : result pyval) : callable :=
  fun args kwargs =>
    match args, kwargs with
    | [], [] => r
    | _, _ => Raise TypeError
    end.

(** Methods of [str] that the class body does not define, bound to the text
    [s].  The built-in type has many more; each is reached through the same
    wrapper, and what is stated of the wrapper is stated for an arbitrary
    method.  The ones written out give a result of each kind: text, a
    boolean, an integer, and with [__getnewargs__] a tuple that holds
    text.  None of them takes keyword arguments. *)
Definition method (name : string) (s : string) : option callable :=
  if String.eqb name "upper" then Some (nullary (PStr <$> upper s))
  else if String.eqb name "lower" then Some (nullary (PStr <$> lower s))
  else if String.eqb name "strip"
  then Some (fun args kwargs =>
         match args, kwargs with
         | [], [] => PStr <$> strip s PNone
         | [chars], [] => PStr <$> strip s chars
         | _, _ => Raise TypeError
         end)
  else if String.eqb name "replace"
  then Some (fun args kwargs =>
         match args, kwargs with
         | [old; new], [] => PStr <$> replace s old new (PInt (-1))
         | [old; new; count], [] => PStr <$> replace s old new count
         | _, [] => Raise TypeError
         | _, _ => Unmodelled
         end)
  else if String.eqb name "startswith"
  then Some (fun args kwargs =>
         match args, kwargs with
         | [p], [] => PBool <$> startswith s p
         | [], [] => Raise TypeError
         | _, [] => Unmodelled
         | _, _ => Raise TypeError
         end)
  else if String.eqb name "__len__"
  then Some (nullary (Ok (PInt (Z.of_nat (String.length s)))))
  else if String.eqb name "__getnewargs__"
  then Some (nullary (Ok (PTuple [PStr s])))
  else None.

(** *** The same calls on a plain string *)

(** Truth value of an argument declared [bool], written out for a boolean
    and for an integer that fits a C [int]. *)
Definition truthy (v : pyval) : result bool :=
  match v with
  | PBool b => Ok b
  | PInt n =>
      if ((-2147483648 <=? n) && (n <=? 2147483647))%Z then Ok (negb (n =? 0)%Z)
      else Unmodelled
  | _ => Unmodelled
  end.

Definition texts (parts : list string) : pyval := PList (PStr <$> parts).

Definition triple (t : string * string * string) : pyval :=
  let '(a, b, c) := t in PTuple [PStr a; PStr b; PStr c].

(** How the built-in methods take their arguments: the special methods and
    [join], [partition], [rpartition] take one positional argument and no
    keyword; [split], [rsplit] and [splitlines] also take theirs by name. *)
Definition unary (f : pyval -> result pyval) : callable :=
  fun args kwargs =>
    match args, kwargs with
    | [x], [] => f x
    | _, _ => Raise TypeError
    end.

Definition splitter (f : pyval -> pyval -> result pyval) : callable :=
  fun args kwargs =>
    vs ← bind_args [("sep", Some PNone); ("maxsplit", Some (PInt (-1)))] args kwargs;
    match vs with
    | [sep; maxsplit] => f sep maxsplit
    | _ => Raise TypeError
    end.

Definition liner (f : bool -> result pyval) : callable :=
  fun args kwargs =>
    vs ← bind_args [("keepends", Some (PBool false))] args kwargs;
    match vs with
    | [keepends] => k ← truthy keepends; f k
    | _ => Raise TypeError
    end.

(** The methods of [str] that the class overrides, bound to the text [s]. *)
Definition overridden (name : string) (s : string) : option callable :=
  if String.eqb name "__add__" then Some (unary (fun x => PStr <$> __add__ s x))
  else if String.eqb name "__mod__" then Some (unary (fun x => PStr <$> __mod__ s x))
  else if String.eqb name "__mul__" then Some (unary (fun x => PStr <$> __mul__ s x))
  else if String.eqb name "__rmul__" then Some (unary (fun x => PStr <$> __mul__ s x))
  else if String.eqb name "__getitem__" then Some (unary (fun x => PStr <$> __getitem__ s x))
  else if String.eqb name "__repr__" then Some (nullary (Ok (PStr (repr_text false s))))
  else if String.eqb name "join" then Some (unary (fun x => PStr <$> join s x))
  else if String.eqb name "split"
  then Some (splitter (fun sep maxsplit => texts <$> split s sep maxsplit))
  else if String.eqb name "rsplit"
  then Some (splitter (fun sep maxsplit => texts <$> rsplit s sep maxsplit))
  else if String.eqb name "splitlines"
  then Some (liner (fun k => Ok (texts (splitlines s k))))
  else if String.eqb name "partition" then Some (unary (fun x => triple <$> partition s x))
  else if String.eqb name "rpartition" then Some (unary (fun x => triple <$> rpartition s x))
  else None.

(** The attributes that only an instance of the class has. *)
Definition lstr_only : list string :=
  ["logits"; "_origin_trace"; "_logits"; "_lstr__origin_trace";
   "_partition_helper"; "_split_helper"].

(** The call of the method [name] of a plain string [s] with [args] and
    [kwargs]. *)
Definition call (s : string) (name : string) (args : list pyval)
    (kwargs : list (string * pyval)) : result pyval :=
  match overridden name s with
  | Some f => f args kwargs
  | None =>
      if List.existsb (String.eqb name) lstr_only then Raise AttributeError
      else match method name s with
           | Some f => f args kwargs
           | None => Unmodelled
           end
  end.

End str.

(** ** The class [lstr] *)

Module lstr.

(** The [_origin_trace] argument of the constructor: [None], one marker, or
    a collection of markers. *)
Inductive origin_arg : Type :=
| NoOrigin
| Marker (m : string)
| Markers (ms : gset string).

(** [lstr.__new__(cls, content, logits=None, _origin_trace=None)] *)
Definition __new__ (content : string) (logits : option ndarray)
    (_origin_trace : origin_arg) : lstr :=
  {| content := content;
     _logits := logits;
     __origin_trace := match _origin_trace with
                       | Marker m => {[ m ]}
                       | Markers ms => ms
                       | NoOrigin => ∅
                       end |}.

(** The property [logits]. *)
Definition logits (self : lstr) : option ndarray := _logits self.

(** The property [_origin_trace]. *)
Definition _origin_trace (self : lstr) : gset string := __origin_trace self.

(** [__repr__] returns [super().__repr__()], a plain string. *)
Definition __repr__ (self : lstr) : string := repr_text false (content self).

(** [__add__] *)
Definition __add__ (self : lstr) (other : pyval) : result pyval :=
  if type_is other TStr then
    new_content ← str.__add__ (content self) other;
    Ok (PLstr (__new__ new_content None (Markers (__origin_trace self))))
  else if isinstance other TLstr then
    new_content ← str.__add__ (content self) other;
    let new__origin_trace := __origin_trace self ∪ origin_trace_of other in
    Ok (PLstr (__new__ new_content None (Markers new__origin_trace)))
  else Ok PNotImplemented.

(** The loops that gather the traces of the operands that are instances of
    the class. *)
Definition gather (start : gset string) (items : list pyval) : gset string :=
  foldl (fun acc item => if isinstance item TLstr then acc ∪ origin_trace_of item else acc)
        start items.

(** [__mod__]: the elements of a tuple are passed on as [str(o)]; any other
    operand is passed on as it is. *)
Definition __mod__ (self : lstr) (other : pyval) : result lstr :=
  match other with
  | PTuple items =>
      result_content ← str.__mod__ (content self) (PTuple ((fun o => PStr (py_str o)) <$> items));
      let new__origin_trace := gather (__origin_trace self) items in
      Ok (__new__ result_content None (Markers new__origin_trace))
  | _ =>
      result_content ← str.__mod__ (content self) other;
      let new__origin_trace :=
        if isinstance other TLstr then __origin_trace self ∪ origin_trace_of other
        else __origin_trace self in
      Ok (__new__ result_content None (Markers new__origin_trace))
  end.

(** [__mul__] *)
Definition __mul__ (self : lstr) (other : pyval) : result pyval :=
  if supports_index other then
    result_content ← str.__mul__ (content self) other;
    let new__origin_trace := __origin_trace self in
    Ok (PLstr (__new__ result_content None (Markers new__origin_trace)))
  else Ok PNotImplemented.

(** [__rmul__] returns [self.__mul__(other)]. *)
Definition __rmul__ (self : lstr) (other : pyval) : result pyval := __mul__ self other.

(** [__getitem__]: [logit_subset] is [None] whatever the key. *)
Definition __getitem__ (self : lstr) (key : pyval) : result lstr :=
  result ← str.__getitem__ (content self) key;
  let logit_subset := None in
  Ok (__new__ result logit_subset (Markers (__origin_trace self))).

(** [join]: the iterable is gone through twice, once for the texts and once
    for the traces. *)
Definition join (self : lstr) (iterable : pyval) : result lstr :=
  items ← iterate iterable;
  let parts := (fun item => PStr (py_str item)) <$> items in
  new_content ← str.join (content self) (PList parts);
  items' ← iterate iterable;
  let new__origin_trace := gather (__origin_trace self) items' in
  Ok (__new__ new_content None (Markers new__origin_trace)).

(** [_split_helper(method, sep, maxsplit)] *)
Definition _split_helper (self : lstr) (method : pyval -> pyval -> result (list string))
    (sep maxsplit : pyval) : result (list lstr) :=
  let _origin_traces :=
    if isinstance sep TLstr then __origin_trace self ∪ origin_trace_of sep
    else __origin_trace self in
  parts ← method sep maxsplit;
  Ok ((fun part => __new__ part None (Markers _origin_traces)) <$> (parts : list string)).

(** [split(sep=None, maxsplit=-1)] *)
Definition split (self : lstr) (sep maxsplit : pyval) : result (list lstr) :=
  _split_helper self (str.split (content self)) sep maxsplit.

(** [rsplit(sep=None, maxsplit=-1)] *)
Definition rsplit (self : lstr) (sep maxsplit : pyval) : result (list lstr) :=
  _split_helper self (str.rsplit (content self)) sep maxsplit.

(** [splitlines(keepends=False)] *)
Definition splitlines (self : lstr) (keepends : bool) : list lstr :=
  (fun p => __new__ p None (Markers (__origin_trace self)))
    <$> str.splitlines (content self) keepends.

(** [_partition_helper(method, sep)] *)
Definition _partition_helper (self : lstr) (method : pyval -> result (string * string * string))
    (sep : pyval) : result (lstr * lstr * lstr) :=
  '(part1, part2, part3) ← method sep;
  let new__origin_trace :=
    if isinstance sep TLstr then __origin_trace self ∪ origin_trace_of sep
    else __origin_trace self in
  Ok (__new__ part1 None (Markers new__origin_trace),
      __new__ part2 None (Markers new__origin_trace),
      __new__ part3 None (Markers new__origin_trace)).

(** [partition(sep)] *)
Definition partition (self : lstr) (sep : pyval) : result (lstr * lstr * lstr) :=
  _partition_helper self (str.partition (content self)) sep.

(** [rpartition(sep)] *)
Definition rpartition (self : lstr) (sep : pyval) : result (lstr * lstr * lstr) :=
  _partition_helper self (str.rpartition (content self)) sep.

(** *** Attribute access *)

(** What an attribute lookup can yield. *)
Inductive attribute : Type :=
| ALogits (o : option ndarray)
| AOriginTrace (s : gset string)
| AClass (c : pytype)
| AMethod (f : str.callable).

(** The names bound in the class body. *)
Definition __dict__ : list string :=
  ["__module__"; "__doc__"; "__new__"; "__annotations__"; "logits"; "_origin_trace";
   "__repr__"; "__add__"; "__mod__"; "__mul__"; "__rmul__"; "__getitem__";
   "__getattribute__"; "join"; "split"; "rsplit"; "splitlines"; "partition";
   "rpartition"; "_partition_helper"; "_split_helper"].

Definition instances (parts : list lstr) : pyval := PList (PLstr <$> parts).

Definition triple (t : lstr * lstr * lstr) : pyval :=
  let '(a, b, c) := t in PTuple [PLstr a; PLstr b; PLstr c].

(** A method of the class with one parameter besides [self]; the argument
    may be given by position or by the name of the parameter. *)
Definition unary (param : string) (f : pyval -> result pyval) : str.callable :=
  fun args kwargs =>
    vs ← bind_args [(param, None)] args kwargs;
    match vs with
    | [x] => f x
    | _ => Raise TypeError
    end.

(** The methods of the class bound to [self], as they are called with
    positional and keyword arguments.  The helpers that take a method as an
    argument, [__new__] and [__getattribute__] itself cannot be called with
    the values of this model. *)
Definition bound (self : lstr) (name : string) : option str.callable :=
  if String.eqb name "__add__" then Some (unary "other" (__add__ self))
  else if String.eqb name "__mod__"
  then Some (unary "other" (fun x => PLstr <$> __mod__ self x))
  else if String.eqb name "__mul__" then Some (unary "other" (__mul__ self))
  else if String.eqb name "__rmul__" then Some (unary "other" (__rmul__ self))
  else if String.eqb name "__getitem__"
  then Some (unary "key" (fun x => PLstr <$> __getitem__ self x))
  else if String.eqb name "__repr__" then Some (str.nullary (Ok (PStr (__repr__ self))))
  else if String.eqb name "join"
  then Some (unary "iterable" (fun x => PLstr <$> join self x))
  else if String.eqb name "split"
  then Some (str.splitter (fun sep maxsplit => instances <$> split self sep maxsplit))
  else if String.eqb name "rsplit"
  then Some (str.splitter (fun sep maxsplit => instances <$> rsplit self sep maxsplit))
  else if String.eqb name "splitlines"
  then Some (str.liner (fun k => Ok (instances (splitlines self k))))
  else if String.eqb name "partition"
  then Some (unary "sep" (fun x => triple <$> partition self x))
  else if String.eqb name "rpartition"
  then Some (unary "sep" (fun x => triple <$> rpartition self x))
  else None.

(** [super().__getattribute__(name)]: the properties and the instance
    attributes, the class, the methods of the class, then the methods
    inherited from [str]. *)
Definition object_getattribute (self : lstr) (name : string) : result attribute :=
  if String.eqb name "logits" || String.eqb name "_logits" then Ok (ALogits (_logits self))
  else if String.eqb name "_origin_trace" || String.eqb name "_lstr__origin_trace"
  then Ok (AOriginTrace (__origin_trace self))
  else if String.eqb name "__class__" then Ok (AClass TLstr)
  else match bound self name with
       | Some f => Ok (AMethod f)
       | None =>
           if List.existsb (String.eqb name) __dict__ then Unmodelled
           else match str.method name (content self) with
                | Some f => Ok (AMethod f)
                | None => Unmodelled
                end
       end.

(** The closure [wrapped] that [__getattribute__] builds around an inherited
    method [attr]. *)
Definition wrapped (self : lstr) (attr : str.callable) : str.callable :=
  fun args kwargs =>
    result ← attr args kwargs;
    if isinstance result TStr then
      let _origin_traces := gather (__origin_trace self) args in
      let _origin_traces := gather _origin_traces (snd <$> kwargs) in
      Ok (PLstr (__new__ (py_str result) None (Markers _origin_traces)))
    else Ok result.

(** [__getattribute__(name)] *)
Definition __getattribute__ (self : lstr) (name : string) : result attribute :=
  attr ← object_getattribute self name;
  if String.eqb name "__class__" then Ok (AClass TLstr)
  else match attr with
       | AMethod f =>
           if negb (List.existsb (String.eqb name) __dict__) then Ok (AMethod (wrapped self f))
           else Ok attr
       | _ => Ok attr
       end.

(** The call of the method [name] of [self] with [args] and [kwargs] *)
Definition call (self : lstr) (name : string) (args : list pyval)
    (kwargs : list (string * pyval)) : result pyval :=
  attr ← __getattribute__ self name;
  match attr with
  | AMethod f => f args kwargs
  | AClass _ => Unmodelled
  | _ => Raise TypeError
  end.

End lstr.

(** ** Operators *)

(** How the interpreter evaluates [v + w], [v * w], [v % w] and [v[k]] when
    one side is an instance of the class.  The method of the left operand
    runs first; [NotImplemented] hands over to the reflected method of the
    right operand, and when that is missing or declines too the operator
    raises [TypeError].  The class defines [__rmul__] and no [__radd__] or
    [__rmod__], and no other type of the model has a reflected method that
    accepts a string. *)
Module operator.

(** The end of the protocol: nothing accepted the operands. *)
Definition settle (r : result pyval) : result pyval :=
  v ← r;
  match v with
  | PNotImplemented => Raise TypeError
  | _ => Ok v
  end.

Definition add (v w : pyval) : result pyval :=
  match v with
  | PLstr a | PLstrSub a => settle (lstr.__add__ a w)
  | PStr s | PStrSub s => PStr <$> str.__add__ s w
  | _ => if isinstance w TLstr then Raise TypeError else Unmodelled
  end.

Definition mul (v w : pyval) : result pyval :=
  match v with
  | PLstr a | PLstrSub a => settle (lstr.__mul__ a w)
  | _ =>
      match as_lstr w, as_str v with
      | Some a, _ => settle (lstr.__rmul__ a v)
      | None, Some s => PStr <$> str.__mul__ s w
      | None, None => Unmodelled
      end
  end.

Definition mod_ (v w : pyval) : result pyval :=
  match v with
  | PLstr a | PLstrSub a => PLstr <$> lstr.__mod__ a w
  | PStr s | PStrSub s => PStr <$> str.__mod__ s w
  | _ => if isinstance w TLstr then Raise TypeError else Unmodelled
  end.

Definition getitem (v k : pyval) : result pyval :=
  match v with
  | PLstr a | PLstrSub a => PLstr <$> lstr.__getitem__ a k
  | PStr s | PStrSub s => PStr <$> str.__getitem__ s k
  | _ => Unmodelled
  end.

End operator.

(** ** The operations of the type *)

(** What can be done with an instance [self]: [self + other] and
    [other + self], the same for [%] and [*], [self[key]], the call of a
    named method, and the iteration over [self], which gives the list of the
    items the iterator yields. *)
Inductive operation : Type :=
| Add (other : pyval)
| Radd (other : pyval)
| Mod (other : pyval)
| Rmod (other : pyval)
| Mul (other : pyval)
| Rmul (other : pyval)
| Getitem (key : pyval)
| Call (name : string) (args : list pyval) (kwargs : list (string * pyval))
| Iterate.

Definition run (self : lstr) (op : operation) : result pyval :=
  match op with
  | Add other => operator.add (PLstr self) other
  | Radd other => operator.add other (PLstr self)
  | Mod other => operator.mod_ (PLstr self) other
  | Rmod other => operator.mod_ other (PLstr self)
  | Mul other => operator.mul (PLstr self) other
  | Rmul other => operator.mul other (PLstr self)
  | Getitem key => operator.getitem (PLstr self) key
  | Call name args kwargs => lstr.call self name args kwargs
  | Iterate => PList <$> iterate (PLstr self)
  end.

(** The methods that the class body defines and that return text. *)
Definition text_methods : list string :=
  ["__add__"; "__mod__"; "__mul__"; "__rmul__"; "__getitem__"; "join"; "split"; "rsplit";
   "splitlines"; "partition"; "rpartition"].

(** The operations that one of these methods evaluates.  [+] and [%] under
    a left operand that is not an instance of the class are evaluated by the
    type of that operand, the iteration by the iterator of [str], and a
    method that the class body does not define by [str], behind the
    wrapper. *)
Definition by_class (op : operation) : bool :=
  match op with
  | Radd other | Rmod other => isinstance other TLstr
  | Call name _ _ => List.existsb (String.eqb name) text_methods
  | Iterate => false
  | _ => true
  end.

(** No text without provenance: the value is not a plain string and, when it
    is a list or a tuple, none of its elements is. *)
Fixpoint no_bare_text (v : pyval) : bool :=
  match v with
  | PStr _ | PStrSub _ => false
  | PTuple vs | PList vs => List.forallb no_bare_text vs
  | _ => true
  end.

(** The arguments a method of the class passes on to the plain-string
    method of the same name: the elements of a tuple operand of [%] go
    through [str], everything else is passed on as it is. *)
Definition passed_on (name : string) (args : list pyval) : list pyval :=
  if String.eqb name "__mod__"
  then match args with
       | [PTuple items] => [PTuple ((fun o => PStr (py_str o)) <$> items)]
       | _ => args
       end
  else args.

(** The markers of the operands that are instances of the class. *)
Definition origins_of (vs : list pyval) : gset string := ⋃ (origin_trace_of <$> vs).

(** The three parts of a partition, each with the trace [o] and no logits. *)
Definition wrap3 (o : gset string) (t : string * string * string) : lstr * lstr * lstr :=
  (mk_lstr (t.1.1) None o, mk_lstr (t.1.2) None o, mk_lstr (t.2) None o).

(** [s] contains [sub]. *)
Definition substring_of (sub s : string) : Prop := exists l r, s = l +:+ sub +:+ r.

(** The call has exactly one positional argument and no keyword. *)
Definition one_positional (args : list pyval) (kwargs : list (string * pyval)) : Prop :=
  (exists x, args = [x]) /\ kwargs = [].

(** ** Instances in a value *)

(** The instances of the class that a value holds: the value itself, or the
    elements of a list or tuple, at any depth. *)
Fixpoint instances_in (v : pyval) : list lstr :=
  match v with
  | PLstr l | PLstrSub l => [l]
  | PTuple vs | PList vs => List.flat_map instances_in vs
  | _ => []
  end.

(** The markers of the instances that a value holds. *)
Definition traces_in (v : pyval) : gset string := ⋃ (__origin_trace <$> instances_in v).

(** The values an operation is given besides the receiver. *)
Definition operands (op : operation) : list pyval :=
  match op with
  | Add other | Radd other | Mod other | Rmod other | Mul other | Rmul other => [other]
  | Getitem key => [key]
  | Call _ args kwargs => args ++ (snd <$> kwargs)
  | Iterate => []
  end.

(** A character that [repr] writes as it is between single quotes: printable
    ASCII, not the single quote and not the backslash. *)
Definition plain_char (c : ascii) : bool :=
  ((32 <=? text.code c) && (text.code c <? 127))%N
  && negb (Ascii.eqb c "'") && negb (Ascii.eqb c "\").

(** The character that opens a conversion in a template. *)
Definition percent (c : ascii) : bool := Ascii.eqb c "%".

(** An instance made from [self] and operands whose markers are [extra]: it
    has no logits, its trace holds the trace of [self], and it holds no
    marker beyond those of [self] and [extra]. *)
Definition derived (self : lstr) (extra : gset string) (l : lstr) : Prop :=
  _logits l = None
  /\ __origin_trace self ⊆ __origin_trace l
  /\ __origin_trace l ⊆ __origin_trace self ∪ extra.

(** ** Iterators that run once *)

(** A generator, or any other iterator that is not a container, is its own
    iterator and yields its items once.  Its state is what it has left to
    yield; a loop or a comprehension over it runs it to the end and leaves
    it empty. *)
Module iterator.

Definition state : Type := list pyval.

Definition exhaust (it : state) : list pyval * state := (it, []).

(** [lstr.join] called with such an iterator: the comprehension that takes
    the texts and the loop that gathers the traces go through the same
    iterator one after the other. *)
Definition join (self : lstr) (iterable : state) : result lstr * state :=
  let '(items, iterable) := exhaust iterable in
  let parts := (fun item => PStr (py_str item)) <$> items in
  match str.join (content self) (PList parts) with
  | Ok new_content =>
      let '(items', iterable) := exhaust iterable in
      let new__origin_trace := lstr.gather (__origin_trace self) items' in
      (Ok (lstr.__new__ new_content None (lstr.Markers new__origin_trace)), iterable)
  | Raise e => (Raise e, iterable)
  | Unmodelled => (Unmodelled, iterable)
  end.

End iterator.

(** The methods that the class body defines. *)
Definition class_methods : list string := "__repr__" :: text_methods.

(** An operation that is not the call of a method inherited from [str]: an
    operator, indexing, the iteration, or the call of a method of the class
    body. *)
Definition by_class_body (op : operation) : bool :=
  match op with
  | Call name _ _ => List.existsb (String.eqb name) class_methods
  | _ => true
  end.

(** * Properties *)

(** ** Text *)

Lemma str_app_nil_l (s : string) : "" +:+ s = s.
Proof. reflexivity. Qed.

Lemma str_app_cons (c : ascii) (s t : string) : String c s +:+ t = String c (s +:+ t).
Proof. reflexivity. Qed.

Lemma str_app_nil_r (s : string) : s +:+ "" = s.
Proof. induction s as [|c s IH]; [reflexivity | exact (f_equal (String c) IH)]. Qed.

Lemma str_app_assoc (s t u : string) : (s +:+ t) +:+ u = s +:+ (t +:+ u).
Proof. induction s as [|c s IH]; [reflexivity | exact (f_equal (String c) IH)]. Qed.

Lemma str_length_app (s t : string) :
  String.length (s +:+ t) = (String.length s + String.length t)%nat.
Proof.
  induction s as [|c s IH]; [reflexivity|].
  rewrite str_app_cons. simpl. by rewrite IH.
Qed.

Lemma snoc_app (s : string) (c : ascii) (t : string) :
  text.snoc s c +:+ t = s +:+ String c t.
Proof. unfold text.snoc. by rewrite str_app_assoc. Qed.

Lemma str_drop_app (p s : string) : text.drop (String.length p) (p +:+ s) = s.
Proof. induction p as [|c p IH]; [by destruct s | exact IH]. Qed.

Lemma str_take_app (p s : string) : text.take (String.length p) (p +:+ s) = p.
Proof.
  induction p as [|c p IH]; [by destruct s|].
  rewrite str_app_cons. simpl. by rewrite IH.
Qed.

Lemma prefix_app (p s : string) : String.prefix p (p +:+ s) = true.
Proof.
  induction p as [|c p IH]; [by destruct s|].
  rewrite str_app_cons. simpl.
  destruct (ascii_dec c c); [exact IH | congruence].
Qed.

Lemma prefix_split (p s : string) :
  String.prefix p s = true -> s = p +:+ text.drop (String.length p) s.
Proof.
  revert s; induction p as [|c p IH]; intros s H.
  - by destruct s.
  - destruct s as [|d s]; simpl in H; [discriminate|].
    destruct (ascii_dec c d) as [->|]; [|discriminate].
    simpl. rewrite str_app_cons. f_equal. by apply IH.
Qed.

Lemma prefix_iff (p s : string) :
  String.prefix p s = true <-> exists r, s = p +:+ r.
Proof.
  split.
  - intros H. eexists. by apply prefix_split.
  - intros [r ->]. apply prefix_app.
Qed.

Lemma prefix_length (p s : string) :
  String.prefix p s = true -> (String.length p <= String.length s)%nat.
Proof. intros [r ->]%prefix_iff. rewrite str_length_app. lia. Qed.

(** ** Types and traces *)

Lemma isinstance_lstr (v : pyval) : isinstance v TLstr = true <-> is_Some (as_lstr v).
Proof.
  destruct v; simpl; split; intros H; try discriminate; try (by eexists);
    try reflexivity; by destruct H.
Qed.

Lemma isinstance_str (v : pyval) : isinstance v TStr = true <-> is_Some (as_str v).
Proof.
  destruct v; simpl; split; intros H; try discriminate; try (by eexists);
    try reflexivity; by destruct H.
Qed.

Lemma origin_trace_of_plain (v : pyval) : isinstance v TLstr = false -> origin_trace_of v = ∅.
Proof. by destruct v. Qed.

Lemma gather_union (start : gset string) (items : list pyval) :
  lstr.gather start items = start ∪ origins_of items.
Proof.
  unfold lstr.gather, origins_of.
  revert start; induction items as [|v items IH]; intros start; simpl.
  - by rewrite (right_id_L ∅ (∪)).
  - rewrite IH. destruct (isinstance v TLstr) eqn:E.
    + by rewrite (assoc_L (∪)).
    + by rewrite (origin_trace_of_plain v E), (left_id_L ∅ (∪)).
Qed.

Lemma repeat_concat (n : nat) (s : string) :
  text.repeat n s = String.concat "" (replicate n s).
Proof.
  induction n as [|n IH]; [reflexivity|].
  simpl. rewrite IH. destruct n; simpl; [by rewrite str_app_nil_r | reflexivity].
Qed.

(** ** Concatenation *)

(** C1.  For instances [a] and [b] of the class (either one possibly of a
    derived class), [a + b] is an instance whose text is the concatenation
    of the two texts, whose logits are absent whatever the logits of [a]
    and [b] were, and whose trace is the union of the two traces; with a
    plain string on the right the trace is that of [a]. *)
Theorem add_concatenates_and_unions (a b : lstr) :
  let sum := mk_lstr (content a +:+ content b) None (__origin_trace a ∪ __origin_trace b) in
  lstr.__add__ a (PLstr b) = Ok (PLstr sum)
  /\ operator.add (PLstr a) (PLstr b) = Ok (PLstr sum)
  /\ operator.add (PLstr a) (PLstrSub b) = Ok (PLstr sum)
  /\ operator.add (PLstrSub a) (PLstr b) = Ok (PLstr sum)
  /\ lstr.logits sum = None
  /\ lstr._origin_trace sum = lstr._origin_trace a ∪ lstr._origin_trace b
  /\ forall s : string,
       operator.add (PLstr a) (PStr s)
       = Ok (PLstr (mk_lstr (content a +:+ s) None (__origin_trace a))).
Proof. repeat split. Qed.

(** The scenario of the class docstring. *)
Example add_hello_world :
  operator.add (PLstr (lstr.__new__ "Hello" (Some [1#1; 2#1; 3#1]) (lstr.Marker "m1")))
               (PLstr (lstr.__new__ "World" None (lstr.Marker "m2")))
  = Ok (PLstr (mk_lstr "HelloWorld" None ({[ "m1" ]} ∪ {[ "m2" ]}))).
Proof. reflexivity. Qed.

(** ** Repetition *)

Lemma ssize_t_fits (n : Z) :
  (- PY_SSIZE_T_MAX - 1 <= n <= PY_SSIZE_T_MAX)%Z -> as_ssize_t n = Ok n.
Proof.
  intros H. unfold as_ssize_t.
  destruct (Z.ltb_spec n (- PY_SSIZE_T_MAX - 1)); [lia|].
  destruct (Z.ltb_spec PY_SSIZE_T_MAX n); [lia | reflexivity].
Qed.

Lemma ssize_t_overflow (n : Z) :
  (n < - PY_SSIZE_T_MAX - 1 \/ PY_SSIZE_T_MAX < n)%Z -> as_ssize_t n = Raise OverflowError.
Proof.
  intros H. unfold as_ssize_t.
  destruct (Z.ltb_spec n (- PY_SSIZE_T_MAX - 1)); [reflexivity|].
  destruct (Z.ltb_spec PY_SSIZE_T_MAX n); [reflexivity | lia].
Qed.

Lemma ssize_t_max_positive : (0 < PY_SSIZE_T_MAX)%Z.
Proof. reflexivity. Qed.

(** The count fits and the repeated text is not too long: the text is
    repeated. *)
Lemma str_mul_fits (s : string) (k : Z) :
  (0 <= k <= PY_SSIZE_T_MAX)%Z ->
  (Z.of_nat (String.length s) * k <= PY_SSIZE_T_MAX)%Z ->
  str.__mul__ s (PInt k) = Ok (text.repeat (Z.to_nat k) s).
Proof.
  intros Hk Hlen. pose proof ssize_t_max_positive as Hmax.
  unfold str.__mul__. cbn [as_index].
  rewrite ssize_t_fits by lia. cbn [mbind result_bind].
  destruct (Z.ltb_spec k 1) as [H1|H1].
  { by replace k with 0%Z by lia. }
  destruct (Z.eqb_spec k 1) as [->|Hne].
  { simpl. by rewrite str_app_nil_r. }
  destruct (Z.ltb_spec (PY_SSIZE_T_MAX / k) (Z.of_nat (String.length s))) as [Hdiv|_];
    [|reflexivity].
  assert (Z.of_nat (String.length s) <= PY_SSIZE_T_MAX / k)%Z
    by (apply Z.div_le_lower_bound; lia).
  lia.
Qed.

(** The count does not fit, or the repeated text is too long. *)
Lemma str_mul_overflow (s : string) (k : Z) :
  (k < - PY_SSIZE_T_MAX - 1 \/ PY_SSIZE_T_MAX < k
   \/ (2 <= k /\ PY_SSIZE_T_MAX < Z.of_nat (String.length s) * k))%Z ->
  str.__mul__ s (PInt k) = Raise OverflowError.
Proof.
  intros H. pose proof ssize_t_max_positive as Hmax.
  unfold str.__mul__. cbn [as_index].
  destruct (Z.ltb_spec k (- PY_SSIZE_T_MAX - 1)) as [Hlow|Hlow];
    [by rewrite ssize_t_overflow by lia|].
  destruct (Z.ltb_spec PY_SSIZE_T_MAX k) as [Hhigh|Hhigh];
    [by rewrite ssize_t_overflow by lia|].
  destruct H as [H|[H|[Hk Hlen]]]; try lia.
  rewrite ssize_t_fits by lia. cbn [mbind result_bind].
  destruct (Z.ltb_spec k 1); [lia|].
  destruct (Z.eqb_spec k 1); [lia|].
  destruct (Z.ltb_spec (PY_SSIZE_T_MAX / k) (Z.of_nat (String.length s))) as [_|Hdiv];
    [reflexivity|].
  assert (PY_SSIZE_T_MAX / k < Z.of_nat (String.length s))%Z
    by (apply Z.div_lt_upper_bound; lia).
  lia.
Qed.

(** C6, as worded, fails for a count that does not fit an index-sized
    integer: the built-in repetition raises [OverflowError], on either side
    of [*] and also for the empty text, so there is no product. *)
Lemma mul_count_overflows :
  (0 <= 2 ^ 64)%Z
  /\ operator.mul (PLstr (lstr.__new__ "" None (lstr.Marker "m1"))) (PInt (2 ^ 64))
     = Raise OverflowError
  /\ operator.mul (PInt (2 ^ 63)) (PLstr (lstr.__new__ "ab" None (lstr.Marker "m1")))
     = Raise OverflowError.
Proof. split; [done | split; reflexivity]. Qed.

(** C6, amended.  For a count [n >= 0] that fits an index-sized integer and
    a repeated text no longer than [PY_SSIZE_T_MAX], [a * n] is an instance
    whose text is [n] copies of the text of [a] joined with nothing between
    them, whose logits are absent and whose trace is that of [a]; [n * a]
    is the same value.  For a count above [PY_SSIZE_T_MAX], and for a count
    of two or more with a repeated text that is too long, both raise
    [OverflowError]. *)
Theorem mul_repeats (a : lstr) :
  (forall n : Z,
     (0 <= n <= PY_SSIZE_T_MAX)%Z ->
     (Z.of_nat (String.length (content a)) * n <= PY_SSIZE_T_MAX)%Z ->
     let product := mk_lstr (String.concat "" (replicate (Z.to_nat n) (content a)))
                            None (__origin_trace a) in
     operator.mul (PLstr a) (PInt n) = Ok (PLstr product)
     /\ operator.mul (PInt n) (PLstr a) = Ok (PLstr product)
     /\ lstr._origin_trace product = lstr._origin_trace a)
  /\ (forall n : Z,
        (PY_SSIZE_T_MAX < n
         \/ (2 <= n /\ PY_SSIZE_T_MAX < Z.of_nat (String.length (content a)) * n))%Z ->
        operator.mul (PLstr a) (PInt n) = Raise OverflowError
        /\ operator.mul (PInt n) (PLstr a) = Raise OverflowError)
  /\ (forall other : pyval, lstr.__rmul__ a other = lstr.__mul__ a other).
Proof.
  split; [|split; [|reflexivity]].
  - intros n Hn Hlen product. subst product. rewrite <- repeat_concat.
    cbn [operator.mul as_lstr as_str]. unfold lstr.__rmul__, lstr.__mul__.
    cbn [supports_index as_index]. rewrite (str_mul_fits _ _ Hn Hlen).
    repeat split.
  - intros n Hn.
    cbn [operator.mul as_lstr as_str]. unfold lstr.__rmul__, lstr.__mul__.
    cbn [supports_index as_index].
    rewrite (str_mul_overflow (content a) n) by lia.
    split; reflexivity.
Qed.

Lemma mul_repeats_witness :
  (operator.mul (PLstr (lstr.__new__ "ab" (Some [1#2]) (lstr.Marker "m1"))) (PInt 3)
   = Ok (PLstr (mk_lstr "ababab" None {[ "m1" ]}))
   /\ operator.mul (PInt 3) (PLstr (lstr.__new__ "ab" (Some [1#2]) (lstr.Marker "m1")))
      = Ok (PLstr (mk_lstr "ababab" None {[ "m1" ]})))
  /\ operator.mul (PLstr (lstr.__new__ "ab" (Some [1#2]) (lstr.Marker "m1")))
                  (PInt (PY_SSIZE_T_MAX + 1))
     = Raise OverflowError.
Proof.
  pose proof (mul_repeats (lstr.__new__ "ab" (Some [1#2]) (lstr.Marker "m1")))
    as (Hfits & Hover & _).
  split.
  - destruct (Hfits 3%Z) as (H1 & H2 & _); [done | done | split; [exact H1 | exact H2]].
  - apply Hover. left. lia.
Defined.

(** ** Construction *)

(** One marker given as a string is the singleton of that marker; no marker
    is the empty trace; the text and the logits are kept as given. *)
Example new_origin_arg :
  lstr.__new__ "Hello" None (lstr.Marker "m1") = lstr.__new__ "Hello" None (lstr.Markers {[ "m1" ]})
  /\ lstr._origin_trace (lstr.__new__ "Hello" None lstr.NoOrigin) = ∅
  /\ content (lstr.__new__ "Hello" None lstr.NoOrigin) = "Hello"
  /\ lstr.logits (lstr.__new__ "Hello" (Some [1#1; 2#1; 3#1]) lstr.NoOrigin)
     = Some [1#1; 2#1; 3#1].
Proof. repeat split. Qed.

(** ** Subclasses of [str] on the right of [+] *)

(** C10, as worded, fails for a class derived from [lstr]: it is a strict
    subclass of [str], it is not [lstr] itself, and an instance of it on the
    right of [+] passes [isinstance(other, lstr)] and is concatenated. *)
Lemma add_accepts_derived_lstr :
  issubclass TLstrSub TStr = true /\ TLstrSub <> TStr /\ TLstrSub <> TLstr
  /\ lstr.__add__ (lstr.__new__ "ab" None (lstr.Marker "m1"))
                  (PLstrSub (lstr.__new__ "cd" None (lstr.Marker "m2")))
     = Ok (PLstr (mk_lstr "abcd" None ({[ "m1" ]} ∪ {[ "m2" ]}))).
Proof. repeat split; discriminate. Qed.

(** C10, amended.  The check on the right operand of [+] asks for the type
    [str] exactly, or for an instance of [lstr]; an operand that is an
    instance of [str] through some other subclass gets [NotImplemented]
    from [__add__], and the operator then raises [TypeError]. *)
Theorem add_rejects_other_str_subclasses (a : lstr) (other : pyval) :
  isinstance other TStr = true ->
  type_is other TStr = false ->
  isinstance other TLstr = false ->
  lstr.__add__ a other = Ok PNotImplemented
  /\ operator.add (PLstr a) other = Raise TypeError.
Proof. destruct other; simpl; intros; try discriminate; split; reflexivity. Qed.

Lemma add_rejects_other_str_subclasses_witness :
  lstr.__add__ (lstr.__new__ "ab" None (lstr.Marker "m1")) (PStrSub "cd") = Ok PNotImplemented
  /\ operator.add (PLstr (lstr.__new__ "ab" None (lstr.Marker "m1"))) (PStrSub "cd")
     = Raise TypeError.
Proof.
  apply (add_rejects_other_str_subclasses
           (lstr.__new__ "ab" None (lstr.Marker "m1")) (PStrSub "cd"));
    reflexivity.
Defined.

(** ** Methods inherited from [str] *)

Lemma existsb_eqb_false (name : string) (names : list string) :
  List.existsb (String.eqb name) names = false <-> name ∉ names.
Proof.
  induction names as [|n names IH]; simpl.
  - split; [intros _; apply not_elem_of_nil | reflexivity].
  - rewrite not_elem_of_cons, orb_false_iff, IH, String.eqb_neq. reflexivity.
Qed.

(** What the closure [wrapped] does with the outcome of the method it wraps. *)
Lemma wrapped_spec (self : lstr) (attr : str.callable)
    (args : list pyval) (kwargs : list (string * pyval)) :
  lstr.wrapped self attr args kwargs =
  match attr args kwargs with
  | Ok v =>
      match as_str v with
      | Some t => Ok (PLstr (mk_lstr t None
                    (__origin_trace self ∪ origins_of args ∪ origins_of (snd <$> kwargs))))
      | None => Ok v
      end
  | Raise e => Raise e
  | Unmodelled => Unmodelled
  end.
Proof.
  unfold lstr.wrapped. destruct (attr args kwargs) as [v|e|]; try reflexivity.
  destruct v; try reflexivity; simpl; unfold lstr.__new__, py_str; simpl;
    by rewrite !gather_union.
Qed.

(** Calling by name a method that [str] has and the class body does not runs
    the closure [wrapped] around that method. *)
Lemma inherited_call (self : lstr) (name : string) (attr : str.callable)
    (args : list pyval) (kwargs : list (string * pyval)) :
  str.method name (content self) = Some attr ->
  lstr.call self name args kwargs = lstr.wrapped self attr args kwargs.
Proof.
  unfold lstr.call, lstr.__getattribute__, lstr.object_getattribute, lstr.bound, str.method.
  cbn [List.existsb lstr.__dict__].
  repeat match goal with
         | |- context [String.eqb name ?lit] =>
             destruct (String.eqb_spec name lit) as [->|_];
             [intros H; first [discriminate H | injection H as <-; reflexivity] |]
         end.
  discriminate.
Qed.

(** C2.  A callable attribute that the class body does not define is handed
    out wrapped, and calling an inherited method by its name runs the
    wrapper around that method of [str].  The wrapper calls the method with
    the same arguments; a result that is text comes back as an instance of
    the class with no logits and with the trace of the receiver united with
    the traces of the positional and keyword arguments that are instances of
    the class; any other result, and a failure, comes back as it is.
    [upper] on "Hello" with trace m1 gives "HELLO" with trace m1 and no
    logits. *)
Theorem inherited_methods_are_wrapped (self : lstr) :
  (forall (name : string) (attr : str.callable),
     name ∉ lstr.__dict__ ->
     lstr.object_getattribute self name = Ok (lstr.AMethod attr) ->
     lstr.__getattribute__ self name = Ok (lstr.AMethod (lstr.wrapped self attr)))
  /\ (forall (name : string) (attr : str.callable)
             (args : list pyval) (kwargs : list (string * pyval)),
        str.method name (content self) = Some attr ->
        lstr.call self name args kwargs = lstr.wrapped self attr args kwargs)
  /\ (forall (attr : str.callable) (args : list pyval) (kwargs : list (string * pyval)),
        lstr.wrapped self attr args kwargs =
        match attr args kwargs with
        | Ok v =>
            match as_str v with
            | Some t => Ok (PLstr (mk_lstr t None
                          (__origin_trace self ∪ origins_of args ∪ origins_of (snd <$> kwargs))))
            | None => Ok v
            end
        | Raise e => Raise e
        | Unmodelled => Unmodelled
        end)
  /\ lstr.call (lstr.__new__ "Hello" (Some [1#1; 2#1; 3#1]) (lstr.Marker "m1")) "upper" [] []
     = Ok (PLstr (mk_lstr "HELLO" None {[ "m1" ]})).
Proof.
  split; [|split; [|split]].
  - intros name attr Hname Hattr. unfold lstr.__getattribute__. rewrite Hattr.
    apply existsb_eqb_false in Hname. rewrite Hname. simpl.
    destruct (String.eqb_spec name "__class__") as [->|_]; [discriminate Hattr|].
    reflexivity.
  - intros name attr args kwargs. apply inherited_call.
  - apply wrapped_spec.
  - reflexivity.
Qed.

Lemma inherited_methods_are_wrapped_witness :
  lstr.__getattribute__ (lstr.__new__ "Hello" None (lstr.Marker "m1")) "upper"
  = Ok (lstr.AMethod (lstr.wrapped (lstr.__new__ "Hello" None (lstr.Marker "m1"))
          (str.nullary (PStr <$> str.upper "Hello"))))
  /\ lstr.call (lstr.__new__ "Hello" None (lstr.Marker "m1")) "upper" [] []
     = lstr.wrapped (lstr.__new__ "Hello" None (lstr.Marker "m1"))
         (str.nullary (PStr <$> str.upper "Hello")) [] [].
Proof.
  pose proof (inherited_methods_are_wrapped (lstr.__new__ "Hello" None (lstr.Marker "m1")))
    as (Hattr & Hcall & _).
  split.
  - apply Hattr.
    + apply existsb_eqb_false. reflexivity.
    + reflexivity.
  - apply Hcall. reflexivity.
Defined.

(** [replace] with an instance of the class as the new text: the traces are
    united.  [startswith] answers with a boolean, which is not wrapped. *)
Example replace_unites_traces :
  lstr.call (lstr.__new__ "a.b" (Some [1#2]) (lstr.Marker "m1")) "replace"
            [PStr "."; PLstr (lstr.__new__ "-" None (lstr.Marker "m2"))] []
  = Ok (PLstr (mk_lstr "a-b" None ({[ "m1" ]} ∪ {[ "m2" ]})))
  /\ lstr.call (lstr.__new__ "a.b" None (lstr.Marker "m1")) "startswith" [PStr "a"] []
     = Ok (PBool true).
Proof. split; reflexivity. Qed.

(** ** Template substitution *)


Lemma convert_str (c : ascii) (v : pyval) :
  isinstance v TStr = true -> str.convert c v = str.convert c (PStr (py_str v)).
Proof. destruct v; intros H; try discriminate H; reflexivity. Qed.

Lemma format_ext (lenient : bool) (t : string) :
  forall (pending : bool) (args args' : list pyval),
    Forall2 (fun v v' => forall c, str.convert c v = str.convert c v') args args' ->
    str.format lenient args pending t = str.format lenient args' pending t.
Proof.
  induction t as [|c t IH]; intros pending args args' H.
  - simpl. destruct pending; [reflexivity|].
    destruct H; reflexivity.
  - simpl. destruct pending.
    + destruct (Ascii.eqb c "%"); [by rewrite (IH false args args' H)|].
      destruct (Ascii.eqb c "("); [reflexivity|].
      match goal with |- (if ?b then _ else _) = _ => destruct b end; [reflexivity|].
      destruct H as [|v v' args args' Hv H]; [reflexivity|].
      by rewrite Hv, (IH false args args' H).
    + destruct (Ascii.eqb c "%"); by rewrite (IH _ args args' H).
Qed.

Lemma mod_str (s : string) (v : pyval) :
  isinstance v TStr = true -> str.__mod__ s v = str.__mod__ s (PStr (py_str v)).
Proof.
  intros H. assert (str.__mod__ s v = str.format false [v] false s) as ->
    by (destruct v; try discriminate H; reflexivity).
  simpl. apply format_ext. constructor; [|constructor].
  intros c. by apply convert_str.
Qed.

(** C8, as worded, fails for a single operand that is not a string: it is
    passed on as it is, not as [str] gives it.  The template "%d" with the
    integer 5 gives "5", where the substitution of the stringified operand
    fails. *)
Lemma mod_single_operand_is_not_stringified :
  lstr.__mod__ (lstr.__new__ "%d" None (lstr.Marker "m1")) (PInt 5)
  = Ok (mk_lstr "5" None {[ "m1" ]})
  /\ py_str (PInt 5) = "5"
  /\ str.__mod__ "%d" (PStr (py_str (PInt 5))) = Raise TypeError.
Proof. repeat split. Qed.

(** C8, amended.  With a tuple on the right, [a % other] is the ordinary
    substitution into the text of [a] of the elements of the tuple as [str]
    gives them.  With any other operand it is the ordinary substitution of
    that one operand as it is, which for an operand that is a string is
    the substitution of its text.  The result has no logits; its trace is
    the trace of [a] united with the traces of the operands that are
    instances of the class, and the other operands add nothing.  Where the
    ordinary substitution fails, [a % other] fails in the same way. *)
Theorem mod_substitutes_and_unions (a : lstr) :
  (forall items : list pyval,
     lstr.__mod__ a (PTuple items)
     = (fun t => mk_lstr t None (__origin_trace a ∪ origins_of items))
         <$> str.__mod__ (content a) (PTuple ((fun o => PStr (py_str o)) <$> items)))
  /\ (forall v : pyval,
        (forall items : list pyval, v <> PTuple items) ->
        lstr.__mod__ a v
        = (fun t => mk_lstr t None (__origin_trace a ∪ origin_trace_of v))
            <$> str.__mod__ (content a) v)
  /\ (forall v : pyval,
        isinstance v TStr = true ->
        str.__mod__ (content a) v = str.__mod__ (content a) (PStr (py_str v)))
  /\ (forall v : pyval, isinstance v TLstr = false -> origin_trace_of v = ∅)
  /\ (forall other : pyval,
        operator.mod_ (PLstr a) other = PLstr <$> lstr.__mod__ a other).
Proof.
  split; [|split; [|split; [|split]]].
  - intros items. unfold lstr.__mod__.
    destruct (str.__mod__ _ _) as [t|e|]; simpl; try reflexivity.
    unfold lstr.__new__. by rewrite gather_union.
  - intros v Hv.
    destruct v; try (by destruct (Hv vs)); unfold lstr.__mod__;
      destruct (str.__mod__ _ _) as [t|e|]; simpl; try reflexivity;
      unfold lstr.__new__, origin_trace_of; simpl;
      rewrite ?(right_id_L ∅ (∪)); reflexivity.
  - intros v Hv. by apply mod_str.
  - apply origin_trace_of_plain.
  - reflexivity.
Qed.

Lemma mod_substitutes_and_unions_witness :
  lstr.__mod__ (lstr.__new__ "Hello %s" (Some [1#1]) (lstr.Marker "m1"))
               (PLstr (lstr.__new__ "World" None (lstr.Marker "m2")))
  = (fun t => mk_lstr t None ({[ "m1" ]} ∪ {[ "m2" ]}))
      <$> str.__mod__ "Hello %s" (PLstr (lstr.__new__ "World" None (lstr.Marker "m2")))
  /\ str.__mod__ "Hello %s" (PLstr (lstr.__new__ "World" None (lstr.Marker "m2")))
     = str.__mod__ "Hello %s" (PStr "World")
  /\ origin_trace_of (PStr "World") = ∅.
Proof.
  pose proof (mod_substitutes_and_unions
                (lstr.__new__ "Hello %s" (Some [1#1]) (lstr.Marker "m1")))
    as (_ & Hone & Hstr & Hplain & _).
  split; [|split].
  - apply Hone. discriminate.
  - exact (Hstr (PLstr (lstr.__new__ "World" None (lstr.Marker "m2"))) eq_refl).
  - exact (Hplain (PStr "World") eq_refl).
Defined.

(** A single operand that is an instance of the class, and one that is an
    integer. *)
Example mod_single :
  lstr.__mod__ (lstr.__new__ "Hello %s" (Some [1#1]) (lstr.Marker "m1"))
               (PLstr (lstr.__new__ "World" None (lstr.Marker "m2")))
  = Ok (mk_lstr "Hello World" None ({[ "m1" ]} ∪ {[ "m2" ]}))
  /\ lstr.__mod__ (lstr.__new__ "n = %s" None (lstr.Marker "m1")) (PInt 5)
     = Ok (mk_lstr "n = 5" None ({[ "m1" ]} ∪ ∅)).
Proof. split; reflexivity. Qed.

(** A tuple of a plain string and an instance of the class. *)
Example mod_tuple :
  lstr.__mod__ (lstr.__new__ "%s, %s!" None (lstr.Marker "m1"))
               (PTuple [PStr "Hello"; PLstr (lstr.__new__ "World" None (lstr.Marker "m2"))])
  = Ok (mk_lstr "Hello, World!" None ({[ "m1" ]} ∪ {[ "m2" ]})).
Proof. reflexivity. Qed.

(** ** Indexing and slicing *)

Lemma get_drop (n : nat) (s : string) :
  (n < String.length s)%nat ->
  exists c, String.get n s = Some c /\ text.drop n s = String c (text.drop (S n) s).
Proof.
  revert s; induction n as [|n IH]; intros [|d s] H; simpl in H; try lia.
  - exists d. split; [reflexivity | by destruct s].
  - destruct (IH s ltac:(lia)) as (c & Hget & Hdrop).
    exists c. split; [exact Hget | exact Hdrop].
Qed.

Lemma pick_forward (s : string) (count k : nat) :
  (k + count <= String.length s)%nat ->
  str.pick s (Z.of_nat k) 1 count = text.take count (text.drop k s).
Proof.
  revert k; induction count as [|count IH]; intros k H; [by destruct (text.drop k s)|].
  destruct (get_drop k s ltac:(lia)) as (c & Hget & Hdrop).
  simpl. rewrite Nat2Z.id, Hget, Hdrop. simpl. f_equal.
  replace (Z.of_nat k + 1)%Z with (Z.of_nat (S k)) by lia.
  apply IH. lia.
Qed.

Lemma take_all (s : string) : text.take (String.length s) s = s.
Proof. induction s as [|c s IH]; simpl; [reflexivity | by rewrite IH]. Qed.

Lemma getitem_full_slice (s : string) : str.getitem_slice s None None None = Ok s.
Proof.
  unfold str.getitem_slice, str.slice_indices. simpl.
  destruct s as [|c s]; [reflexivity|].
  set (n := String.length (String c s)).
  assert ((0 <? Z.of_nat n)%Z = true) as -> by (apply Z.ltb_lt; subst n; simpl; lia).
  replace (Z.to_nat ((Z.of_nat n - 0 - 1) / 1 + 1)) with n
    by (rewrite Z.div_1_r; lia).
  change 0%Z with (Z.of_nat 0).
  rewrite (pick_forward (String c s) n 0) by (subst n; lia).
  f_equal. apply take_all.
Qed.

Lemma getitem_index_valid (s : string) (i : Z) :
  (- Z.of_nat (String.length s) <= i < Z.of_nat (String.length s))%Z ->
  exists c, str.getitem_index s i = Ok (String c "").
Proof.
  intros H. unfold str.getitem_index.
  set (n := Z.of_nat (String.length s)) in *.
  set (j := if (i <? 0)%Z then (i + n)%Z else i).
  assert (0 <= j < n)%Z as Hj by (subst j; destruct (Z.ltb_spec i 0); lia).
  assert (((0 <=? j)%Z && (j <? n)%Z) = true) as ->
    by (apply andb_true_iff; split; [apply Z.leb_le | apply Z.ltb_lt]; lia).
  destruct (get_drop (Z.to_nat j) s ltac:(subst n; lia)) as (c & -> & _).
  by exists c.
Qed.

(** C3.  [a[key]] is the ordinary indexing or slicing of the text of [a],
    as an instance with no logits and with the trace of [a]: whatever the
    logits of [a] were, and also for the slice [[:]] that keeps the whole
    text.  The keys that work are the keys that work on the text: every
    index from [-len] to [len - 1] and every slice whose step is not zero. *)
Theorem getitem_drops_logits (a : lstr) :
  (forall (key : pyval) (r : string),
     str.__getitem__ (content a) key = Ok r ->
     lstr.__getitem__ a key = Ok (mk_lstr r None (__origin_trace a))
     /\ operator.getitem (PLstr a) key = Ok (PLstr (mk_lstr r None (__origin_trace a))))
  /\ (forall i : Z,
        (- Z.of_nat (String.length (content a)) <= i < Z.of_nat (String.length (content a)))%Z ->
        exists c, str.__getitem__ (content a) (PInt i) = Ok (String c ""))
  /\ (forall start stop step : option Z,
        step <> Some 0%Z ->
        exists r, str.__getitem__ (content a) (PSlice start stop step) = Ok r)
  /\ lstr.__getitem__ a (PSlice None None None)
     = Ok (mk_lstr (content a) None (__origin_trace a)).
Proof.
  split; [|split; [|split]].
  - intros key r H. unfold operator.getitem, lstr.__getitem__. rewrite H. by split.
  - intros i H. simpl. by apply getitem_index_valid.
  - intros start stop step H. simpl. unfold str.getitem_slice.
    destruct (Z.eqb_spec (default 1%Z step) 0) as [E|_].
    + destruct step as [st|]; simpl in E; [subst st; contradiction | discriminate].
    + destruct (str.slice_indices _ _ _ _). by eexists.
  - unfold lstr.__getitem__.
    change (str.__getitem__ (content a) (PSlice None None None))
      with (str.getitem_slice (content a) None None None).
    by rewrite getitem_full_slice.
Qed.

Lemma getitem_drops_logits_witness :
  lstr.__getitem__ (lstr.__new__ "Hello" (Some [1#1; 2#1; 3#1]) (lstr.Marker "m1"))
                   (PSlice (Some 1%Z) (Some 4%Z) None)
  = Ok (mk_lstr "ell" None {[ "m1" ]})
  /\ (exists c, str.__getitem__ "Hello" (PInt (-1)) = Ok (String c ""))
  /\ (exists r, str.__getitem__ "Hello" (PSlice None None (Some (-1)%Z)) = Ok r).
Proof.
  pose proof (getitem_drops_logits
                (lstr.__new__ "Hello" (Some [1#1; 2#1; 3#1]) (lstr.Marker "m1")))
    as (Hkey & Hindex & Hslice & _).
  split; [|split].
  - exact (proj1 (Hkey (PSlice (Some 1%Z) (Some 4%Z) None) "ell" eq_refl)).
  - apply (Hindex (-1)%Z). simpl. lia.
  - apply (Hslice None None (Some (-1)%Z)). discriminate.
Defined.

(** Indexing from the end, a reversed slice, and an index out of range. *)
Example getitem_cases :
  let a := lstr.__new__ "Hello" (Some [1#1; 2#1; 3#1]) (lstr.Marker "m1") in
  lstr.__getitem__ a (PInt (-1)) = Ok (mk_lstr "o" None {[ "m1" ]})
  /\ lstr.__getitem__ a (PSlice None None (Some (-1)%Z)) = Ok (mk_lstr "olleH" None {[ "m1" ]})
  /\ lstr.__getitem__ a (PInt 5) = Raise IndexError
  /\ lstr.__getitem__ a (PSlice None None (Some 0%Z)) = Raise ValueError.
Proof. repeat split. Qed.

(** ** Split and join *)

Lemma split_sep_not_nil (sep : string) (s : string) :
  forall (b : str.budget) (skip : nat) (cur : string), str.split_sep sep b skip cur s <> [].
Proof.
  induction s as [|c s IH]; intros b skip cur; cbn [str.split_sep]; [discriminate|].
  destruct skip; [|apply IH].
  destruct (String.prefix sep (String c s)); [|apply IH].
  destruct (str.spend b); discriminate.
Qed.

Lemma concat_cons (sep x : string) (l : list string) :
  l <> [] -> String.concat sep (x :: l) = x +:+ sep +:+ String.concat sep l.
Proof. by destruct l. Qed.

Lemma drop_succ (n : nat) (c : ascii) (s : string) :
  text.drop (S n) (String c s) = text.drop n s.
Proof. reflexivity. Qed.

(** Joining the fragments of a split with the separator gives back what was
    split, whatever the budget. *)
Lemma join_split_sep (sep : string) :
  sep <> "" ->
  forall (s : string) (b : str.budget) (skip : nat) (cur : string),
    (skip <= String.length s)%nat ->
    String.concat sep (str.split_sep sep b skip cur s) = cur +:+ text.drop skip s.
Proof.
  intros Hsep. induction s as [|c s IH]; intros b skip cur Hskip.
  - simpl in *. replace skip with O by lia. simpl. by rewrite str_app_nil_r.
  - simpl in Hskip. destruct skip as [|k].
    + cbn [str.split_sep].
      destruct (String.prefix sep (String c s)) eqn:Hp.
      * destruct (str.spend b) as [b'|]; [|reflexivity].
        rewrite concat_cons by apply split_sep_not_nil.
        pose proof (prefix_length _ _ Hp) as Hlen. simpl in Hlen.
        pose proof (prefix_split _ _ Hp) as Hs.
        destruct (String.length sep) as [|m] eqn:Hm; [by destruct sep|].
        rewrite drop_succ in Hs.
        rewrite IH by lia. rewrite str_app_nil_l.
        replace (S m - 1)%nat with m by lia.
        by rewrite <- Hs.
      * rewrite IH by lia. simpl. by rewrite snoc_app.
    + cbn [str.split_sep]. rewrite IH by lia. reflexivity.
Qed.

Lemma traverse_texts (items : list pyval) (parts : list string) :
  as_str <$> items = Some <$> parts ->
  traverse (fun v => match as_str v with
                     | Some t => Ok t
                     | None => Raise TypeError
                     end) items = Ok parts.
Proof.
  revert parts; induction items as [|v items IH]; intros [|p parts] H;
    simpl in H; try discriminate; [reflexivity|].
  injection H as Hv H. simpl. by rewrite Hv, (IH parts H).
Qed.

Lemma join_instances (sep : string) (frags : list lstr) :
  str.join sep (lstr.instances frags) = Ok (String.concat sep (content <$> frags)).
Proof.
  unfold str.join, lstr.instances. simpl.
  rewrite (traverse_texts _ (content <$> frags)); [reflexivity|].
  induction frags as [|f frags IH];
    [reflexivity | exact (f_equal (cons (Some (content f))) IH)].
Qed.

Lemma lstr_join_instances (self : lstr) (frags : list lstr) :
  content <$> lstr.join self (lstr.instances frags)
  = Ok (String.concat (content self) (content <$> frags)).
Proof.
  unfold lstr.join, str.join, lstr.instances. simpl.
  rewrite (traverse_texts _ (content <$> frags)); [reflexivity|].
  induction frags as [|f frags IH];
    [reflexivity | exact (f_equal (cons (Some (content f))) IH)].
Qed.

Lemma content_fragments (o : gset string) (parts : list string) :
  content <$> ((fun part => mk_lstr part None o) <$> parts) = parts.
Proof.
  induction parts as [|p parts IH]; [reflexivity | exact (f_equal (cons p) IH)].
Qed.

Lemma split_unbounded (a : lstr) (sep : string) :
  sep <> "" ->
  lstr.split a (PStr sep) (PInt (-1))
  = Ok ((fun part => mk_lstr part None (__origin_trace a))
          <$> str.split_sep sep str.Unbounded O "" (content a)).
Proof.
  intros Hsep. unfold lstr.split, lstr._split_helper, str.split. simpl.
  destruct sep; [contradiction | reflexivity].
Qed.

(** C5, as worded, fails for the empty separator: it is a plain string, and
    splitting on it raises the [ValueError] of the built-in split, so there
    are no fragments to join. *)
Lemma split_on_empty_separator :
  lstr.split (lstr.__new__ "a,b" None (lstr.Marker "x")) (PStr "") (PInt (-1))
  = Raise ValueError
  /\ ~ exists frags : list lstr,
         lstr.split (lstr.__new__ "a,b" None (lstr.Marker "x")) (PStr "") (PInt (-1))
         = Ok frags.
Proof. split; [reflexivity | intros [frags H]; discriminate H]. Qed.

(** C5, amended.  For an instance [a] whose trace is the one marker x and a
    plain separator that is not empty, [a.split(sep)] gives fragments that
    each have the trace x and no logits, and joining them with [sep], through
    the built-in [join] or through the [join] of the class, gives back the
    text of [a]. *)
Theorem split_join_round_trip (a : lstr) (sep : string) :
  sep <> "" ->
  __origin_trace a = {[ "x" ]} ->
  exists frags : list lstr,
    lstr.split a (PStr sep) (PInt (-1)) = Ok frags
    /\ lstr.call a "split" [PStr sep] [] = Ok (lstr.instances frags)
    /\ Forall (fun f => lstr._origin_trace f = {[ "x" ]} /\ lstr.logits f = None) frags
    /\ str.join sep (lstr.instances frags) = Ok (content a)
    /\ content <$> lstr.join (lstr.__new__ sep None lstr.NoOrigin) (lstr.instances frags)
       = Ok (content a).
Proof.
  intros Hsep Ha. eexists. split; [by apply split_unbounded|].
  assert (String.concat sep
            (content <$> ((fun part => mk_lstr part None (__origin_trace a))
                            <$> str.split_sep sep str.Unbounded O "" (content a)))
          = content a) as Hjoin.
  { rewrite content_fragments. by rewrite join_split_sep by (done || lia). }
  split; [|split; [|split]].
  - change (lstr.call a "split" [PStr sep] [])
      with (lstr.instances <$> lstr.split a (PStr sep) (PInt (-1))).
    by rewrite split_unbounded.
  - apply Forall_fmap, Forall_forall. intros part _. by split.
  - by rewrite join_instances, Hjoin.
  - rewrite lstr_join_instances. exact (f_equal Ok Hjoin).
Qed.

Lemma split_join_round_trip_witness :
  exists frags : list lstr,
    lstr.split (lstr.__new__ "a,b,,c" (Some [1#2]) (lstr.Marker "x")) (PStr ",") (PInt (-1))
    = Ok frags
    /\ lstr.call (lstr.__new__ "a,b,,c" (Some [1#2]) (lstr.Marker "x")) "split" [PStr ","] []
       = Ok (lstr.instances frags)
    /\ Forall (fun f => lstr._origin_trace f = {[ "x" ]} /\ lstr.logits f = None) frags
    /\ str.join "," (lstr.instances frags) = Ok "a,b,,c"
    /\ content <$> lstr.join (lstr.__new__ "," None lstr.NoOrigin) (lstr.instances frags)
       = Ok "a,b,,c".
Proof.
  apply (split_join_round_trip (lstr.__new__ "a,b,,c" (Some [1#2]) (lstr.Marker "x")) ",").
  - discriminate.
  - reflexivity.
Defined.

(** The fragments of the witness. *)
Example split_fragments :
  lstr.split (lstr.__new__ "a,b,,c" (Some [1#2]) (lstr.Marker "x")) (PStr ",") (PInt (-1))
  = Ok [mk_lstr "a" None {[ "x" ]}; mk_lstr "b" None {[ "x" ]};
        mk_lstr "" None {[ "x" ]}; mk_lstr "c" None {[ "x" ]}].
Proof. reflexivity. Qed.

(** ** Partition *)

Lemma find_Some (sub s : string) :
  forall p : nat,
    text.find sub s = Some p ->
    s = text.take p s +:+ sub +:+ text.drop (p + String.length sub) s.
Proof.
  induction s as [|c s IH]; intros p; cbn [text.find];
    destruct (String.prefix sub _) eqn:Hp; intros H; try discriminate H.
  - injection H as <-. exact (prefix_split _ _ Hp).
  - injection H as <-. exact (prefix_split _ _ Hp).
  - destruct (text.find sub s) as [q|] eqn:Hq; [|discriminate H].
    injection H as <-. simpl. rewrite str_app_cons. f_equal. by apply IH.
Qed.

Lemma find_bound (sub s : string) :
  forall p : nat,
    text.find sub s = Some p -> (p + String.length sub <= String.length s)%nat.
Proof.
  induction s as [|c s IH]; intros p; cbn [text.find];
    destruct (String.prefix sub _) eqn:Hp; intros H; try discriminate H.
  - injection H as <-. exact (prefix_length _ _ Hp).
  - injection H as <-. exact (prefix_length _ _ Hp).
  - destruct (text.find sub s) as [q|] eqn:Hq; [|discriminate H].
    injection H as <-. specialize (IH q eq_refl). simpl. lia.
Qed.

(** [find] gives the leftmost occurrence. *)
Lemma find_leftmost (sub s : string) :
  forall (p : nat) (l r : string),
    text.find sub s = Some p -> s = l +:+ sub +:+ r -> (p <= String.length l)%nat.
Proof.
  induction s as [|c s IH]; intros p l r; cbn [text.find];
    destruct (String.prefix sub _) eqn:Hp; intros H Hs; try discriminate H;
    try (injection H as <-; lia).
  destruct (text.find sub s) as [q|] eqn:Hq; [|discriminate H].
  injection H as <-. destruct l as [|d l].
  - rewrite str_app_nil_l in Hs. rewrite Hs, prefix_app in Hp. discriminate Hp.
  - rewrite str_app_cons in Hs. injection Hs as _ Hs.
    specialize (IH q l r eq_refl Hs). simpl. lia.
Qed.

Lemma find_None (sub s : string) : text.find sub s = None -> ~ substring_of sub s.
Proof.
  induction s as [|c s IH]; cbn [text.find];
    destruct (String.prefix sub _) eqn:Hp; intros H (l & r & Hs); try discriminate H.
  - destruct l; [|discriminate Hs]. rewrite str_app_nil_l in Hs.
    rewrite Hs, prefix_app in Hp. discriminate Hp.
  - destruct (text.find sub s) as [q|] eqn:Hq; [discriminate H|].
    destruct l as [|d l].
    + rewrite str_app_nil_l in Hs. rewrite Hs, prefix_app in Hp. discriminate Hp.
    + rewrite str_app_cons in Hs. injection Hs as _ Hs.
      apply (IH eq_refl). by exists l, r.
Qed.

Lemma find_occurs (sub s : string) :
  substring_of sub s -> exists p, text.find sub s = Some p.
Proof.
  intros H. destruct (text.find sub s) as [p|] eqn:Hp; [by exists p|].
  by destruct (find_None sub s Hp).
Qed.

Lemma rev_app_spec (s t : string) : String.rev_app s t = String.rev s +:+ t.
Proof.
  revert t; induction s as [|c s IH]; intros t; [reflexivity|].
  unfold String.rev. simpl. by rewrite (IH (String c t)), (IH (String c "")), str_app_assoc.
Qed.

Lemma rev_cons (c : ascii) (s : string) : String.rev (String c s) = String.rev s +:+ String c "".
Proof. unfold String.rev at 1. simpl. apply rev_app_spec. Qed.

Lemma rev_app_distr (s t : string) : String.rev (s +:+ t) = String.rev t +:+ String.rev s.
Proof.
  induction s as [|c s IH]; [by rewrite str_app_nil_l, str_app_nil_r|].
  by rewrite str_app_cons, !rev_cons, IH, str_app_assoc.
Qed.

Lemma rev_involutive (s : string) : String.rev (String.rev s) = s.
Proof.
  induction s as [|c s IH]; [reflexivity|].
  by rewrite rev_cons, rev_app_distr, IH.
Qed.

Lemma rev_length (s : string) : String.length (String.rev s) = String.length s.
Proof.
  induction s as [|c s IH]; [reflexivity|].
  rewrite rev_cons, str_length_app, IH. simpl. lia.
Qed.

Lemma substring_of_rev (sub s : string) :
  substring_of sub s -> substring_of (String.rev sub) (String.rev s).
Proof.
  intros (l & r & ->). exists (String.rev r), (String.rev l).
  by rewrite !rev_app_distr, str_app_assoc.
Qed.

Lemma rfind_None (sub s : string) : ~ substring_of sub s -> text.rfind sub s = None.
Proof.
  intros H. unfold text.rfind.
  destruct (text.find (String.rev sub) (String.rev s)) as [q|] eqn:Hq; [|reflexivity].
  destruct H. rewrite <- (rev_involutive sub), <- (rev_involutive s).
  apply substring_of_rev. exists (text.take q (String.rev s)). eexists.
  exact (find_Some _ _ _ Hq).
Qed.

Lemma take_length (n : nat) (s : string) :
  (n <= String.length s)%nat -> String.length (text.take n s) = n.
Proof.
  revert s; induction n as [|n IH]; intros [|c s] H; simpl in *; try lia.
  by rewrite IH by lia.
Qed.

(** [rfind] gives an occurrence, and the rightmost one. *)
Lemma rfind_Some (sub s : string) (p : nat) :
  text.rfind sub s = Some p ->
  s = text.take p s +:+ sub +:+ text.drop (p + String.length sub) s
  /\ (p + String.length sub <= String.length s)%nat
  /\ forall l r : string, s = l +:+ sub +:+ r -> (String.length l <= p)%nat.
Proof.
  unfold text.rfind. intros H.
  destruct (text.find (String.rev sub) (String.rev s)) as [q|] eqn:Hq; [|discriminate H].
  injection H as <-.
  pose proof (find_Some _ _ _ Hq) as Hrev.
  pose proof (find_bound _ _ _ Hq) as Hbound.
  rewrite rev_length in Hrev, Hbound. rewrite rev_length in Hbound.
  set (L := text.take q (String.rev s)) in *.
  set (R := text.drop (q + String.length sub) (String.rev s)) in *.
  assert (s = String.rev R +:+ sub +:+ String.rev L) as Hs.
  { rewrite <- (rev_involutive s), Hrev, !rev_app_distr, rev_involutive.
    by rewrite str_app_assoc. }
  assert (String.length (String.rev R) = String.length s - q - String.length sub)%nat as HR.
  { assert (String.length L = q) as HL
      by (subst L; apply take_length; rewrite rev_length; lia).
    apply (f_equal String.length) in Hrev.
    rewrite !str_length_app, !rev_length in Hrev.
    rewrite rev_length. lia. }
  split; [|split; [lia|]].
  - rewrite <- HR. rewrite Hs at 1 2 3.
    rewrite str_take_app. f_equal. f_equal.
    rewrite <- (str_length_app (String.rev R) sub), <- str_app_assoc.
    by rewrite str_drop_app.
  - intros l r Hlr.
    assert (String.rev s = String.rev r +:+ String.rev sub +:+ String.rev l) as Hrev'
      by (by rewrite Hlr, !rev_app_distr, str_app_assoc).
    pose proof (find_leftmost _ _ _ _ _ Hq Hrev') as Hle. rewrite rev_length in Hle.
    apply (f_equal String.length) in Hlr. rewrite !str_length_app in Hlr. lia.
Qed.

Lemma sep_trace (o : gset string) (sep : pyval) :
  (if isinstance sep TLstr then o ∪ origin_trace_of sep else o) = o ∪ origin_trace_of sep.
Proof.
  destruct (isinstance sep TLstr) eqn:E; [reflexivity|].
  by rewrite (origin_trace_of_plain sep E), (right_id_L ∅ (∪)).
Qed.

Lemma partition_helper_spec (a : lstr) (method : pyval -> result (string * string * string))
    (sep : pyval) :
  lstr._partition_helper a method sep
  = wrap3 (__origin_trace a ∪ origin_trace_of sep) <$> method sep.
Proof.
  unfold lstr._partition_helper.
  destruct (method sep) as [[[x y] z]|e|]; try reflexivity.
  simpl. unfold wrap3, lstr.__new__. simpl. by rewrite sep_trace.
Qed.

(** C7, as worded, fails for the empty separator: [partition] and
    [rpartition] raise the [ValueError] of the built-in partition and return
    no triple. *)
Lemma partition_on_empty_separator :
  lstr.partition (lstr.__new__ "HelloWorld" None (lstr.Marker "m1")) (PStr "")
  = Raise ValueError
  /\ lstr.rpartition (lstr.__new__ "HelloWorld" None (lstr.Marker "m1")) (PStr "")
     = Raise ValueError.
Proof. split; reflexivity. Qed.

(** C7, amended.  For a separator [sep] that is a string with a text [p]
    that is not empty, plain or an instance of the class, [partition] and
    [rpartition] return what the ordinary partition of the text returns,
    each of the three parts as an instance with no logits and with one and
    the same trace: the trace of [a], united with the trace of [sep] when
    [sep] is an instance of the class.  When [p] does not occur in the text
    the parts are (text, empty, empty) for [partition] and (empty, empty,
    text) for [rpartition].  When it occurs the parts are (before, [p],
    after) with before + [p] + after the text, at the leftmost occurrence
    for [partition] and at the rightmost for [rpartition]. *)
Theorem partition_wraps_three_parts (a : lstr) (sep : pyval) (p : string) :
  as_str sep = Some p ->
  p <> "" ->
  let o := __origin_trace a ∪ origin_trace_of sep in
  (exists t t' : string * string * string,
     str.partition (content a) sep = Ok t
     /\ str.rpartition (content a) sep = Ok t'
     /\ lstr.partition a sep = Ok (wrap3 o t)
     /\ lstr.rpartition a sep = Ok (wrap3 o t'))
  /\ (isinstance sep TLstr = false -> o = __origin_trace a)
  /\ (~ substring_of p (content a) ->
        lstr.partition a sep = Ok (wrap3 o (content a, "", ""))
        /\ lstr.rpartition a sep = Ok (wrap3 o ("", "", content a)))
  /\ (substring_of p (content a) ->
        exists l r l' r' : string,
          lstr.partition a sep = Ok (wrap3 o (l, p, r))
          /\ lstr.rpartition a sep = Ok (wrap3 o (l', p, r'))
          /\ content a = l +:+ p +:+ r
          /\ content a = l' +:+ p +:+ r'
          /\ forall l0 r0 : string,
               content a = l0 +:+ p +:+ r0 ->
               (String.length l <= String.length l0 <= String.length l')%nat).
Proof.
  intros Hsep Hp o.
  assert (lstr.partition a sep = wrap3 o <$> str.partition_text (content a) p) as Hpart
    by (unfold lstr.partition; rewrite partition_helper_spec; unfold str.partition;
        by rewrite Hsep).
  assert (lstr.rpartition a sep = wrap3 o <$> str.rpartition_text (content a) p) as Hrpart
    by (unfold lstr.rpartition; rewrite partition_helper_spec; unfold str.rpartition;
        by rewrite Hsep).
  rewrite Hpart, Hrpart. unfold str.partition, str.rpartition. rewrite Hsep.
  unfold str.partition_text, str.rpartition_text.
  rewrite (bool_decide_eq_false_2 _ Hp).
  split; [|split; [|split]].
  - destruct (text.find p (content a)), (text.rfind p (content a)); by eexists _, _.
  - intros E. subst o. by rewrite (origin_trace_of_plain sep E), (right_id_L ∅ (∪)).
  - intros Hno. rewrite (rfind_None _ _ Hno).
    destruct (text.find p (content a)) as [q|] eqn:Hq; [|by split].
    destruct Hno. eexists _, _. exact (find_Some _ _ _ Hq).
  - intros Hocc. destruct (find_occurs _ _ Hocc) as [q Hq]. rewrite Hq.
    destruct (text.rfind p (content a)) as [q'|] eqn:Hq'.
    + destruct (rfind_Some _ _ _ Hq') as (Hs' & Hbound' & Hright).
      eexists _, _, _, _. split; [reflexivity|]. split; [reflexivity|].
      split; [exact (find_Some _ _ _ Hq)|]. split; [exact Hs'|].
      intros l0 r0 Hs0. split.
      * rewrite take_length by (pose proof (find_bound _ _ _ Hq); lia).
        exact (find_leftmost _ _ _ _ _ Hq Hs0).
      * rewrite take_length by lia. exact (Hright l0 r0 Hs0).
    + unfold text.rfind in Hq'.
      destruct (substring_of_rev _ _ Hocc) as (l & r & Hrev).
      destruct (find_occurs (String.rev p) (String.rev (content a))) as [q' Hq''];
        [by exists l, r|].
      rewrite Hq'' in Hq'. discriminate Hq'.
Qed.

Lemma partition_wraps_three_parts_witness :
  (exists t t' : string * string * string,
     str.partition "HelloWorld" (PStr "o") = Ok t
     /\ str.rpartition "HelloWorld" (PStr "o") = Ok t'
     /\ lstr.partition (mk_lstr "HelloWorld" None ({[ "m1" ]} ∪ {[ "m2" ]})) (PStr "o")
        = Ok (wrap3 ({[ "m1" ]} ∪ {[ "m2" ]} ∪ ∅) t)
     /\ lstr.rpartition (mk_lstr "HelloWorld" None ({[ "m1" ]} ∪ {[ "m2" ]})) (PStr "o")
        = Ok (wrap3 ({[ "m1" ]} ∪ {[ "m2" ]} ∪ ∅) t'))
  /\ ({[ "m1" ]} ∪ {[ "m2" ]} ∪ ∅ = ({[ "m1" ]} ∪ {[ "m2" ]} : gset string)).
Proof.
  pose proof (partition_wraps_three_parts
                (mk_lstr "HelloWorld" None ({[ "m1" ]} ∪ {[ "m2" ]})) (PStr "o") "o"
                eq_refl ltac:(discriminate)) as (Hparts & Hplain & _).
  split; [exact Hparts | exact (Hplain eq_refl)].
Defined.

(** The scenario of the specification: [partition] of "HelloWorld" at "o",
    and [rpartition], which takes the last "o". *)
Example partition_hello_world :
  let c := mk_lstr "HelloWorld" None ({[ "m1" ]} ∪ {[ "m2" ]}) in
  let part := fun t => mk_lstr t None ({[ "m1" ]} ∪ {[ "m2" ]}) in
  lstr.partition c (PStr "o") = Ok (part "Hell", part "o", part "World")
  /\ lstr.rpartition c (PStr "o") = Ok (part "HelloW", part "o", part "rld")
  /\ lstr.partition c (PStr "x") = Ok (part "HelloWorld", part "", part "")
  /\ lstr.rpartition c (PStr "x") = Ok (part "", part "", part "HelloWorld").
Proof. repeat split. Qed.

(** ** How the methods take their arguments *)

(** Case analysis on the condition of the first conditional of the goal. *)
Ltac case_cond :=
  match goal with
  | |- context [if ?b then _ else _] => destruct b
  end.

Lemma bind_args_outcome (params : list (string * option pyval)) :
  forall (args : list pyval) (kwargs : list (string * pyval)),
    (exists vs, bind_args params args kwargs = Ok vs)
    \/ bind_args params args kwargs = Raise TypeError.
Proof.
  induction params as [|[name dflt] params IH]; intros args kwargs; simpl.
  - destruct args, kwargs; eauto.
  - destruct args as [|a args].
    + destruct (List.find _ kwargs) as [kv|].
      * destruct (IH [] (List.filter (fun kv => negb (String.eqb (fst kv) name)) kwargs))
          as [[vs ->]| ->]; simpl; eauto.
      * destruct dflt as [d|]; [|by right].
        destruct (IH [] kwargs) as [[vs ->]| ->]; simpl; eauto.
    + destruct (List.existsb _ kwargs); [by right|].
      destruct (IH args kwargs) as [[vs ->]| ->]; simpl; eauto.
Qed.

Lemma str_unary_rejects (g : pyval -> result pyval) (args : list pyval)
    (kwargs : list (string * pyval)) :
  ~ one_positional args kwargs -> str.unary g args kwargs = Raise TypeError.
Proof.
  intros H. unfold str.unary.
  destruct args as [|x [|y args]]; try reflexivity.
  destruct kwargs; [|reflexivity].
  destruct H. split; [by exists x | reflexivity].
Qed.

Lemma passed_on_one_positional (name : string) (args : list pyval)
    (kwargs : list (string * pyval)) :
  one_positional (passed_on name args) kwargs -> one_positional args kwargs.
Proof.
  unfold passed_on. destruct (String.eqb name "__mod__"); [|done].
  destruct args as [|[] [|y args]]; try done.
  intros [_ ->]. split; [by eexists | reflexivity].
Qed.

(** A method of the class with one parameter: either the call binds one
    value [x], and then it is the one positional argument or the plain
    string method rejects the call, or the binding fails. *)
Lemma unary_cases (param : string) (args : list pyval) (kwargs : list (string * pyval)) :
  (exists x, (forall f, lstr.unary param f args kwargs = f x)
             /\ ((args = [x] /\ kwargs = []) \/ ~ one_positional args kwargs))
  \/ ((forall f, lstr.unary param f args kwargs = Raise TypeError)
      /\ ~ one_positional args kwargs).
Proof.
  unfold lstr.unary. destruct args as [|x [|y args]]; simpl.
  - assert (~ one_positional [] kwargs) as Hno by (by intros [[x [=]] _]).
    destruct (List.find _ kwargs) as [kv|]; [|by right].
    destruct (List.filter _ kwargs); [|by right].
    left. exists (snd kv). split; [reflexivity | by right].
  - destruct kwargs as [|kv kwargs].
    + left. exists x. split; [reflexivity | by left].
    + assert (~ one_positional [x] (kv :: kwargs)) as Hno by (by intros [_ [=]]).
      right. split; [|exact Hno]. intros f.
      simpl. by case_cond.
  - assert (~ one_positional (x :: y :: args) kwargs) as Hno by (by intros [[z [=]] _]).
    right. split; [|exact Hno]. intros f.
    case_cond; [reflexivity|]. by destruct kwargs.
Qed.

Lemma splitter_cases (args : list pyval) (kwargs : list (string * pyval)) :
  (exists sep maxsplit, forall f, str.splitter f args kwargs = f sep maxsplit)
  \/ (forall f, str.splitter f args kwargs = Raise TypeError).
Proof.
  unfold str.splitter.
  destruct (bind_args_outcome [("sep", Some PNone); ("maxsplit", Some (PInt (-1)))]
              args kwargs) as [[vs ->]| ->]; [|by right].
  destruct vs as [|a [|b [|c vs]]]; try (by right). left. by exists a, b.
Qed.

Lemma liner_cases (args : list pyval) (kwargs : list (string * pyval)) :
  (exists keepends, forall f, str.liner f args kwargs = (k ← str.truthy keepends; f k))
  \/ (forall f, str.liner f args kwargs = Raise TypeError).
Proof.
  unfold str.liner.
  destruct (bind_args_outcome [("keepends", Some (PBool false))] args kwargs)
    as [[vs ->]| ->]; [|by right].
  destruct vs as [|a [|b vs]]; try (by right). left. by exists a.
Qed.

Lemma nullary_cases (r : result pyval) (args : list pyval) (kwargs : list (string * pyval)) :
  str.nullary r args kwargs = r \/ str.nullary r args kwargs = Raise TypeError.
Proof. unfold str.nullary. destruct args, kwargs; auto. Qed.

(** ** What the methods of the class give back *)

Lemma add_outcome (self : lstr) (x : pyval) :
  (exists l, lstr.__add__ self x = Ok (PLstr l)) \/ lstr.__add__ self x = Ok PNotImplemented.
Proof. destruct x; simpl; eauto. Qed.

Lemma str_mul_outcome (s : string) (x : pyval) :
  supports_index x = true ->
  (exists t, str.__mul__ s x = Ok t) \/ str.__mul__ s x = Raise OverflowError.
Proof.
  unfold supports_index, str.__mul__. destruct (as_index x) as [k|]; [intros _ | discriminate].
  unfold as_ssize_t. case_cond; [by right|]. cbn [mbind result_bind].
  repeat (case_cond; eauto).
Qed.

Lemma mul_outcome (self : lstr) (x : pyval) :
  (exists l, lstr.__mul__ self x = Ok (PLstr l)) \/ lstr.__mul__ self x = Ok PNotImplemented
  \/ (lstr.__mul__ self x = Raise OverflowError
      /\ str.__mul__ (content self) x = Raise OverflowError).
Proof.
  unfold lstr.__mul__. destruct (supports_index x) eqn:Hx; [|by right; left].
  destruct (str_mul_outcome (content self) x Hx) as [[t ->]| ->]; simpl; eauto.
Qed.

Lemma mod_spec (self : lstr) (x : pyval) :
  exists o : gset string,
    lstr.__mod__ self x
    = (fun t => mk_lstr t None o)
        <$> str.__mod__ (content self)
              (match x with
               | PTuple items => PTuple ((fun o => PStr (py_str o)) <$> items)
               | _ => x
               end).
Proof.
  destruct x; eexists; unfold lstr.__mod__;
    match goal with
    | |- context [str.__mod__ ?s ?v] => destruct (str.__mod__ s v)
    end; reflexivity.
Qed.

Lemma join_texts (s : string) (items : list pyval) :
  str.join s (PList ((fun item => PStr (py_str item)) <$> items))
  = Ok (String.concat s (py_str <$> items)).
Proof.
  unfold str.join. simpl.
  rewrite (traverse_texts _ (py_str <$> items)); [reflexivity|].
  induction items as [|v items IH];
    [reflexivity | exact (f_equal (cons (Some (py_str v))) IH)].
Qed.

Lemma join_outcome (self : lstr) (x : pyval) :
  (exists l, lstr.join self x = Ok l)
  \/ (exists e, lstr.join self x = Raise e /\ str.join (content self) x = Raise e).
Proof.
  unfold lstr.join.
  destruct (iterate x) as [items|e|] eqn:E.
  - left. cbn [mbind result_bind]. rewrite join_texts. cbn [mbind result_bind]. eauto.
  - right. exists e. unfold str.join. rewrite E. split; reflexivity.
  - by destruct x.
Qed.

Lemma split_helper_spec (self : lstr) (method : pyval -> pyval -> result (list string))
    (sep maxsplit : pyval) :
  lstr._split_helper self method sep maxsplit
  = (fun parts : list string =>
       (fun part => mk_lstr part None (__origin_trace self ∪ origin_trace_of sep)) <$> parts)
      <$> method sep maxsplit.
Proof.
  unfold lstr._split_helper.
  destruct (method sep maxsplit) as [parts|e|]; try reflexivity.
  simpl. unfold lstr.__new__. by rewrite sep_trace.
Qed.

Lemma no_bare_instances (parts : list lstr) : no_bare_text (lstr.instances parts) = true.
Proof. unfold lstr.instances. simpl. by induction parts. Qed.

Lemma no_bare_triple (t : lstr * lstr * lstr) : no_bare_text (lstr.triple t) = true.
Proof. by destruct t as [[x y] z]. Qed.

Lemma truthy_outcome (v : pyval) :
  (exists b, str.truthy v = Ok b) \/ str.truthy v = Unmodelled.
Proof. destruct v; simpl; try case_cond; eauto. Qed.

(** From [H : f <$> r = Ok v]: [r] is a value and [v] is its image. *)
Ltac invert_ok H :=
  try match type of H with
      | (_ <$> ?r) = _ => destruct r; [|discriminate H..]
      end;
  simpl in H; try discriminate H; injection H as <-.

(** The inherited methods written out give text, a boolean, an integer or
    a tuple that holds text. *)
Lemma method_outcome (name s : string) (f : str.callable)
    (args : list pyval) (kwargs : list (string * pyval)) (v : pyval) :
  str.method name s = Some f ->
  f args kwargs = Ok v ->
  (exists t, v = PStr t) \/ (exists b, v = PBool b) \/ (exists n, v = PInt n)
  \/ (exists t, v = PTuple [PStr t]).
Proof.
  unfold str.method.
  repeat (case_cond; [intros [= <-] H|]); [..|discriminate].
  - destruct (nullary_cases (PStr <$> str.upper s) args kwargs) as [E|E];
      rewrite E in H; [|discriminate H].
    destruct (str.upper s); [|discriminate H..]. injection H as <-. eauto.
  - destruct (nullary_cases (PStr <$> str.lower s) args kwargs) as [E|E];
      rewrite E in H; [|discriminate H].
    destruct (str.lower s); [|discriminate H..]. injection H as <-. eauto.
  - destruct args as [|x [|y args]], kwargs; try discriminate H; invert_ok H; eauto.
  - destruct args as [|x [|y [|z [|w args]]]], kwargs; try discriminate H;
      invert_ok H; eauto.
  - destruct args as [|x [|y args]], kwargs; try discriminate H; invert_ok H; eauto.
  - destruct (nullary_cases (Ok (PInt (Z.of_nat (String.length s)))) args kwargs) as [E|E];
      rewrite E in H; [|discriminate H].
    injection H as <-. eauto.
  - destruct (nullary_cases (Ok (PTuple [PStr s])) args kwargs) as [E|E];
      rewrite E in H; [|discriminate H].
    injection H as <-. eauto 6.
Qed.

(** What a call of a method does, by the name of the method. *)
Lemma call_cases (self : lstr) (name : string) (args : list pyval)
    (kwargs : list (string * pyval)) :
  lstr.call self name args kwargs =
  if List.existsb (String.eqb name) ["logits"; "_logits"; "_origin_trace"; "_lstr__origin_trace"]
  then Raise TypeError
  else if String.eqb name "__class__" then Unmodelled
  else match lstr.bound self name with
       | Some f => f args kwargs
       | None =>
           if List.existsb (String.eqb name) lstr.__dict__ then Unmodelled
           else match str.method name (content self) with
                | Some f => lstr.wrapped self f args kwargs
                | None => Unmodelled
                end
       end.
Proof.
  unfold lstr.call, lstr.__getattribute__, lstr.object_getattribute, lstr.bound.
  cbn [List.existsb lstr.__dict__].
  repeat match goal with
         | |- context [String.eqb name ?lit] =>
             destruct (String.eqb_spec name lit) as [->|_]; [reflexivity|]
         end.
  cbn [orb].
  destruct (str.method name (content self)); reflexivity.
Qed.

(** From [Hv : f args kwargs = r] for a bound method [f]: the arguments are
    bound and [Hv] speaks of the body of the method, or the binding failed. *)
Ltac bind_in Hv :=
  lazymatch type of Hv with
  | lstr.unary ?p _ ?args ?kwargs = _ =>
      let x := fresh "x" in
      let Hf := fresh "Hf" in
      let Hone := fresh "Hone" in
      destruct (unary_cases p args kwargs) as [(x & Hf & Hone) | [Hf Hone]];
      rewrite Hf in Hv; cbv beta in Hv
  | str.splitter _ ?args ?kwargs = _ =>
      let sep := fresh "sep" in
      let maxsplit := fresh "maxsplit" in
      let Hf := fresh "Hf" in
      destruct (splitter_cases args kwargs) as [(sep & maxsplit & Hf) | Hf];
      rewrite Hf in Hv; cbv beta in Hv
  | str.liner _ ?args ?kwargs = _ =>
      let keepends := fresh "keepends" in
      let Hf := fresh "Hf" in
      destruct (liner_cases args kwargs) as [(keepends & Hf) | Hf];
      rewrite Hf in Hv; cbv beta in Hv
  | str.nullary ?r ?args ?kwargs = _ =>
      let Hf := fresh "Hf" in
      destruct (nullary_cases r args kwargs) as [Hf | Hf];
      rewrite Hf in Hv
  end.

(** A method of the class, [__repr__] apart, returns no bare text. *)
Lemma bound_keeps_provenance (self : lstr) (name : string) (f : str.callable)
    (args : list pyval) (kwargs : list (string * pyval)) (v : pyval) :
  lstr.bound self name = Some f ->
  String.eqb name "__repr__" = false ->
  f args kwargs = Ok v ->
  no_bare_text v = true.
Proof.
  unfold lstr.bound.
  repeat match goal with
         | |- context [String.eqb name ?lit] =>
             destruct (String.eqb_spec name lit) as [->|_];
             [intros [= <-] Hname Hv; try discriminate Hname;
              bind_in Hv; try discriminate Hv |]
         end; try discriminate.
  - destruct (add_outcome self x) as [[l E]|E]; rewrite E in Hv;
      injection Hv as <-; reflexivity.
  - by invert_ok Hv.
  - destruct (mul_outcome self x) as [[l E]|[E|[E _]]]; rewrite E in Hv;
      try discriminate Hv; injection Hv as <-; reflexivity.
  - unfold lstr.__rmul__ in Hv.
    destruct (mul_outcome self x) as [[l E]|[E|[E _]]]; rewrite E in Hv;
      try discriminate Hv; injection Hv as <-; reflexivity.
  - by invert_ok Hv.
  - by invert_ok Hv.
  - invert_ok Hv. apply no_bare_instances.
  - invert_ok Hv. apply no_bare_instances.
  - destruct (str.truthy keepends); try discriminate Hv.
    injection Hv as <-. apply no_bare_instances.
  - invert_ok Hv. apply no_bare_triple.
  - invert_ok Hv. apply no_bare_triple.
Qed.

(** ** No text without provenance *)

(** C4, as worded, fails: with a plain string on the left of [+] the
    concatenation is the one of [str], the class having no [__radd__], and
    the result is a bare string. *)
Lemma plain_left_operand_gives_bare_text :
  run (lstr.__new__ "World" None (lstr.Marker "m1")) (Radd (PStr "Hello"))
  = Ok (PStr "HelloWorld")
  /\ no_bare_text (PStr "HelloWorld") = false
  /\ ~ (forall (self : lstr) (op : operation) (v : pyval),
          run self op = Ok v -> no_bare_text v = true).
Proof.
  split; [reflexivity|]. split; [reflexivity|].
  intros H.
  specialize (H (lstr.__new__ "World" None (lstr.Marker "m1")) (Radd (PStr "Hello"))
                (PStr "HelloWorld") eq_refl).
  discriminate H.
Qed.

(** The methods of the class that return text are names of the class body,
    and [__repr__] is not one of them. *)
Lemma text_methods_in_dict (name : string) :
  List.existsb (String.eqb name) text_methods = true ->
  List.existsb (String.eqb name) lstr.__dict__ = true /\ String.eqb name "__repr__" = false.
Proof.
  unfold text_methods. cbn [List.existsb].
  repeat match goal with
         | |- context [String.eqb name ?lit] =>
             destruct (String.eqb_spec name lit) as [->|_]; [by intros _|]
         end.
  discriminate.
Qed.

(** C4, amended.  Every operation that one of the text methods of the class
    body evaluates returns instances of the class, never a plain string,
    alone or in a list or tuple: [+], [%] and [*] with the instance on the
    left, [*] with the instance on the right, [+] and [%] between two
    instances, indexing and slicing, [join], [split], [rsplit],
    [splitlines], [partition] and [rpartition].  A method inherited from
    [str] runs behind the wrapper, which hands back an instance when the
    result of the method is itself a string and any other result as it is:
    the result is never a plain string, but text inside a container stays
    plain, as in the tuple that [__getnewargs__] returns.  [__repr__] is
    plain text, and [+] and [%] under a plain left operand are not evaluated
    by the class. *)
Theorem class_operations_keep_provenance (self : lstr) :
  (forall (op : operation) (v : pyval),
     by_class op = true -> run self op = Ok v -> no_bare_text v = true)
  /\ (forall (attr : str.callable) (args : list pyval) (kwargs : list (string * pyval))
             (v : pyval),
        lstr.wrapped self attr args kwargs = Ok v ->
        (exists l, v = PLstr l) \/ (isinstance v TStr = false /\ attr args kwargs = Ok v))
  /\ lstr.call self "__getnewargs__" [] [] = Ok (PTuple [PStr (content self)])
  /\ no_bare_text (PTuple [PStr (content self)]) = false.
Proof.
  split; [|split; [|split; reflexivity]].
  - intros op v.
    destruct op as [other|other|other|other|other|other|key|name args kwargs|];
      simpl; intros Hop Hv; [..|discriminate Hop].
    + unfold operator.settle in Hv.
      destruct (add_outcome self other) as [[l E]|E]; rewrite E in Hv;
        [injection Hv as <-; reflexivity | discriminate Hv].
    + destruct other; try discriminate Hop; simpl in Hv; injection Hv as <-; reflexivity.
    + by invert_ok Hv.
    + destruct other; try discriminate Hop; simpl in Hv; by invert_ok Hv.
    + unfold operator.settle in Hv.
      destruct (mul_outcome self other) as [[l E]|[E|[E _]]]; rewrite E in Hv;
        [injection Hv as <-; reflexivity | discriminate Hv..].
    + assert (operator.settle (lstr.__mul__ self other) = Ok v \/
              (exists b, as_lstr other = Some b
                         /\ operator.settle (lstr.__mul__ b (PLstr self)) = Ok v)) as [H|(b & _ & H)]
        by (destruct other; simpl in Hv; eauto).
      * unfold operator.settle in H.
        destruct (mul_outcome self other) as [[l E]|[E|[E _]]]; rewrite E in H;
          [injection H as <-; reflexivity | discriminate H..].
      * discriminate H.
    + by invert_ok Hv.
    + destruct (text_methods_in_dict name Hop) as [Hdict Hrepr].
      rewrite call_cases in Hv.
      destruct (List.existsb _ _); [discriminate Hv|].
      destruct (String.eqb name "__class__"); [discriminate Hv|].
      destruct (lstr.bound self name) as [f|] eqn:Hf.
      * exact (bound_keeps_provenance self name f args kwargs v Hf Hrepr Hv).
      * rewrite Hdict in Hv. discriminate Hv.
  - intros attr args kwargs v. rewrite wrapped_spec.
    destruct (attr args kwargs) as [r| |]; try discriminate.
    destruct (as_str r) as [t|] eqn:Hr; intros [= <-]; [by left; eexists|].
    right. split; [by destruct r | reflexivity].
Qed.

Lemma class_operations_keep_provenance_witness :
  no_bare_text (PList [PLstr (mk_lstr "a" None {[ "m1" ]}); PLstr (mk_lstr "b" None {[ "m1" ]})])
  = true
  /\ ((exists l, PLstr (mk_lstr "AB" None ({[ "m1" ]} ∪ origins_of [] ∪ origins_of [])) = PLstr l)
      \/ (isinstance (PLstr (mk_lstr "AB" None ({[ "m1" ]} ∪ origins_of [] ∪ origins_of []))) TStr
          = false
          /\ str.nullary (PStr <$> str.upper "ab") [] []
             = Ok (PLstr (mk_lstr "AB" None ({[ "m1" ]} ∪ origins_of [] ∪ origins_of []))))).
Proof.
  pose proof (class_operations_keep_provenance
                (lstr.__new__ "a b" (Some [1#2]) (lstr.Marker "m1"))) as (Hop & _).
  pose proof (class_operations_keep_provenance
                (lstr.__new__ "ab" (Some [1#2]) (lstr.Marker "m1"))) as (_ & Hwrap & _).
  split.
  - apply (Hop (Call "split" [] [])); reflexivity.
  - apply (Hwrap (str.nullary (PStr <$> str.upper "ab")) [] []). reflexivity.
Defined.

(** The reflected [*] keeps the provenance; the reflected [%], [__repr__]
    and the iteration give plain text. *)
Example either_side :
  let a := lstr.__new__ "ab" None (lstr.Marker "m1") in
  run a (Rmul (PInt 2)) = Ok (PLstr (mk_lstr "abab" None {[ "m1" ]}))
  /\ run a (Rmod (PStr "<%s>")) = Ok (PStr "<ab>")
  /\ run a (Call "__repr__" [] []) = Ok (PStr "'ab'")
  /\ run a Iterate = Ok (PList [PStr "a"; PStr "b"]).
Proof. repeat split. Qed.

(** ** Failures *)

Lemma passed_on_other (name : string) (args : list pyval) :
  String.eqb name "__mod__" = false -> passed_on name args = args.
Proof. unfold passed_on. by intros ->. Qed.

Lemma str_call_overridden (s name : string) (g : str.callable)
    (args : list pyval) (kwargs : list (string * pyval)) :
  str.overridden name s = Some g -> str.call s name args kwargs = g args kwargs.
Proof. unfold str.call. by intros ->. Qed.

(** The plain-string method rejects a call that is not one positional
    argument. *)
Ltac rejected Hone :=
  exists TypeError; apply str_unary_rejects;
  first [exact Hone
        | intros Hp; apply Hone; exact (passed_on_one_positional _ _ _ Hp)].

(** A failure of a method of the class is a failure of the method of [str]
    with the same name on the arguments passed on. *)
Lemma bound_failure (self : lstr) (name : string) (f : str.callable)
    (args : list pyval) (kwargs : list (string * pyval)) (e : exn) :
  lstr.bound self name = Some f ->
  f args kwargs = Raise e ->
  exists e', str.call (content self) name (passed_on name args) kwargs = Raise e'.
Proof.
  unfold lstr.bound.
  repeat match goal with
         | |- context [String.eqb name ?lit] =>
             destruct (String.eqb_spec name lit) as [->|_];
             [intros [= <-] Hv;
              erewrite str_call_overridden by reflexivity;
              rewrite ?passed_on_other by reflexivity;
              bind_in Hv |]
         end; try discriminate.
  - destruct (add_outcome self x) as [[l E]|E]; rewrite E in Hv; discriminate Hv.
  - rejected Hone.
  - destruct Hone as [[-> ->]|Hone]; [|rejected Hone].
    destruct (mod_spec self x) as [o E]. rewrite E in Hv.
    assert (passed_on "__mod__" [x]
            = [match x with
               | PTuple items => PTuple ((fun o => PStr (py_str o)) <$> items)
               | _ => x
               end]) as -> by (by destruct x).
    unfold str.unary.
    destruct (str.__mod__ _ _) as [t|e0|]; try discriminate Hv. by exists e0.
  - rejected Hone.
  - destruct (mul_outcome self x) as [[l E]|[E|[E E']]]; rewrite E in Hv;
      try discriminate Hv.
    destruct Hone as [[-> ->]|Hone]; [|rejected Hone].
    exists OverflowError. unfold str.unary. by rewrite E'.
  - rejected Hone.
  - unfold lstr.__rmul__ in Hv.
    destruct (mul_outcome self x) as [[l E]|[E|[E E']]]; rewrite E in Hv;
      try discriminate Hv.
    destruct Hone as [[-> ->]|Hone]; [|rejected Hone].
    exists OverflowError. unfold str.unary. by rewrite E'.
  - rejected Hone.
  - destruct Hone as [[-> ->]|Hone]; [|rejected Hone].
    unfold lstr.__getitem__ in Hv. unfold str.unary.
    destruct (str.__getitem__ _ _) as [t|e0|]; try discriminate Hv. by exists e0.
  - rejected Hone.
  - exists TypeError. unfold str.nullary in *. by destruct args, kwargs.
  - destruct Hone as [[-> ->]|Hone]; [|rejected Hone].
    destruct (join_outcome self x) as [[l E]|(e0 & E & E')]; rewrite E in Hv;
      [discriminate Hv|].
    exists e0. unfold str.unary. by rewrite E'.
  - rejected Hone.
  - unfold lstr.split in Hv. rewrite split_helper_spec in Hv. rewrite Hf.
    destruct (str.split _ _ _) as [t|e0|]; try discriminate Hv. by exists e0.
  - exists TypeError. by rewrite Hf.
  - unfold lstr.rsplit in Hv. rewrite split_helper_spec in Hv. rewrite Hf.
    destruct (str.rsplit _ _ _) as [t|e0|]; try discriminate Hv. by exists e0.
  - exists TypeError. by rewrite Hf.
  - destruct (truthy_outcome keepends) as [[b E]|E]; rewrite E in Hv; discriminate Hv.
  - exists TypeError. by rewrite Hf.
  - destruct Hone as [[-> ->]|Hone]; [|rejected Hone].
    unfold lstr.partition in Hv. rewrite partition_helper_spec in Hv. unfold str.unary.
    destruct (str.partition _ _) as [t|e0|]; try discriminate Hv. by exists e0.
  - rejected Hone.
  - destruct Hone as [[-> ->]|Hone]; [|rejected Hone].
    unfold lstr.rpartition in Hv. rewrite partition_helper_spec in Hv. unfold str.unary.
    destruct (str.rpartition _ _) as [t|e0|]; try discriminate Hv. by exists e0.
  - rejected Hone.
Qed.

(** A name that is no attribute of the instance and no method of the class
    body reaches the same inherited method on a plain string. *)
Lemma str_call_inherited (self : lstr) (name : string) (args : list pyval)
    (kwargs : list (string * pyval)) :
  List.existsb (String.eqb name) ["logits"; "_logits"; "_origin_trace"; "_lstr__origin_trace"]
  = false ->
  lstr.bound self name = None ->
  List.existsb (String.eqb name) lstr.__dict__ = false ->
  str.call (content self) name (passed_on name args) kwargs
  = match str.method name (content self) with
    | Some f => f args kwargs
    | None => Unmodelled
    end.
Proof.
  unfold str.call, str.overridden, str.lstr_only, passed_on, lstr.bound.
  cbn [List.existsb lstr.__dict__].
  repeat match goal with
         | |- context [String.eqb name ?lit] =>
             destruct (String.eqb_spec name lit) as [->|_];
             [first [ by (intros H1 H2 H3; vm_compute in H1; discriminate H1)
                    | by (intros H1 H2 H3; discriminate H2)
                    | by (intros H1 H2 H3; vm_compute in H3; discriminate H3)
                    | reflexivity ] |]
         end.
  reflexivity.
Qed.

Lemma instance_attribute (s name : string) (args : list pyval)
    (kwargs : list (string * pyval)) :
  List.existsb (String.eqb name) ["logits"; "_logits"; "_origin_trace"; "_lstr__origin_trace"]
  = true ->
  str.call s name args kwargs = Raise AttributeError.
Proof.
  cbn [List.existsb].
  repeat match goal with
         | |- context [String.eqb name ?lit] =>
             destruct (String.eqb_spec name lit) as [->|_]; [reflexivity|]
         end.
  discriminate.
Qed.

(** ** Operands that are not supported, and failures *)

(** C9, as worded, fails in its last part: the class does add a failure.
    [%] with a tuple passes the elements on through [str], so a numeric
    conversion of the template meets a string and raises [TypeError] where
    the same template as a plain string formats the number. *)
Lemma mod_tuple_fails_where_str_formats :
  lstr.call (lstr.__new__ "%d" None (lstr.Marker "m1")) "__mod__" [PTuple [PInt 5]] []
  = Raise TypeError
  /\ str.call "%d" "__mod__" [PTuple [PInt 5]] [] = Ok (PStr "5")
  /\ operator.mod_ (PLstr (lstr.__new__ "%d" None (lstr.Marker "m1"))) (PTuple [PInt 5])
     = Raise TypeError
  /\ operator.mod_ (PStr "%d") (PTuple [PInt 5]) = Ok (PStr "5").
Proof. repeat split. Qed.

(** C9, amended.  [__add__] with an operand that is neither a [str] exactly
    nor an instance of the class, and [__mul__] and [__rmul__] with an
    operand that has no [__index__], return [NotImplemented] and raise
    nothing.  Beyond that, a method of the class fails only where the method
    of [str] with the same name fails on the arguments the class passes on
    to it: its own arguments, the elements of a tuple operand of [%] going
    through [str] first. *)
Theorem unsupported_operands_and_failures (self : lstr) :
  (forall other : pyval,
     type_is other TStr = false -> isinstance other TLstr = false ->
     lstr.__add__ self other = Ok PNotImplemented)
  /\ (forall other : pyval,
        supports_index other = false ->
        lstr.__mul__ self other = Ok PNotImplemented
        /\ lstr.__rmul__ self other = Ok PNotImplemented)
  /\ (forall (name : string) (args : list pyval) (kwargs : list (string * pyval)) (e : exn),
        lstr.call self name args kwargs = Raise e ->
        exists e', str.call (content self) name (passed_on name args) kwargs = Raise e').
Proof.
  split; [|split].
  - intros other H1 H2. unfold lstr.__add__. by rewrite H1, H2.
  - intros other H. unfold lstr.__rmul__, lstr.__mul__. by rewrite H.
  - intros name args kwargs e H. rewrite call_cases in H.
    destruct (List.existsb _ [_; _; _; _]) eqn:Hattr.
    { exists AttributeError. by apply instance_attribute. }
    destruct (String.eqb name "__class__"); [discriminate H|].
    destruct (lstr.bound self name) as [f|] eqn:Hf.
    { exact (bound_failure self name f args kwargs e Hf H). }
    destruct (List.existsb _ lstr.__dict__) eqn:Hdict; [discriminate H|].
    rewrite (str_call_inherited self name args kwargs Hattr Hf Hdict).
    destruct (str.method name (content self)) as [f|]; [|discriminate H].
    rewrite wrapped_spec in H.
    destruct (f args kwargs) as [v| |]; [|by eexists|discriminate H].
    by destruct (as_str v).
Qed.

Lemma unsupported_operands_and_failures_witness :
  lstr.__add__ (lstr.__new__ "ab" None (lstr.Marker "m1")) (PInt 5) = Ok PNotImplemented
  /\ (lstr.__mul__ (lstr.__new__ "ab" None (lstr.Marker "m1")) (PStr "x") = Ok PNotImplemented
      /\ lstr.__rmul__ (lstr.__new__ "ab" None (lstr.Marker "m1")) (PStr "x")
         = Ok PNotImplemented)
  /\ exists e', str.call "ab" "__getitem__" (passed_on "__getitem__" [PInt 7]) [] = Raise e'.
Proof.
  pose proof (unsupported_operands_and_failures (lstr.__new__ "ab" None (lstr.Marker "m1")))
    as (Hadd & Hmul & Hfail).
  split; [|split].
  - apply Hadd; reflexivity.
  - apply Hmul; reflexivity.
  - apply (Hfail "__getitem__" [PInt 7] [] IndexError). reflexivity.
Defined.

(** * Further properties of the methods *)

Set Warnings "-clear-no-such-hyp".

(** ** Concatenation and repetition together *)

Lemma repeat_add (m n : nat) (s : string) :
  text.repeat (m + n) s = text.repeat m s +:+ text.repeat n s.
Proof.
  induction m as [|m IH]; [reflexivity|].
  simpl. by rewrite IH, str_app_assoc.
Qed.

Lemma repeat_mul (m n : nat) (s : string) :
  text.repeat n (text.repeat m s) = text.repeat (m * n) s.
Proof.
  induction n as [|n IH]; simpl.
  - by rewrite Nat.mul_0_r.
  - by rewrite IH, <- repeat_add, Nat.mul_succ_r, Nat.add_comm.
Qed.

(** X1.  [+] is associative when the middle operand is an instance of the
    class: for instances [a] and [b] and a right operand [c] that is a
    plain string or an instance, [(a + b) + c] and [a + (b + c)] are the
    same instance, with the three texts in a row, no logits, and the traces
    of the three united. *)
Theorem add_associative (a b : lstr) (c : pyval) :
  type_is c TStr = true \/ isinstance c TLstr = true ->
  let sum := mk_lstr (content a +:+ content b +:+ py_str c) None
                     (__origin_trace a ∪ __origin_trace b ∪ origin_trace_of c) in
  (ab ← operator.add (PLstr a) (PLstr b); operator.add ab c) = Ok (PLstr sum)
  /\ (bc ← operator.add (PLstr b) c; operator.add (PLstr a) bc) = Ok (PLstr sum).
Proof.
  intros Hc sum. subst sum.
  destruct c; destruct Hc as [Hc|Hc]; try discriminate Hc; simpl;
    unfold lstr.__new__, origin_trace_of, py_str; simpl;
    rewrite ?str_app_assoc, ?(right_id_L ∅ (∪)), ?(assoc_L (∪)); split; reflexivity.
Qed.

Lemma add_associative_witness :
  (ab ← operator.add (PLstr (lstr.__new__ "a" (Some [1#2]) (lstr.Marker "m1")))
                     (PLstr (lstr.__new__ "b" None (lstr.Marker "m2")));
   operator.add ab (PStr "c"))
  = Ok (PLstr (mk_lstr "abc" None ({[ "m1" ]} ∪ {[ "m2" ]} ∪ ∅))).
Proof.
  apply (add_associative (lstr.__new__ "a" (Some [1#2]) (lstr.Marker "m1"))
                         (lstr.__new__ "b" None (lstr.Marker "m2")) (PStr "c")).
  left. reflexivity.
Defined.

(** With a plain string in the middle the grouping matters: the plain
    concatenation on the right loses the trace of its instance. *)
Example add_plain_middle_operand :
  let a := lstr.__new__ "a" None (lstr.Marker "m1") in
  let c := lstr.__new__ "c" None (lstr.Marker "m2") in
  (ab ← operator.add (PLstr a) (PStr "b"); operator.add ab (PLstr c))
  = Ok (PLstr (mk_lstr "abc" None ({[ "m1" ]} ∪ {[ "m2" ]})))
  /\ (bc ← operator.add (PStr "b") (PLstr c); operator.add (PLstr a) bc)
     = Ok (PLstr (mk_lstr "abc" None {[ "m1" ]})).
Proof. split; reflexivity. Qed.

Lemma repeat_length (n : nat) (s : string) :
  String.length (text.repeat n s) = (n * String.length s)%nat.
Proof.
  induction n as [|n IH]; [reflexivity|].
  simpl. rewrite str_length_app, IH. reflexivity.
Qed.

Lemma str_mul_nonpositive (s : string) (k : Z) :
  (- PY_SSIZE_T_MAX - 1 <= k <= 0)%Z -> str.__mul__ s (PInt k) = Ok "".
Proof.
  intros Hk. pose proof ssize_t_max_positive.
  unfold str.__mul__. cbn [as_index]. rewrite ssize_t_fits by lia.
  cbn [mbind result_bind]. by destruct (Z.ltb_spec k 1); [|lia].
Qed.

(** What [*] gives when the built-in repetition gives [r]. *)
Lemma mul_of_str_mul (a : lstr) (k : Z) (r : result string) :
  str.__mul__ (content a) (PInt k) = r ->
  operator.mul (PLstr a) (PInt k)
  = (fun t => PLstr (mk_lstr t None (__origin_trace a))) <$> r
  /\ operator.mul (PInt k) (PLstr a)
     = (fun t => PLstr (mk_lstr t None (__origin_trace a))) <$> r.
Proof.
  intros <-. cbn [operator.mul as_lstr as_str]. unfold lstr.__rmul__, lstr.__mul__.
  cbn [supports_index as_index].
  destruct (str.__mul__ (content a) (PInt k)); split; reflexivity.
Qed.

(** X2.  A count of zero or below that fits an index-sized integer gives the
    empty text, still as an instance that carries the trace of [a], on
    either side of [*]; a count below the range raises [OverflowError]. *)
Theorem mul_nonpositive_is_empty (a : lstr) :
  (forall n : Z,
     (- PY_SSIZE_T_MAX - 1 <= n <= 0)%Z ->
     operator.mul (PLstr a) (PInt n) = Ok (PLstr (mk_lstr "" None (__origin_trace a)))
     /\ operator.mul (PInt n) (PLstr a) = Ok (PLstr (mk_lstr "" None (__origin_trace a))))
  /\ (forall n : Z,
        (n < - PY_SSIZE_T_MAX - 1)%Z ->
        operator.mul (PLstr a) (PInt n) = Raise OverflowError
        /\ operator.mul (PInt n) (PLstr a) = Raise OverflowError).
Proof.
  split; intros n Hn.
  - exact (mul_of_str_mul a n _ (str_mul_nonpositive (content a) n Hn)).
  - apply (mul_of_str_mul a n (Raise OverflowError)), str_mul_overflow. lia.
Qed.

Lemma mul_nonpositive_is_empty_witness :
  (operator.mul (PLstr (lstr.__new__ "ab" (Some [1#2]) (lstr.Marker "m1"))) (PInt (-3))
   = Ok (PLstr (mk_lstr "" None {[ "m1" ]}))
   /\ operator.mul (PInt (-3)) (PLstr (lstr.__new__ "ab" (Some [1#2]) (lstr.Marker "m1")))
      = Ok (PLstr (mk_lstr "" None {[ "m1" ]})))
  /\ operator.mul (PLstr (lstr.__new__ "ab" (Some [1#2]) (lstr.Marker "m1")))
                  (PInt (- PY_SSIZE_T_MAX - 2))
     = Raise OverflowError.
Proof.
  pose proof (mul_nonpositive_is_empty (lstr.__new__ "ab" (Some [1#2]) (lstr.Marker "m1")))
    as [Hempty Hover].
  split.
  - apply Hempty. done.
  - apply Hover. done.
Defined.

(** X3.  Repetition composes.  For counts [m] and [n] that are not negative:
    when [m], [n], [m * n] and the lengths of [a * m] and of [a * (m * n)]
    fit an index-sized integer, [(a * m) * n] is [a * (m * n)]; when
    [m + n] and the length of [a * (m + n)] fit, [a * m + a * n] is
    [a * (m + n)]; as instances, with the same text, no logits and the trace
    of [a]. *)
Theorem mul_composes (a : lstr) (m n : Z) :
  let len := Z.of_nat (String.length (content a)) in
  let times := fun k : Z =>
    Ok (PLstr (mk_lstr (text.repeat (Z.to_nat k) (content a)) None (__origin_trace a))) in
  (0 <= m)%Z -> (0 <= n)%Z ->
  ((m <= PY_SSIZE_T_MAX)%Z -> (n <= PY_SSIZE_T_MAX)%Z -> (m * n <= PY_SSIZE_T_MAX)%Z ->
   (len * m <= PY_SSIZE_T_MAX)%Z -> (len * (m * n) <= PY_SSIZE_T_MAX)%Z ->
   (am ← operator.mul (PLstr a) (PInt m); operator.mul am (PInt n)) = times (m * n)%Z
   /\ operator.mul (PLstr a) (PInt (m * n)) = times (m * n)%Z)
  /\ ((m + n <= PY_SSIZE_T_MAX)%Z -> (len * (m + n) <= PY_SSIZE_T_MAX)%Z ->
      (am ← operator.mul (PLstr a) (PInt m);
       an ← operator.mul (PLstr a) (PInt n);
       operator.add am an)
      = times (m + n)%Z
      /\ operator.mul (PLstr a) (PInt (m + n)) = times (m + n)%Z).
Proof.
  intros len times Hm Hn. subst len times. split.
  - intros Hm' Hn' Hmn Hlen Hlens.
    destruct (mul_of_str_mul a m _ (str_mul_fits (content a) m ltac:(lia) Hlen)) as [-> _].
    destruct (mul_of_str_mul a (m * n) _
                (str_mul_fits (content a) (m * n) ltac:(lia) Hlens)) as [-> _].
    cbn [mbind result_bind fmap result_fmap].
    assert (Z.of_nat (String.length (text.repeat (Z.to_nat m) (content a))) * n
            <= PY_SSIZE_T_MAX)%Z as Hrep.
    { rewrite repeat_length, Nat2Z.inj_mul, Z2Nat.id by exact Hm.
      by replace (m * Z.of_nat (String.length (content a)) * n)%Z
           with (Z.of_nat (String.length (content a)) * (m * n))%Z by ring. }
    destruct (mul_of_str_mul (mk_lstr (text.repeat (Z.to_nat m) (content a)) None
                                      (__origin_trace a)) n _
                (str_mul_fits _ n (conj Hn Hn') Hrep)) as [-> _].
    cbn [fmap result_fmap content __origin_trace].
    by rewrite repeat_mul, Z2Nat.inj_mul by lia.
  - intros Hsum Hlen.
    destruct (mul_of_str_mul a m _ (str_mul_fits (content a) m ltac:(lia) ltac:(nia)))
      as [-> _].
    destruct (mul_of_str_mul a n _ (str_mul_fits (content a) n ltac:(lia) ltac:(nia)))
      as [-> _].
    destruct (mul_of_str_mul a (m + n) _
                (str_mul_fits (content a) (m + n) ltac:(lia) Hlen)) as [-> _].
    cbn [mbind result_bind fmap result_fmap]. simpl.
    unfold lstr.__new__. simpl.
    by rewrite <- repeat_add, (idemp_L (∪)), Z2Nat.inj_add by lia.
Qed.

Lemma mul_composes_witness :
  ((am ← operator.mul (PLstr (lstr.__new__ "ab" None (lstr.Marker "m1"))) (PInt 2);
    operator.mul am (PInt 3))
   = Ok (PLstr (mk_lstr "abababababab" None {[ "m1" ]}))
   /\ operator.mul (PLstr (lstr.__new__ "ab" None (lstr.Marker "m1"))) (PInt (2 * 3))
      = Ok (PLstr (mk_lstr "abababababab" None {[ "m1" ]})))
  /\ ((am ← operator.mul (PLstr (lstr.__new__ "ab" None (lstr.Marker "m1"))) (PInt 2);
       an ← operator.mul (PLstr (lstr.__new__ "ab" None (lstr.Marker "m1"))) (PInt 3);
       operator.add am an)
      = Ok (PLstr (mk_lstr "ababababab" None {[ "m1" ]}))
      /\ operator.mul (PLstr (lstr.__new__ "ab" None (lstr.Marker "m1"))) (PInt (2 + 3))
         = Ok (PLstr (mk_lstr "ababababab" None {[ "m1" ]}))).
Proof.
  pose proof (mul_composes (lstr.__new__ "ab" None (lstr.Marker "m1")) 2 3
                ltac:(done) ltac:(done)) as [Htimes Hplus].
  split.
  - apply Htimes; done.
  - apply Hplus; done.
Defined.

(** ** Indexing and slicing: bounds *)

Lemma str_take_drop (n : nat) (s : string) : text.take n s +:+ text.drop n s = s.
Proof.
  revert s; induction n as [|n IH]; intros [|c s]; try reflexivity.
  simpl. rewrite str_app_cons. by rewrite IH.
Qed.

Lemma drop_length (n : nat) (s : string) :
  String.length (text.drop n s) = (String.length s - n)%nat.
Proof. revert s; induction n as [|n IH]; intros [|c s]; try reflexivity. apply IH. Qed.

Lemma clamp_range (len k : Z) : (0 <= len)%Z -> (0 <= str.clamp len 1 k <= len)%Z.
Proof.
  intros Hlen. unfold str.clamp.
  destruct (Z.ltb_spec k 0).
  - destruct (Z.ltb_spec (k + len) 0); simpl; lia.
  - destruct (Z.leb_spec len k); simpl; lia.
Qed.

(** [s[:k]] and [s[k:]] cut the text at the same place. *)
Lemma slice_prefix (s : string) (k : Z) :
  str.getitem_slice s None (Some k) None
  = Ok (text.take (Z.to_nat (str.clamp (Z.of_nat (String.length s)) 1 k)) s).
Proof.
  unfold str.getitem_slice, str.slice_indices. simpl.
  pose proof (clamp_range (Z.of_nat (String.length s)) k ltac:(lia)) as Hj.
  set (j := str.clamp (Z.of_nat (String.length s)) 1 k) in *.
  replace (Z.to_nat (if (0 <? j)%Z then (j - 0 - 1) / 1 + 1 else 0)%Z) with (Z.to_nat j)
    by (destruct (Z.ltb_spec 0 j); [rewrite Z.div_1_r|]; lia).
  change 0%Z with (Z.of_nat 0).
  by rewrite (pick_forward s (Z.to_nat j) 0) by lia.
Qed.

Lemma slice_suffix (s : string) (k : Z) :
  str.getitem_slice s (Some k) None None
  = Ok (text.drop (Z.to_nat (str.clamp (Z.of_nat (String.length s)) 1 k)) s).
Proof.
  unfold str.getitem_slice, str.slice_indices. simpl.
  pose proof (clamp_range (Z.of_nat (String.length s)) k ltac:(lia)) as Hj.
  set (n := Z.of_nat (String.length s)) in *.
  set (j := str.clamp n 1 k) in *.
  replace (Z.to_nat (if (j <? n)%Z then (n - j - 1) / 1 + 1 else 0)%Z)
    with (String.length s - Z.to_nat j)%nat
    by (destruct (Z.ltb_spec j n); [rewrite Z.div_1_r|]; lia).
  rewrite <- (Z2Nat.id j) at 1 by lia.
  rewrite (pick_forward s _ (Z.to_nat j)) by lia.
  by rewrite <- drop_length, take_all.
Qed.

(** X4.  The keys that indexing refuses: an index below [-len] or at [len]
    and above raises [IndexError], so every index does on the empty text; a
    slice whose step is zero raises [ValueError]; a key that is neither a
    slice nor an index raises [TypeError]. *)
Theorem getitem_failures (a : lstr) :
  (forall i : Z,
     (i < - Z.of_nat (String.length (content a)) \/ Z.of_nat (String.length (content a)) <= i)%Z ->
     lstr.__getitem__ a (PInt i) = Raise IndexError
     /\ operator.getitem (PLstr a) (PInt i) = Raise IndexError)
  /\ (forall start stop : option Z,
        lstr.__getitem__ a (PSlice start stop (Some 0%Z)) = Raise ValueError)
  /\ (forall key : pyval,
        as_index key = None -> (forall x y z, key <> PSlice x y z) ->
        lstr.__getitem__ a key = Raise TypeError).
Proof.
  split; [|split].
  - intros i Hi.
    assert (str.__getitem__ (content a) (PInt i) = Raise IndexError) as E.
    { simpl. unfold str.getitem_index.
      set (n := Z.of_nat (String.length (content a))) in *.
      destruct (Z.ltb_spec i 0);
        [destruct (Z.leb_spec 0 (i + n)) | destruct (Z.leb_spec 0 i)]; simpl; try lia;
        try reflexivity.
      destruct (Z.ltb_spec i n); [lia | reflexivity]. }
    unfold operator.getitem, lstr.__getitem__. by rewrite E.
  - reflexivity.
  - intros key Hkey Hslice. unfold lstr.__getitem__.
    destruct key; try discriminate Hkey; try reflexivity.
    by destruct (Hslice start stop step).
Qed.

Lemma getitem_failures_witness :
  (lstr.__getitem__ (lstr.__new__ "" None (lstr.Marker "m1")) (PInt 0) = Raise IndexError
   /\ operator.getitem (PLstr (lstr.__new__ "" None (lstr.Marker "m1"))) (PInt 0)
      = Raise IndexError)
  /\ lstr.__getitem__ (lstr.__new__ "" None (lstr.Marker "m1")) (PStr "0") = Raise TypeError.
Proof.
  pose proof (getitem_failures (lstr.__new__ "" None (lstr.Marker "m1")))
    as (Hindex & _ & Hkey).
  split.
  - apply Hindex. simpl. lia.
  - apply Hkey; [reflexivity | discriminate].
Defined.

(** X5.  For every integer [k], in range or not and counted from either
    end, [a[:k] + a[k:]] has the text of [a] and the trace of [a]; the
    logits of [a] are not in it. *)
Theorem slice_halves_concatenate (a : lstr) (k : Z) :
  (l ← operator.getitem (PLstr a) (PSlice None (Some k) None);
   r ← operator.getitem (PLstr a) (PSlice (Some k) None None);
   operator.add l r)
  = Ok (PLstr (mk_lstr (content a) None (__origin_trace a))).
Proof.
  unfold operator.getitem, lstr.__getitem__.
  change (str.__getitem__ (content a) (PSlice None (Some k) None))
    with (str.getitem_slice (content a) None (Some k) None).
  change (str.__getitem__ (content a) (PSlice (Some k) None None))
    with (str.getitem_slice (content a) (Some k) None None).
  rewrite slice_prefix, slice_suffix. simpl.
  unfold lstr.__new__. simpl. by rewrite str_take_drop, (idemp_L (∪)).
Qed.

(** ** Join *)

Lemma traverse_rejects (items : list pyval) :
  Exists (fun v => as_str v = None) items ->
  traverse (fun v => match as_str v with
                     | Some t => Ok t
                     | None => Raise TypeError
                     end) items = Raise TypeError.
Proof.
  induction items as [|v items IH]; intros H; [by apply Exists_nil in H|].
  simpl. destruct (as_str v) as [t|] eqn:E; [|reflexivity].
  apply Exists_cons in H as [H|H]; [congruence|].
  simpl. by rewrite (IH H).
Qed.

Lemma origins_of_plain (parts : list string) : origins_of (PStr <$> parts) = ∅.
Proof.
  induction parts as [|p parts IH]; [reflexivity|].
  change (origins_of (PStr <$> p :: parts))
    with (origin_trace_of (PStr p) ∪ origins_of (PStr <$> parts)).
  rewrite IH. apply (left_id_L ∅ (∪)).
Qed.

Lemma py_str_plain (parts : list string) : py_str <$> (PStr <$> parts) = parts.
Proof. induction parts as [|p parts IH]; [reflexivity | exact (f_equal (cons p) IH)]. Qed.

Lemma join_list (self : lstr) (items : list pyval) :
  lstr.join self (PList items)
  = Ok (mk_lstr (String.concat (content self) (py_str <$> items)) None
                (__origin_trace self ∪ origins_of items)).
Proof.
  unfold lstr.join. cbn [iterate mbind result_bind]. rewrite join_texts.
  cbn [mbind result_bind]. unfold lstr.__new__. by rewrite gather_union.
Qed.

(** X6.  [join] takes the items of a list or tuple as [str] gives them, so
    it accepts items that are not strings, where the [join] of a plain
    string raises [TypeError].  The result has the texts of the items with
    the text of the receiver between them, no logits, and the trace of the
    receiver united with the traces of the items that are instances of the
    class. *)
Theorem join_accepts_any_items (self : lstr) (items : list pyval) :
  let joined := mk_lstr (String.concat (content self) (py_str <$> items)) None
                        (__origin_trace self ∪ origins_of items) in
  lstr.join self (PList items) = Ok joined
  /\ lstr.join self (PTuple items) = Ok joined
  /\ (Exists (fun v => as_str v = None) items ->
      str.join (content self) (PList items) = Raise TypeError).
Proof.
  intros joined. split; [apply join_list|]. split; [apply join_list|].
  intros H. unfold str.join. cbn [iterate mbind result_bind].
  by rewrite (traverse_rejects items H).
Qed.

Lemma join_accepts_any_items_witness :
  lstr.join (lstr.__new__ ", " None (lstr.Marker "m1"))
            (PList [PInt 1; PLstr (lstr.__new__ "b" (Some [1#2]) (lstr.Marker "m2")); PNone])
  = Ok (mk_lstr "1, b, None" None ({[ "m1" ]} ∪ origins_of
          [PInt 1; PLstr (lstr.__new__ "b" (Some [1#2]) (lstr.Marker "m2")); PNone]))
  /\ str.join ", " (PList [PInt 1; PLstr (lstr.__new__ "b" (Some [1#2]) (lstr.Marker "m2")); PNone])
     = Raise TypeError.
Proof.
  pose proof (join_accepts_any_items (lstr.__new__ ", " None (lstr.Marker "m1"))
                [PInt 1; PLstr (lstr.__new__ "b" (Some [1#2]) (lstr.Marker "m2")); PNone])
    as (Hlist & _ & Hstr).
  split; [exact Hlist|].
  apply Hstr. apply Exists_cons_hd. reflexivity.
Defined.

(** X7.  [join] over a string puts the text of the receiver between its
    characters.  When that string is an instance of the class its trace is
    not in the result: the characters it yields are plain strings, and the
    result carries the trace of the receiver alone. *)
Theorem join_over_characters (self b : lstr) :
  let joined := mk_lstr (String.concat (content self) (text.chars (content b))) None
                        (__origin_trace self) in
  lstr.join self (PLstr b) = Ok joined
  /\ lstr.join self (PStr (content b)) = Ok joined
  /\ lstr.join self (PLstr b) = lstr.join self (PList (PStr <$> text.chars (content b))).
Proof.
  assert (lstr.join self (PList (PStr <$> text.chars (content b)))
          = Ok (mk_lstr (String.concat (content self) (text.chars (content b))) None
                        (__origin_trace self))) as E
    by (by rewrite join_list, py_str_plain, origins_of_plain, (right_id_L ∅ (∪))).
  repeat split; exact E.
Qed.

(** X8.  [join] goes through its argument twice, first for the texts and
    then for the traces.  An iterator that runs once is spent after the
    first pass: the result has the same text as the join of a list of the
    same items, but only the trace of the receiver, and none of the traces
    of the items. *)
Theorem join_of_iterator_drops_item_traces (self : lstr) (items : list pyval) :
  iterator.join self items
  = (Ok (mk_lstr (String.concat (content self) (py_str <$> items)) None
                 (__origin_trace self)), [])
  /\ lstr.join self (PList items)
     = Ok (mk_lstr (String.concat (content self) (py_str <$> items)) None
                   (__origin_trace self ∪ origins_of items)).
Proof.
  split; [|apply join_list].
  unfold iterator.join, iterator.exhaust. by rewrite join_texts.
Qed.

(** A generator that yields an instance with the trace m2 and a list with
    the same instance. *)
Example join_generator :
  let self := lstr.__new__ ", " None (lstr.Marker "m1") in
  let items := [PLstr (lstr.__new__ "b" None (lstr.Marker "m2")); PStr "c"] in
  fst (iterator.join self items) = Ok (mk_lstr "b, c" None {[ "m1" ]})
  /\ lstr.join self (PList items) = Ok (mk_lstr "b, c" None ({[ "m1" ]} ∪ {[ "m2" ]})).
Proof. split; reflexivity. Qed.

(** ** Split *)

Lemma concat_snoc (sep x : string) (l : list string) :
  l <> [] -> String.concat sep (l ++ [x]) = String.concat sep l +:+ sep +:+ x.
Proof.
  induction l as [|y l IH]; [done|]. intros _.
  destruct l as [|z l]; [reflexivity|].
  change (String.concat sep ((y :: z :: l) ++ [x]))
    with (y +:+ sep +:+ String.concat sep ((z :: l) ++ [x])).
  rewrite IH by done.
  change (String.concat sep (y :: z :: l)) with (y +:+ sep +:+ String.concat sep (z :: l)).
  by rewrite !str_app_assoc.
Qed.

(** Joining the fragments turned back is the join of the fragments, turned
    back. *)
Lemma concat_reverse (sep : string) (l : list string) :
  String.concat sep (reverse (String.rev <$> l))
  = String.rev (String.concat (String.rev sep) l).
Proof.
  induction l as [|x l IH]; [reflexivity|].
  rewrite fmap_cons, reverse_cons.
  destruct l as [|y l]; [reflexivity|].
  rewrite concat_snoc
    by (rewrite fmap_cons, reverse_cons; intros H; by apply app_eq_nil in H as [_ H]).
  rewrite IH.
  change (String.concat (String.rev sep) (x :: y :: l))
    with (x +:+ String.rev sep +:+ String.concat (String.rev sep) (y :: l)).
  by rewrite !rev_app_distr, rev_involutive, str_app_assoc.
Qed.

Lemma rev_not_empty (p : string) : p <> "" -> String.rev p <> "".
Proof.
  intros Hp H. apply Hp. apply (f_equal String.rev) in H.
  by rewrite rev_involutive in H.
Qed.

Lemma split_text_sep (p : string) (b : str.budget) (s : string) :
  p <> "" -> str.split_text (Some p) b s = Ok (str.split_sep p b O "" s).
Proof. by destruct p. Qed.

(** What [split] and [rsplit] of the class return for a separator that is a
    string with a text [p] that is not empty. *)
Lemma split_with_separator (a : lstr) (sep : pyval) (p : string) (n : Z) :
  as_str sep = Some p -> p <> "" ->
  (- PY_SSIZE_T_MAX - 1 <= n <= PY_SSIZE_T_MAX)%Z ->
  let wrap := fun part => mk_lstr part None (__origin_trace a ∪ origin_trace_of sep) in
  lstr.split a sep (PInt n)
  = Ok (wrap <$> str.split_sep p (str.budget_of n) O "" (content a))
  /\ lstr.rsplit a sep (PInt n)
     = Ok (wrap <$> reverse (String.rev <$> str.split_sep (String.rev p) (str.budget_of n) O ""
                                                           (String.rev (content a)))).
Proof.
  intros Hsep Hp Hn wrap.
  assert (str.split_args sep (PInt n) = Ok (Some p, str.budget_of n)) as Hargs
    by (unfold str.split_args; cbn [as_index]; rewrite (ssize_t_fits n Hn);
        destruct sep; try discriminate Hsep; injection Hsep as <-; reflexivity).
  unfold lstr.split, lstr.rsplit. rewrite !split_helper_spec.
  unfold str.split, str.rsplit, str.rsplit_text. rewrite Hargs.
  cbn [mbind result_bind fmap option_fmap option_map].
  rewrite (split_text_sep p _ _ Hp), (split_text_sep _ _ _ (rev_not_empty p Hp)).
  split; reflexivity.
Qed.

(** A [maxsplit] that does not fit an index-sized integer is refused before
    the separator is looked at. *)
Lemma split_overflow (a : lstr) (sep : pyval) (n : Z) :
  (n < - PY_SSIZE_T_MAX - 1 \/ PY_SSIZE_T_MAX < n)%Z ->
  lstr.split a sep (PInt n) = Raise OverflowError
  /\ lstr.rsplit a sep (PInt n) = Raise OverflowError.
Proof.
  intros Hn. unfold lstr.split, lstr.rsplit. rewrite !split_helper_spec.
  unfold str.split, str.rsplit, str.split_args. cbn [as_index].
  rewrite (ssize_t_overflow n Hn). split; reflexivity.
Qed.

(** X9.  For a separator that is not empty, plain or an instance of the
    class, and every [maxsplit] that fits an index-sized integer, the
    fragments of [split] and those of [rsplit] joined with the separator
    give back the text of [a]; each fragment has no logits and the trace of
    [a] united with that of the separator.  A [maxsplit] that does not fit
    raises [OverflowError]. *)
Theorem split_rejoins_for_every_maxsplit (a : lstr) (sep : pyval) (p : string) :
  as_str sep = Some p -> p <> "" ->
  (forall n : Z,
     (- PY_SSIZE_T_MAX - 1 <= n <= PY_SSIZE_T_MAX)%Z ->
     exists frags rfrags : list string,
       lstr.split a sep (PInt n)
       = Ok ((fun part => mk_lstr part None (__origin_trace a ∪ origin_trace_of sep))
               <$> frags)
       /\ lstr.rsplit a sep (PInt n)
          = Ok ((fun part => mk_lstr part None (__origin_trace a ∪ origin_trace_of sep))
                  <$> rfrags)
       /\ String.concat p frags = content a
       /\ String.concat p rfrags = content a)
  /\ (forall n : Z,
        (n < - PY_SSIZE_T_MAX - 1 \/ PY_SSIZE_T_MAX < n)%Z ->
        lstr.split a sep (PInt n) = Raise OverflowError
        /\ lstr.rsplit a sep (PInt n) = Raise OverflowError).
Proof.
  intros Hsep Hp. split; [|apply split_overflow].
  intros n Hn.
  destruct (split_with_separator a sep p n Hsep Hp Hn) as [Hsplit Hrsplit].
  eexists _, _. split; [exact Hsplit|]. split; [exact Hrsplit|]. split.
  - by rewrite (join_split_sep p Hp) by (simpl; lia).
  - rewrite concat_reverse, (join_split_sep _ (rev_not_empty p Hp)) by (simpl; lia).
    rewrite str_app_nil_l.
    replace (text.drop 0 (String.rev (content a))) with (String.rev (content a))
      by (by destruct (String.rev (content a))).
    apply rev_involutive.
Qed.

Lemma split_rejoins_for_every_maxsplit_witness :
  (exists frags rfrags : list string,
     lstr.split (lstr.__new__ "a,b,c" (Some [1#2]) (lstr.Marker "m1"))
                (PLstr (lstr.__new__ "," None (lstr.Marker "m2"))) (PInt 1)
     = Ok ((fun part => mk_lstr part None ({[ "m1" ]} ∪ {[ "m2" ]})) <$> frags)
     /\ lstr.rsplit (lstr.__new__ "a,b,c" (Some [1#2]) (lstr.Marker "m1"))
                    (PLstr (lstr.__new__ "," None (lstr.Marker "m2"))) (PInt 1)
        = Ok ((fun part => mk_lstr part None ({[ "m1" ]} ∪ {[ "m2" ]})) <$> rfrags)
     /\ String.concat "," frags = "a,b,c"
     /\ String.concat "," rfrags = "a,b,c")
  /\ lstr.split (lstr.__new__ "a,b,c" (Some [1#2]) (lstr.Marker "m1"))
                (PLstr (lstr.__new__ "," None (lstr.Marker "m2"))) (PInt (PY_SSIZE_T_MAX + 1))
     = Raise OverflowError.
Proof.
  pose proof (split_rejoins_for_every_maxsplit
                (lstr.__new__ "a,b,c" (Some [1#2]) (lstr.Marker "m1"))
                (PLstr (lstr.__new__ "," None (lstr.Marker "m2"))) ","
                eq_refl ltac:(discriminate)) as [Hfits Hover].
  split.
  - apply (Hfits 1%Z). done.
  - apply Hover. right. done.
Defined.

(** With one split allowed, [split] cuts at the first separator and
    [rsplit] at the last. *)
Example split_once :
  let a := lstr.__new__ "a,b,c" None (lstr.Marker "m1") in
  lstr.split a (PStr ",") (PInt 1)
  = Ok [mk_lstr "a" None {[ "m1" ]}; mk_lstr "b,c" None {[ "m1" ]}]
  /\ lstr.rsplit a (PStr ",") (PInt 1)
     = Ok [mk_lstr "a,b" None {[ "m1" ]}; mk_lstr "c" None {[ "m1" ]}].
Proof. split; reflexivity. Qed.

(** *** The number of fragments *)

Lemma split_sep_length (sep : string) (s : string) :
  forall (k skip : nat) (cur : string),
    (1 <= length (str.split_sep sep (str.AtMost k) skip cur s) <= S k)%nat.
Proof.
  induction s as [|c s IH]; intros k skip cur; cbn [str.split_sep]; [simpl; lia|].
  destruct skip; [|apply IH].
  destruct (String.prefix sep (String c s)); [|apply IH].
  destruct k as [|k]; simpl; [lia|].
  specialize (IH k (String.length sep - 1)%nat ""). lia.
Qed.

Lemma split_whitespace_length (s : string) :
  forall (k : nat) (cur : option string),
    (length (str.split_whitespace (str.AtMost k) cur s)
     <= match cur with
        | Some _ => S (S k)
        | None => S k
        end)%nat.
Proof.
  induction s as [|c s IH]; intros k cur; cbn [str.split_whitespace].
  - destruct cur; simpl; lia.
  - destruct cur as [w|].
    + destruct (text.isspace c).
      * specialize (IH k None). simpl in *. lia.
      * exact (IH k (Some (text.snoc w c))).
    + destruct (text.isspace c).
      * exact (IH k None).
      * destruct k as [|k]; simpl; [lia|].
        specialize (IH k (Some (String c ""))). simpl in IH. lia.
Qed.

Lemma split_text_length (sep : option string) (k : nat) (s : string) (parts : list string) :
  str.split_text sep (str.AtMost k) s = Ok parts ->
  (length parts <= S k)%nat /\ (sep <> None -> (1 <= length parts)%nat).
Proof.
  destruct sep as [[|c p]|]; simpl; intros H; try discriminate H; injection H as <-.
  - pose proof (split_sep_length (String c p) s k O ""). split; [lia | intros _; lia].
  - pose proof (split_whitespace_length s k None). simpl in *. split; [lia | done].
Qed.

(** X10.  With [maxsplit = k >= 0], [split] and [rsplit] return at most
    [k + 1] fragments, and at least one when a separator is given. *)
Theorem maxsplit_bounds_fragments (a : lstr) (sep : pyval) (k : Z) (frags : list lstr) :
  (0 <= k)%Z ->
  lstr.split a sep (PInt k) = Ok frags \/ lstr.rsplit a sep (PInt k) = Ok frags ->
  (length frags <= Z.to_nat k + 1)%nat /\ (sep <> PNone -> (1 <= length frags)%nat).
Proof.
  intros Hk H.
  assert (forall p : option string * str.budget,
            str.split_args sep (PInt k) = Ok p ->
            p.2 = str.AtMost (Z.to_nat k) /\ (sep <> PNone -> p.1 <> None)) as Hargs.
  { intros p Hp. unfold str.split_args in Hp. cbn [as_index] in Hp.
    assert (str.budget_of k = str.AtMost (Z.to_nat k)) as Hb
      by (unfold str.budget_of; destruct (Z.ltb_spec k 0); [lia | reflexivity]).
    unfold as_ssize_t in Hp. revert Hp. case_cond; [discriminate|].
    cbn [mbind result_bind]. intros Hp.
    destruct sep; simpl in Hp; try discriminate Hp; injection Hp as <-;
      (split; [exact Hb | done]). }
  unfold lstr.split, lstr.rsplit in H. rewrite !split_helper_spec in H.
  unfold str.split, str.rsplit, str.rsplit_text in H.
  destruct (str.split_args sep (PInt k)) as [[p b]| |] eqn:E;
    [|destruct H as [H|H]; discriminate H..].
  destruct (Hargs _ eq_refl) as [Hb Hsep]. simpl in Hb, Hsep. subst b.
  cbn [mbind result_bind] in H.
  destruct H as [H|H].
  - destruct (str.split_text p _ _) as [parts| |] eqn:Hparts; try discriminate H.
    injection H as <-. rewrite length_fmap.
    destruct (split_text_length _ _ _ _ Hparts) as [Hle Hge].
    split; [lia | intros Hs; apply Hge; by apply Hsep].
  - destruct (str.split_text (String.rev <$> p) _ _) as [parts| |] eqn:Hparts;
      try discriminate H.
    injection H as <-. rewrite length_fmap, length_reverse, length_fmap.
    destruct (split_text_length _ _ _ _ Hparts) as [Hle Hge].
    split; [lia | intros Hs; apply Hge; specialize (Hsep Hs); by destruct p].
Qed.

Lemma maxsplit_bounds_fragments_witness :
  (length [mk_lstr "a" None ({[ "m1" ]} : gset string); mk_lstr "b,c" None {[ "m1" ]}]
   <= Z.to_nat 1 + 1)%nat
  /\ (PStr "," <> PNone ->
      (1 <= length [mk_lstr "a" None ({[ "m1" ]} : gset string);
                    mk_lstr "b,c" None {[ "m1" ]}])%nat).
Proof.
  apply (maxsplit_bounds_fragments (lstr.__new__ "a,b,c" None (lstr.Marker "m1"))
           (PStr ",") 1).
  - lia.
  - left. reflexivity.
Defined.

(** *** A separator that does not occur *)

Lemma split_sep_absent (sep : string) (b : str.budget) (s : string) :
  forall cur : string,
    text.find sep s = None -> str.split_sep sep b O cur s = [cur +:+ s].
Proof.
  induction s as [|c s IH]; intros cur H.
  - simpl. by rewrite str_app_nil_r.
  - cbn [text.find] in H. cbn [str.split_sep].
    destruct (String.prefix sep (String c s)); [discriminate H|].
    destruct (text.find sep s) as [q|] eqn:Hq; [discriminate H|].
    rewrite (IH _ eq_refl). by rewrite snoc_app.
Qed.

Lemma find_absent (sub s : string) : ~ substring_of sub s -> text.find sub s = None.
Proof.
  intros H. destruct (text.find sub s) as [q|] eqn:Hq; [|reflexivity].
  destruct H. eexists _, _. exact (find_Some _ _ _ Hq).
Qed.

Lemma absent_rev (sub s : string) :
  ~ substring_of sub s -> ~ substring_of (String.rev sub) (String.rev s).
Proof.
  intros H Hrev. apply H. apply substring_of_rev in Hrev.
  by rewrite !rev_involutive in Hrev.
Qed.

(** X11.  When the separator, not empty, does not occur in the text,
    [split] and [rsplit] return the whole text as the one fragment, for
    every [maxsplit] that fits an index-sized integer; the fragment has no
    logits, and its trace is the trace of [a] united with that of the
    separator. *)
Theorem split_absent_separator (a : lstr) (sep : pyval) (p : string) (n : Z) :
  as_str sep = Some p -> p <> "" -> ~ substring_of p (content a) ->
  (- PY_SSIZE_T_MAX - 1 <= n <= PY_SSIZE_T_MAX)%Z ->
  let whole := mk_lstr (content a) None (__origin_trace a ∪ origin_trace_of sep) in
  lstr.split a sep (PInt n) = Ok [whole] /\ lstr.rsplit a sep (PInt n) = Ok [whole].
Proof.
  intros Hsep Hp Hno Hn whole.
  destruct (split_with_separator a sep p n Hsep Hp Hn) as [-> ->].
  rewrite (split_sep_absent _ _ _ _ (find_absent _ _ Hno)).
  rewrite (split_sep_absent _ _ _ _ (find_absent _ _ (absent_rev _ _ Hno))).
  rewrite !str_app_nil_l. simpl. rewrite rev_involutive. split; reflexivity.
Qed.

Lemma split_absent_separator_witness :
  lstr.split (lstr.__new__ "a b" (Some [1#2]) (lstr.Marker "m1"))
             (PLstr (lstr.__new__ "," None (lstr.Marker "m2"))) (PInt 2)
  = Ok [mk_lstr "a b" None ({[ "m1" ]} ∪ {[ "m2" ]})]
  /\ lstr.rsplit (lstr.__new__ "a b" (Some [1#2]) (lstr.Marker "m1"))
                 (PLstr (lstr.__new__ "," None (lstr.Marker "m2"))) (PInt 2)
     = Ok [mk_lstr "a b" None ({[ "m1" ]} ∪ {[ "m2" ]})].
Proof.
  apply (split_absent_separator (lstr.__new__ "a b" (Some [1#2]) (lstr.Marker "m1"))
           (PLstr (lstr.__new__ "," None (lstr.Marker "m2"))) "," 2).
  - reflexivity.
  - discriminate.
  - apply find_None. reflexivity.
  - done.
Defined.

(** *** Splitting on whitespace *)

Lemma existsb_snoc (p : ascii -> bool) (w : string) (c : ascii) :
  text.existsb p (text.snoc w c) = text.existsb p w || p c.
Proof.
  unfold text.snoc. induction w as [|d w IH].
  - rewrite str_app_nil_l. simpl. by rewrite orb_false_r.
  - rewrite str_app_cons. simpl. by rewrite IH, orb_assoc.
Qed.

Lemma snoc_not_empty (w : string) (c : ascii) : text.snoc w c <> "".
Proof. by destruct w. Qed.

Lemma split_whitespace_words (s : string) :
  forall cur : option string,
    (forall w, cur = Some w -> w <> "" /\ text.existsb text.isspace w = false) ->
    Forall (fun w => w <> "" /\ text.existsb text.isspace w = false)
           (str.split_whitespace str.Unbounded cur s).
Proof.
  induction s as [|c s IH]; intros cur Hcur; cbn [str.split_whitespace].
  - destruct cur as [w|]; [|constructor].
    constructor; [by apply Hcur | constructor].
  - destruct cur as [w|].
    + destruct (text.isspace c) eqn:Hc.
      * constructor; [by apply Hcur | by apply IH].
      * apply IH. intros w' [= <-]. split; [apply snoc_not_empty|].
        rewrite existsb_snoc, Hc. by destruct (Hcur w eq_refl) as [_ ->].
    + destruct (text.isspace c) eqn:Hc.
      * by apply IH.
      * simpl. apply IH. intros w' [= <-]. split; [done|]. simpl. by rewrite Hc.
Qed.

Lemma split_whitespace_blank (b : str.budget) (s : string) :
  text.forallb text.isspace s = true -> str.split_whitespace b None s = [].
Proof.
  induction s as [|c s IH]; [reflexivity|].
  simpl. intros [-> H]%andb_true_iff. by apply IH.
Qed.

(** X12.  Without a separator, [split] cuts at runs of whitespace: every
    fragment is a word, not empty and with no whitespace in it, as an
    instance with no logits and the trace of [a]; a text that is empty or
    all whitespace gives no fragment at all.  A call with no argument is
    this split. *)
Theorem whitespace_split_gives_words (a : lstr) :
  exists words : list string,
    lstr.split a PNone (PInt (-1))
    = Ok ((fun w => mk_lstr w None (__origin_trace a)) <$> words)
    /\ lstr.call a "split" [] []
       = Ok (lstr.instances ((fun w => mk_lstr w None (__origin_trace a)) <$> words))
    /\ Forall (fun w => w <> "" /\ text.existsb text.isspace w = false) words
    /\ (text.forallb text.isspace (content a) = true -> words = []).
Proof.
  exists (str.split_whitespace str.Unbounded None (content a)).
  assert (lstr.split a PNone (PInt (-1))
          = Ok ((fun w => mk_lstr w None (__origin_trace a))
                  <$> str.split_whitespace str.Unbounded None (content a))) as E.
  { unfold lstr.split. rewrite split_helper_spec.
    change (origin_trace_of PNone) with (∅ : gset string).
    by rewrite (right_id_L ∅ (∪)). }
  split; [exact E|]. split.
  - change (lstr.call a "split" [] [])
      with (lstr.instances <$> lstr.split a PNone (PInt (-1))).
    by rewrite E.
  - split; [by apply split_whitespace_words | apply split_whitespace_blank].
Qed.

Lemma whitespace_split_gives_words_witness :
  exists words : list string,
    lstr.split (lstr.__new__ "  " (Some [1#2]) (lstr.Marker "m1")) PNone (PInt (-1))
    = Ok ((fun w => mk_lstr w None {[ "m1" ]}) <$> words)
    /\ words = [].
Proof.
  destruct (whitespace_split_gives_words (lstr.__new__ "  " (Some [1#2]) (lstr.Marker "m1")))
    as (words & Hsplit & _ & _ & Hblank).
  exists words. split; [exact Hsplit | apply Hblank; reflexivity].
Defined.

(** Whitespace at the ends and runs of it between the words leave no empty
    fragment, where a separator that is given does. *)
Example split_words :
  let a := lstr.__new__ " a  b " None (lstr.Marker "m1") in
  lstr.split a PNone (PInt (-1)) = Ok [mk_lstr "a" None {[ "m1" ]}; mk_lstr "b" None {[ "m1" ]}]
  /\ (fun frags : list lstr => content <$> frags) <$> lstr.split a (PStr " ") (PInt (-1))
     = Ok [""; "a"; ""; "b"; ""].
Proof. split; reflexivity. Qed.

(** ** Lines *)

Lemma concat_empty_cons (x : string) (l : list string) :
  String.concat "" (x :: l) = x +:+ String.concat "" l.
Proof. destruct l; simpl; [by rewrite str_app_nil_r | reflexivity]. Qed.

Lemma splitlines_keepends_concat (n : nat) :
  forall (s cur : string),
    (String.length s <= n)%nat ->
    String.concat "" (str.splitlines_go true cur s) = cur +:+ s.
Proof.
  induction n as [|n IH]; intros [|c s] cur Hn; simpl in Hn; try lia;
    try (simpl; case_bool_decide; subst; simpl; by rewrite ?str_app_nil_r).
  cbn [str.splitlines_go]. destruct (text.islinebreak c).
  - destruct s as [|d s]; [reflexivity|].
    simpl in Hn.
    destruct (Ascii.eqb c (ascii_of_N 13) && Ascii.eqb d (ascii_of_N 10));
      rewrite concat_empty_cons, IH by (simpl; lia);
      by rewrite str_app_nil_l, !snoc_app.
  - rewrite IH by lia. by rewrite snoc_app.
Qed.

Lemma splitlines_keepends_not_empty (n : nat) :
  forall (s cur : string),
    (String.length s <= n)%nat ->
    Forall (fun line => line <> "") (str.splitlines_go true cur s).
Proof.
  induction n as [|n IH]; intros [|c s] cur Hn; simpl in Hn; try lia;
    try (simpl; case_bool_decide; by repeat constructor).
  cbn [str.splitlines_go]. destruct (text.islinebreak c).
  - destruct s as [|d s]; [repeat constructor; apply snoc_not_empty|].
    simpl in Hn.
    destruct (Ascii.eqb c (ascii_of_N 13) && Ascii.eqb d (ascii_of_N 10));
      (constructor; [apply snoc_not_empty | apply IH; simpl; lia]).
  - apply IH. lia.
Qed.

Lemma splitlines_no_breaks (n : nat) :
  forall (s cur : string),
    (String.length s <= n)%nat ->
    text.existsb text.islinebreak cur = false ->
    Forall (fun line => text.existsb text.islinebreak line = false)
           (str.splitlines_go false cur s).
Proof.
  induction n as [|n IH]; intros [|c s] cur Hn Hcur; simpl in Hn; try lia;
    try (simpl; case_bool_decide; by repeat constructor).
  cbn [str.splitlines_go]. destruct (text.islinebreak c) eqn:Hc.
  - destruct s as [|d s]; [by repeat constructor|].
    simpl in Hn.
    destruct (Ascii.eqb c (ascii_of_N 13) && Ascii.eqb d (ascii_of_N 10));
      (constructor; [exact Hcur | apply IH; [simpl; lia | reflexivity]]).
  - apply IH; [lia|]. by rewrite existsb_snoc, Hcur, Hc.
Qed.

Lemma splitlines_same_count (n : nat) :
  forall (s cur cur' : string),
    (String.length s <= n)%nat ->
    (cur = "" <-> cur' = "") ->
    length (str.splitlines_go true cur s) = length (str.splitlines_go false cur' s).
Proof.
  induction n as [|n IH]; intros [|c s] cur cur' Hn Hcur; simpl in Hn; try lia;
    try (simpl; repeat case_bool_decide; try reflexivity; tauto).
  cbn [str.splitlines_go]. destruct (text.islinebreak c).
  - destruct s as [|d s]; [reflexivity|].
    simpl in Hn.
    destruct (Ascii.eqb c (ascii_of_N 13) && Ascii.eqb d (ascii_of_N 10));
      cbn [length]; f_equal; apply IH; simpl; (lia || done).
  - apply IH; [lia|]. split; intros H; by apply snoc_not_empty in H.
Qed.

Lemma splitlines_single (keepends : bool) (s : string) :
  forall cur : string,
    text.existsb text.islinebreak s = false ->
    str.splitlines_go keepends cur s
    = if bool_decide (cur +:+ s = "") then [] else [cur +:+ s].
Proof.
  induction s as [|c s IH]; intros cur H.
  - simpl. by rewrite str_app_nil_r.
  - simpl in H. apply orb_false_iff in H as [Hc H].
    cbn [str.splitlines_go]. rewrite Hc, (IH _ H). by rewrite snoc_app.
Qed.

Lemma fragments_forall (P : lstr -> Prop) (o : gset string) (parts : list string) :
  Forall (fun part => P (mk_lstr part None o)) parts ->
  Forall P ((fun part => lstr.__new__ part None (lstr.Markers o)) <$> parts).
Proof. intros H. by apply Forall_fmap. Qed.

(** X13.  With [keepends] the lines put one after the other are the text of
    [a]: nothing is lost or added.  No line is empty, and each is an
    instance with no logits and the trace of [a]. *)
Theorem splitlines_keepends_rejoins (a : lstr) :
  String.concat "" (content <$> lstr.splitlines a true) = content a
  /\ Forall (fun line => content line <> "" /\ _logits line = None
                         /\ __origin_trace line = __origin_trace a)
            (lstr.splitlines a true).
Proof.
  unfold lstr.splitlines, str.splitlines. split.
  - change (fun p => lstr.__new__ p None (lstr.Markers (__origin_trace a)))
      with (fun p => mk_lstr p None (__origin_trace a)).
    rewrite content_fragments.
    by rewrite (splitlines_keepends_concat _ _ _ (Nat.le_refl _)).
  - apply fragments_forall.
    eapply Forall_impl; [exact (splitlines_keepends_not_empty _ _ "" (Nat.le_refl _))|].
    by intros line Hline.
Qed.

(** X14.  Without [keepends] no line has a line break in it, and there are
    as many lines as with [keepends].  A text with no line break is its own
    one line, and the empty text has no line, with or without [keepends]. *)
Theorem splitlines_removes_breaks (a : lstr) :
  Forall (fun line => text.existsb text.islinebreak (content line) = false
                      /\ _logits line = None
                      /\ __origin_trace line = __origin_trace a)
         (lstr.splitlines a false)
  /\ length (lstr.splitlines a false) = length (lstr.splitlines a true)
  /\ (forall keepends : bool,
        text.existsb text.islinebreak (content a) = false ->
        lstr.splitlines a keepends
        = if bool_decide (content a = "") then []
          else [mk_lstr (content a) None (__origin_trace a)]).
Proof.
  unfold lstr.splitlines, str.splitlines. split; [|split].
  - apply fragments_forall.
    eapply Forall_impl;
      [exact (splitlines_no_breaks _ _ "" (Nat.le_refl _) eq_refl)|].
    by intros line Hline.
  - rewrite !length_fmap. symmetry.
    by apply (splitlines_same_count _ _ "" "" (Nat.le_refl _)).
  - intros keepends H. rewrite (splitlines_single keepends _ "" H).
    rewrite str_app_nil_l. by case_bool_decide.
Qed.

Lemma splitlines_removes_breaks_witness :
  lstr.splitlines (lstr.__new__ "ab" (Some [1#2]) (lstr.Marker "m1")) true
  = [mk_lstr "ab" None {[ "m1" ]}].
Proof.
  pose proof (splitlines_removes_breaks (lstr.__new__ "ab" (Some [1#2]) (lstr.Marker "m1")))
    as (_ & _ & Hsingle).
  apply (Hsingle true). reflexivity.
Defined.

(** Return followed by newline ends one line, not two. *)
Example splitlines_cases :
  let a := lstr.__new__ (String "a" (String (ascii_of_N 13) (String (ascii_of_N 10)
                           (String "b" (String (ascii_of_N 10) EmptyString)))))
                        None (lstr.Marker "m1") in
  content <$> lstr.splitlines a false = ["a"; "b"]
  /\ length (lstr.splitlines a true) = 2%nat.
Proof. split; reflexivity. Qed.

(** ** Fragments and the separator *)

Lemma drop_app_le (i : nat) (x s : string) :
  (i <= String.length x)%nat -> text.drop i (x +:+ s) = text.drop i x +:+ s.
Proof.
  revert x; induction i as [|i IH]; intros x Hi.
  - by destruct x, s.
  - destruct x as [|c x]; simpl in Hi; [lia|].
    rewrite str_app_cons. simpl. apply IH. lia.
Qed.

Lemma prefix_app_r (p x s : string) :
  String.prefix p x = true -> String.prefix p (x +:+ s) = true.
Proof.
  intros [r ->]%prefix_iff. rewrite str_app_assoc. apply prefix_app.
Qed.

(** No occurrence starts at any position. *)
Lemma find_nowhere (p x : string) :
  (forall i, (i <= String.length x)%nat -> String.prefix p (text.drop i x) = false) ->
  text.find p x = None.
Proof.
  induction x as [|c x IH]; intros H.
  - assert (String.prefix p "" = false) as E by exact (H O (Nat.le_0_l _)).
    cbn [text.find]. by rewrite E.
  - assert (String.prefix p (String c x) = false) as E by exact (H O (Nat.le_0_l _)).
    cbn [text.find]. rewrite E.
    rewrite IH; [reflexivity|].
    intros i Hi. apply (H (S i)). simpl. lia.
Qed.

Lemma prefix_of_empty (p : string) : p <> "" -> String.prefix p "" = false.
Proof. by destruct p. Qed.

(** While a fragment is collected no occurrence of the separator starts in
    it, so none lies in a fragment that is given out. *)
Lemma split_sep_clean (p : string) :
  p <> "" ->
  forall (s : string) (skip : nat) (cur : string),
    skip = O \/ cur = "" ->
    (forall i, (i < String.length cur)%nat ->
               String.prefix p (text.drop i (cur +:+ s)) = false) ->
    Forall (fun f => text.find p f = None) (str.split_sep p str.Unbounded skip cur s).
Proof.
  intros Hp.
  assert (forall cur s : string,
            (forall i, (i < String.length cur)%nat ->
                       String.prefix p (text.drop i (cur +:+ s)) = false) ->
            text.find p cur = None) as Hout.
  { intros cur s H. apply find_nowhere. intros i Hi.
    destruct (decide (i = String.length cur)) as [->|Hne].
    - rewrite <- (str_app_nil_r cur) at 2. rewrite str_drop_app.
      by apply prefix_of_empty.
    - destruct (String.prefix p (text.drop i cur)) eqn:E; [|reflexivity].
      rewrite <- (H i ltac:(lia)), drop_app_le by lia.
      symmetry. by apply prefix_app_r. }
  induction s as [|c s IH]; intros skip cur Hskip H; cbn [str.split_sep].
  - constructor; [|constructor]. by apply (Hout cur "").
  - destruct skip as [|k].
    + destruct (String.prefix p (String c s)) eqn:E.
      * cbn [str.spend]. constructor; [by apply (Hout cur (String c s))|].
        apply IH; [by right | intros i Hi; simpl in Hi; lia].
      * apply IH; [by left|].
        intros i Hi. rewrite snoc_app.
        destruct (decide (i = String.length cur)) as [->|Hne].
        -- by rewrite str_drop_app.
        -- apply H. unfold text.snoc in Hi. rewrite str_length_app in Hi. simpl in Hi. lia.
    + destruct Hskip as [Hskip| ->]; [discriminate Hskip|].
      apply IH; [by right | intros i Hi; simpl in Hi; lia].
Qed.

(** X15.  With no bound on the number of splits, no fragment of [split] or
    of [rsplit] has the separator in it. *)
Theorem split_fragments_exclude_separator (a : lstr) (sep : pyval) (p : string) :
  as_str sep = Some p -> p <> "" ->
  exists frags rfrags : list lstr,
    lstr.split a sep (PInt (-1)) = Ok frags
    /\ lstr.rsplit a sep (PInt (-1)) = Ok rfrags
    /\ Forall (fun f => ~ substring_of p (content f)) frags
    /\ Forall (fun f => ~ substring_of p (content f)) rfrags.
Proof.
  intros Hsep Hp.
  destruct (split_with_separator a sep p (-1) Hsep Hp ltac:(done)) as [Hsplit Hrsplit].
  eexists _, _. split; [exact Hsplit|]. split; [exact Hrsplit|].
  change (str.budget_of (-1)) with str.Unbounded.
  split.
  - apply Forall_fmap. eapply Forall_impl.
    + apply (split_sep_clean p Hp); [by left | intros i Hi; simpl in Hi; lia].
    + intros f Hf. by apply find_None.
  - apply Forall_fmap, Forall_reverse, Forall_fmap. eapply Forall_impl.
    + apply (split_sep_clean _ (rev_not_empty p Hp));
        [by left | intros i Hi; simpl in Hi; lia].
    + intros f Hf Hocc. simpl in Hocc.
      apply (find_None _ _ Hf). rewrite <- (rev_involutive f).
      by apply substring_of_rev.
Qed.

Lemma split_fragments_exclude_separator_witness :
  exists frags rfrags : list lstr,
    lstr.split (lstr.__new__ "aaa" None (lstr.Marker "m1")) (PStr "aa") (PInt (-1)) = Ok frags
    /\ lstr.rsplit (lstr.__new__ "aaa" None (lstr.Marker "m1")) (PStr "aa") (PInt (-1))
       = Ok rfrags
    /\ Forall (fun f => ~ substring_of "aa" (content f)) frags
    /\ Forall (fun f => ~ substring_of "aa" (content f)) rfrags.
Proof.
  apply (split_fragments_exclude_separator (lstr.__new__ "aaa" None (lstr.Marker "m1"))
           (PStr "aa") "aa").
  - reflexivity.
  - discriminate.
Defined.

(** Where occurrences of the separator overlap, [split] takes the leftmost
    and [rsplit] the rightmost. *)
Example split_overlapping :
  let a := lstr.__new__ "aaa" None (lstr.Marker "m1") in
  lstr.split a (PStr "aa") (PInt (-1))
  = Ok [mk_lstr "" None {[ "m1" ]}; mk_lstr "a" None {[ "m1" ]}]
  /\ lstr.rsplit a (PStr "aa") (PInt (-1))
     = Ok [mk_lstr "a" None {[ "m1" ]}; mk_lstr "" None {[ "m1" ]}].
Proof. split; reflexivity. Qed.

(** ** Partition and concatenation *)

(** X16.  For a separator that is not empty, the three parts of [partition]
    added up with [+] are the text of [a] again, found or not, and so are
    those of [rpartition]; the sum has no logits and the trace of [a] united
    with that of the separator. *)
Theorem partition_parts_concatenate (a : lstr) (sep : pyval) (p : string) :
  as_str sep = Some p -> p <> "" ->
  let whole := Ok (PLstr (mk_lstr (content a) None
                            (__origin_trace a ∪ origin_trace_of sep))) in
  ('(x, y, z) ← lstr.partition a sep;
   xy ← operator.add (PLstr x) (PLstr y); operator.add xy (PLstr z)) = whole
  /\ ('(x, y, z) ← lstr.rpartition a sep;
      xy ← operator.add (PLstr x) (PLstr y); operator.add xy (PLstr z)) = whole.
Proof.
  intros Hsep Hp whole. subst whole.
  unfold lstr.partition, lstr.rpartition. rewrite !partition_helper_spec.
  unfold str.partition, str.rpartition. rewrite Hsep.
  unfold str.partition_text, str.rpartition_text.
  rewrite (bool_decide_eq_false_2 _ Hp).
  split.
  - destruct (text.find p (content a)) as [q|] eqn:Hq; simpl;
      unfold lstr.__new__; simpl; rewrite !(idemp_L (∪)), str_app_assoc.
    + by rewrite <- (find_Some _ _ _ Hq).
    + by rewrite !str_app_nil_r.
  - destruct (text.rfind p (content a)) as [q|] eqn:Hq; simpl;
      unfold lstr.__new__; simpl; rewrite !(idemp_L (∪)), str_app_assoc.
    + destruct (rfind_Some _ _ _ Hq) as (Hs & _ & _). by rewrite <- Hs.
    + reflexivity.
Qed.

Lemma partition_parts_concatenate_witness :
  ('(x, y, z) ← lstr.partition (lstr.__new__ "HelloWorld" (Some [1#2]) (lstr.Marker "m1"))
                               (PLstr (lstr.__new__ "o" None (lstr.Marker "m2")));
   xy ← operator.add (PLstr x) (PLstr y); operator.add xy (PLstr z))
  = Ok (PLstr (mk_lstr "HelloWorld" None ({[ "m1" ]} ∪ {[ "m2" ]}))).
Proof.
  apply (partition_parts_concatenate
           (lstr.__new__ "HelloWorld" (Some [1#2]) (lstr.Marker "m1"))
           (PLstr (lstr.__new__ "o" None (lstr.Marker "m2"))) "o").
  - reflexivity.
  - discriminate.
Defined.

(** ** Templates *)

(** A stretch of template without [%] is copied. *)
Lemma format_literal (lenient : bool) (args : list pyval) (p t : string) :
  text.existsb percent p = false ->
  str.format lenient args false (p +:+ t) = (fun r => p +:+ r) <$> str.format lenient args false t.
Proof.
  induction p as [|c p IH]; intros H.
  - rewrite str_app_nil_l. by destruct (str.format lenient args false t).
  - simpl in H. apply orb_false_iff in H as [Hc H].
    rewrite str_app_cons. cbn [str.format]. unfold percent in Hc. rewrite Hc.
    rewrite (IH H). by destruct (str.format lenient args false t).
Qed.

Lemma format_no_conversion (lenient : bool) (args : list pyval) (t : string) :
  text.existsb percent t = false ->
  str.format lenient args false t
  = if negb lenient && negb (bool_decide (args = [])) then Raise TypeError else Ok t.
Proof.
  intros H. rewrite <- (str_app_nil_r t) at 1. rewrite (format_literal _ _ _ _ H).
  simpl. destruct (negb lenient && negb (bool_decide (args = []))); simpl;
    [reflexivity | by rewrite str_app_nil_r].
Qed.



(** X18.  A template with one [%s] and no other [%]: [a % (v,)] is the text
    before the [%s], then [str(v)], then the text after it, for every [v];
    so is [a % v] for a [v] that is neither a tuple nor a list.  The result
    has no logits and the trace of [a], united with that of [v] when [v] is
    an instance of the class. *)
Theorem mod_inserts_text (a : lstr) (p q : string) (v : pyval) :
  content a = p +:+ "%s" +:+ q ->
  text.existsb percent p = false ->
  text.existsb percent q = false ->
  let filled := mk_lstr (p +:+ py_str v +:+ q) None (__origin_trace a ∪ origin_trace_of v) in
  lstr.__mod__ a (PTuple [v]) = Ok filled
  /\ ((forall vs, v <> PTuple vs) -> (forall vs, v <> PList vs) ->
      lstr.__mod__ a v = Ok filled).
Proof.
  intros Ha Hp Hq filled. subst filled.
  assert (forall w : pyval,
            str.format false [w] false (content a) = Ok (p +:+ py_str w +:+ q)) as Hfmt.
  { intros w. rewrite Ha, (format_literal _ _ _ _ Hp).
    change ("%s" +:+ q) with (String "%" (String "s" q)).
    cbn [str.format]. simpl.
    by rewrite (format_no_conversion _ _ _ Hq). }
  split.
  - unfold lstr.__mod__, str.__mod__. simpl. rewrite Hfmt. simpl.
    unfold lstr.__new__. f_equal. f_equal. apply sep_trace.
  - intros Htuple Hlist. unfold lstr.__mod__, str.__mod__.
    destruct v; try (rewrite Hfmt; simpl; unfold lstr.__new__, origin_trace_of; simpl;
                     by rewrite ?(right_id_L ∅ (∪))).
    + by destruct (Htuple vs).
    + by destruct (Hlist vs).
Qed.

Lemma mod_inserts_text_witness :
  lstr.__mod__ (lstr.__new__ "<%s>" (Some [1#2]) (lstr.Marker "m1")) (PTuple [PInt 5])
  = Ok (mk_lstr "<5>" None ({[ "m1" ]} ∪ ∅))
  /\ lstr.__mod__ (lstr.__new__ "<%s>" (Some [1#2]) (lstr.Marker "m1")) (PInt 5)
     = Ok (mk_lstr "<5>" None ({[ "m1" ]} ∪ ∅)).
Proof.
  pose proof (mod_inserts_text (lstr.__new__ "<%s>" (Some [1#2]) (lstr.Marker "m1"))
                "<" ">" (PInt 5) eq_refl eq_refl eq_refl) as [Htuple Hone].
  split; [exact Htuple | apply Hone; discriminate].
Defined.

(** ** Replace *)

(** [replace] called with two or three positional arguments, through the
    wrapper that [__getattribute__] puts around it. *)
Lemma replace_call (a : lstr) (old new count : pyval) :
  lstr.call a "replace" [old; new; count] []
  = match str.replace (content a) old new count with
    | Ok t => Ok (PLstr (mk_lstr t None
                (__origin_trace a ∪ origins_of [old; new; count] ∪ origins_of [])))
    | Raise e => Raise e
    | Unmodelled => Unmodelled
    end
  /\ lstr.call a "replace" [old; new] []
     = match str.replace (content a) old new (PInt (-1)) with
       | Ok t => Ok (PLstr (mk_lstr t None
                   (__origin_trace a ∪ origins_of [old; new] ∪ origins_of [])))
       | Raise e => Raise e
       | Unmodelled => Unmodelled
       end.
Proof.
  split.
  - rewrite (inherited_call a "replace" _ _ _ eq_refl), wrapped_spec.
    by destruct (str.replace (content a) old new count).
  - rewrite (inherited_call a "replace" _ _ _ eq_refl), wrapped_spec.
    by destruct (str.replace (content a) old new (PInt (-1))).
Qed.

(** X19.  When the text to replace, not empty, does not occur, [replace]
    gives back the text of [a] unchanged, as a new instance: its logits are
    gone, and its trace has the traces of both arguments that are instances
    of the class, though neither has a part in the text. *)
Theorem replace_absent_keeps_text (a : lstr) (old new : pyval) (o n : string) :
  as_str old = Some o -> as_str new = Some n -> o <> "" ->
  ~ substring_of o (content a) ->
  lstr.call a "replace" [old; new] []
  = Ok (PLstr (mk_lstr (content a) None
                 (__origin_trace a ∪ origin_trace_of old ∪ origin_trace_of new))).
Proof.
  intros Hold Hnew Ho Hno.
  destruct (replace_call a old new PNone) as [_ ->].
  unfold str.replace. rewrite Hold, Hnew. simpl.
  rewrite (bool_decide_eq_false_2 _ Ho).
  rewrite (split_sep_absent _ _ _ _ (find_absent _ _ Hno)). simpl.
  do 3 f_equal. unfold origins_of. simpl. set_solver.
Qed.

Lemma replace_absent_keeps_text_witness :
  lstr.call (lstr.__new__ "abc" (Some [1#2]) (lstr.Marker "m1")) "replace"
            [PLstr (lstr.__new__ "x" None (lstr.Marker "m2"));
             PLstr (lstr.__new__ "y" None (lstr.Marker "m3"))] []
  = Ok (PLstr (mk_lstr "abc" None ({[ "m1" ]} ∪ {[ "m2" ]} ∪ {[ "m3" ]}))).
Proof.
  apply (replace_absent_keeps_text (lstr.__new__ "abc" (Some [1#2]) (lstr.Marker "m1"))
           (PLstr (lstr.__new__ "x" None (lstr.Marker "m2")))
           (PLstr (lstr.__new__ "y" None (lstr.Marker "m3"))) "x" "y").
  - reflexivity.
  - reflexivity.
  - discriminate.
  - apply find_None. reflexivity.
Defined.

(** X20.  Replacing a text that is not empty by itself gives back the text
    of [a], for every count that fits an index-sized integer; the result is
    a new instance with no logits and with the trace of [a] united with
    that of the argument.  A count that does not fit raises
    [OverflowError]. *)
Theorem replace_by_itself (a : lstr) (old : pyval) (o : string) :
  as_str old = Some o -> o <> "" ->
  (forall count : Z,
     (- PY_SSIZE_T_MAX - 1 <= count <= PY_SSIZE_T_MAX)%Z ->
     lstr.call a "replace" [old; old; PInt count] []
     = Ok (PLstr (mk_lstr (content a) None (__origin_trace a ∪ origin_trace_of old))))
  /\ (forall count : Z,
        (count < - PY_SSIZE_T_MAX - 1 \/ PY_SSIZE_T_MAX < count)%Z ->
        lstr.call a "replace" [old; old; PInt count] [] = Raise OverflowError).
Proof.
  intros Hold Ho. split; intros count Hcount;
    destruct (replace_call a old old (PInt count)) as [-> _];
    unfold str.replace; rewrite Hold; cbn [as_index].
  - rewrite (ssize_t_fits count Hcount). cbn [mbind result_bind].
    rewrite (bool_decide_eq_false_2 _ Ho).
    rewrite (join_split_sep o Ho) by (simpl; lia).
    rewrite str_app_nil_l.
    replace (text.drop 0 (content a)) with (content a) by (by destruct (content a)).
    do 3 f_equal. unfold origins_of. simpl. set_solver.
  - by rewrite (ssize_t_overflow count Hcount).
Qed.

Lemma replace_by_itself_witness :
  lstr.call (lstr.__new__ "a-b-c" (Some [1#2]) (lstr.Marker "m1")) "replace"
            [PLstr (lstr.__new__ "-" None (lstr.Marker "m2"));
             PLstr (lstr.__new__ "-" None (lstr.Marker "m2")); PInt 1] []
  = Ok (PLstr (mk_lstr "a-b-c" None ({[ "m1" ]} ∪ {[ "m2" ]})))
  /\ lstr.call (lstr.__new__ "a-b-c" (Some [1#2]) (lstr.Marker "m1")) "replace"
               [PLstr (lstr.__new__ "-" None (lstr.Marker "m2"));
                PLstr (lstr.__new__ "-" None (lstr.Marker "m2"));
                PInt (PY_SSIZE_T_MAX + 1)] []
     = Raise OverflowError.
Proof.
  pose proof (replace_by_itself (lstr.__new__ "a-b-c" (Some [1#2]) (lstr.Marker "m1"))
                (PLstr (lstr.__new__ "-" None (lstr.Marker "m2"))) "-"
                eq_refl ltac:(discriminate)) as [Hfits Hover].
  split.
  - apply Hfits. done.
  - apply Hover. right. done.
Defined.

(** ** Representation *)

Lemma repr_char_plain (c : ascii) :
  plain_char c = true -> repr_char false "'" c = String c "".
Proof.
  unfold plain_char, repr_char.
  intros [[[H1 H2]%andb_true_iff H3%negb_true_iff]%andb_true_iff H4%negb_true_iff]%andb_true_iff.
  rewrite H3, H4. cbn [orb].
  apply N.leb_le in H1. apply N.ltb_lt in H2.
  repeat match goal with
         | |- context [(?x =? ?y)%N] => destruct (N.eqb_spec x y); [lia|]
         | |- context [(?x <? ?y)%N] => destruct (N.ltb_spec x y); try lia
         end; reflexivity.
Qed.

Lemma repr_body_plain (s : string) :
  text.forallb plain_char s = true -> repr_body false "'" s = s.
Proof.
  induction s as [|c s IH]; [reflexivity|].
  simpl. intros [Hc H]%andb_true_iff.
  by rewrite (repr_char_plain c Hc), (IH H).
Qed.

Lemma plain_no_quote (s : string) :
  text.forallb plain_char s = true -> text.existsb (Ascii.eqb "'") s = false.
Proof.
  induction s as [|c s IH]; [reflexivity|].
  cbn [text.forallb text.existsb]. intros [Hc H]%andb_true_iff.
  rewrite (IH H), orb_false_r.
  unfold plain_char in Hc.
  apply andb_true_iff in Hc as [[_ Hq%negb_true_iff]%andb_true_iff _].
  by rewrite Ascii.eqb_sym.
Qed.

(** X21.  The representation of an instance shows its text alone, not its
    logits and not its trace: for a text of printable ASCII characters with
    no single quote and no backslash it is that text between single quotes,
    and it is a plain string. *)
Theorem repr_of_plain_text (a : lstr) :
  text.forallb plain_char (content a) = true ->
  lstr.__repr__ a = "'" +:+ content a +:+ "'"
  /\ lstr.call a "__repr__" [] [] = Ok (PStr ("'" +:+ content a +:+ "'"))
  /\ py_repr (PLstr a) = "'" +:+ content a +:+ "'".
Proof.
  intros H.
  assert (repr_text false (content a) = "'" +:+ content a +:+ "'") as E.
  { unfold repr_text, repr_quote. rewrite (plain_no_quote _ H). cbn [andb].
    by rewrite (repr_body_plain _ H). }
  split; [exact E|]. split; [|exact E].
  change (lstr.call a "__repr__" [] []) with (Ok (PStr (repr_text false (content a))) : result pyval).
  by rewrite E.
Qed.

Lemma repr_of_plain_text_witness :
  lstr.__repr__ (lstr.__new__ "Hello" (Some [1#1; 2#1; 3#1]) (lstr.Marker "m1")) = "'Hello'".
Proof.
  apply (repr_of_plain_text (lstr.__new__ "Hello" (Some [1#1; 2#1; 3#1]) (lstr.Marker "m1"))).
  reflexivity.
Defined.

(** ** What every result is made of *)

Lemma traces_in_elements (vs : list pyval) :
  ⋃ (__origin_trace <$> List.flat_map instances_in vs) = ⋃ (traces_in <$> vs).
Proof.
  induction vs as [|v vs IH]; [reflexivity|].
  cbn [List.flat_map]. rewrite fmap_app, union_list_app_L, IH. reflexivity.
Qed.

Lemma traces_in_member (v : pyval) (vs : list pyval) :
  v ∈ vs -> traces_in v ⊆ ⋃ (traces_in <$> vs).
Proof. induction 1; simpl; set_solver. Qed.

Lemma origin_in (v : pyval) : origin_trace_of v ⊆ traces_in v.
Proof. destruct v; unfold origin_trace_of, traces_in; simpl; set_solver. Qed.

Lemma origins_in (vs : list pyval) : origins_of vs ⊆ ⋃ (traces_in <$> vs).
Proof.
  unfold origins_of. induction vs as [|v vs IH]; [done|].
  simpl. pose proof (origin_in v). set_solver.
Qed.

Lemma derived_more (self : lstr) (extra extra' : gset string) (l : lstr) :
  extra ⊆ extra' -> derived self extra l -> derived self extra' l.
Proof. unfold derived. set_solver. Qed.

Lemma derived_fragments (self : lstr) (extra : gset string) (parts : list string) (o : gset string) :
  __origin_trace self ⊆ o -> o ⊆ __origin_trace self ∪ extra ->
  Forall (derived self extra) ((fun part => mk_lstr part None o) <$> parts).
Proof. intros H1 H2. apply Forall_fmap, Forall_forall. by intros part _. Qed.

Lemma instances_in_instances (parts : list lstr) :
  instances_in (lstr.instances parts) = parts.
Proof.
  unfold lstr.instances. simpl.
  induction parts as [|l parts IH]; [reflexivity | exact (f_equal (cons l) IH)].
Qed.

(** *** Method by method *)

Lemma add_derived (self : lstr) (x v : pyval) :
  lstr.__add__ self x = Ok v -> Forall (derived self (traces_in x)) (instances_in v).
Proof.
  destruct x; simpl; intros [= <-]; simpl; repeat constructor;
    unfold traces_in, origin_trace_of; simpl; set_solver.
Qed.

Lemma mul_derived (self : lstr) (x v : pyval) :
  lstr.__mul__ self x = Ok v -> Forall (derived self (traces_in x)) (instances_in v).
Proof.
  unfold lstr.__mul__. destruct (supports_index x); [|intros [= <-]; constructor].
  destruct (str.__mul__ (content self) x); simpl; intros [= <-].
  repeat constructor; simpl; set_solver.
Qed.

Lemma mod_derived (self : lstr) (x : pyval) (l : lstr) :
  lstr.__mod__ self x = Ok l -> derived self (traces_in x) l.
Proof.
  unfold lstr.__mod__.
  destruct x;
    match goal with
    | |- context [str.__mod__ ?s ?v] => destruct (str.__mod__ s v)
    end; simpl; intros [= <-]; unfold derived, lstr.__new__; simpl;
    rewrite ?gather_union; unfold traces_in, origin_trace_of; simpl;
    rewrite ?traces_in_elements;
    try pose proof (origins_in vs); set_solver.
Qed.

Lemma getitem_derived (self : lstr) (key : pyval) (extra : gset string) (l : lstr) :
  lstr.__getitem__ self key = Ok l -> derived self extra l.
Proof.
  unfold lstr.__getitem__. destruct (str.__getitem__ _ _); simpl; intros [= <-].
  unfold derived. simpl. set_solver.
Qed.

Lemma join_derived (self : lstr) (x : pyval) (l : lstr) :
  lstr.join self x = Ok l -> derived self (traces_in x) l.
Proof.
  assert (forall parts : list string,
            lstr.join self (PList (PStr <$> parts)) = Ok l -> derived self ∅ l) as Hchars.
  { intros parts. rewrite join_list, origins_of_plain. intros [= <-].
    unfold derived. simpl. set_solver. }
  assert (forall items : list pyval,
            lstr.join self (PList items) = Ok l ->
            derived self (⋃ (traces_in <$> items)) l) as Hitems.
  { intros items. rewrite join_list. intros [= <-].
    pose proof (origins_in items). unfold derived. simpl. set_solver. }
  destruct x; try discriminate;
    try (intros H; apply (derived_more self ∅); [set_solver|]; by eapply Hchars);
    intros H; unfold traces_in; simpl; rewrite traces_in_elements; by apply Hitems.
Qed.

Lemma split_derived (self : lstr) (method : pyval -> pyval -> result (list string))
    (sep maxsplit : pyval) (frags : list lstr) :
  lstr._split_helper self method sep maxsplit = Ok frags ->
  Forall (derived self (traces_in sep)) frags.
Proof.
  rewrite split_helper_spec. destruct (method sep maxsplit); simpl; intros [= <-].
  pose proof (origin_in sep). apply derived_fragments; set_solver.
Qed.

Lemma splitlines_derived (self : lstr) (keepends : bool) (extra : gset string) :
  Forall (derived self extra) (lstr.splitlines self keepends).
Proof. unfold lstr.splitlines. apply derived_fragments; set_solver. Qed.

Lemma partition_derived (self : lstr) (method : pyval -> result (string * string * string))
    (sep : pyval) (t : lstr * lstr * lstr) :
  lstr._partition_helper self method sep = Ok t ->
  Forall (derived self (traces_in sep)) (instances_in (lstr.triple t)).
Proof.
  rewrite partition_helper_spec. destruct (method sep) as [[[x y] z]| |]; simpl;
    intros [= <-]. pose proof (origin_in sep).
  repeat constructor; simpl; set_solver.
Qed.

(** *** Where the arguments of a call come from *)

Lemma bind_args_from (params : list (string * option pyval)) :
  forall (args : list pyval) (kwargs : list (string * pyval)) (vs : list pyval),
    bind_args params args kwargs = Ok vs ->
    Forall (fun v => v ∈ (args ++ (snd <$> kwargs))%list \/ Some v ∈ (snd <$> params)) vs.
Proof.
  induction params as [|[name dflt] params IH]; intros args kwargs vs; simpl.
  - destruct args, kwargs; intros [= <-]; constructor.
  - destruct args as [|a args].
    + destruct (List.find _ kwargs) as [kv|] eqn:Hfind.
      * destruct (bind_args params [] _) as [vs'| |] eqn:Hvs; simpl; intros [= <-].
        apply List.find_some in Hfind as [Hin _]. apply list_elem_of_In in Hin.
        constructor; [left; simpl; by apply list_elem_of_fmap_2|].
        eapply Forall_impl; [exact (IH _ _ _ Hvs)|].
        intros v [Hv|Hv]; [left | right; by right].
        simpl in *. apply list_elem_of_fmap in Hv as (kv' & -> & Hkv').
        apply list_elem_of_In, List.filter_In in Hkv' as [Hkv' _].
        apply list_elem_of_fmap_2. by apply list_elem_of_In.
      * destruct dflt as [d|]; [|discriminate].
        destruct (bind_args params [] kwargs) as [vs'| |] eqn:Hvs; simpl; intros [= <-].
        constructor; [right; by left|].
        eapply Forall_impl; [exact (IH _ _ _ Hvs)|].
        intros v [Hv|Hv]; [by left | right; by right].
    + destruct (List.existsb _ kwargs); [discriminate|].
      destruct (bind_args params args kwargs) as [vs'| |] eqn:Hvs; simpl; intros [= <-].
      constructor; [left; by left|].
      eapply Forall_impl; [exact (IH _ _ _ Hvs)|].
      intros v [Hv|Hv]; [left; by right | right; by right].
Qed.

Lemma unary_operand (param : string) (f : pyval -> result pyval)
    (args : list pyval) (kwargs : list (string * pyval)) (v : pyval) :
  lstr.unary param f args kwargs = Ok v ->
  exists x, f x = Ok v /\ traces_in x ⊆ ⋃ (traces_in <$> (args ++ (snd <$> kwargs))%list).
Proof.
  unfold lstr.unary.
  destruct (bind_args _ args kwargs) as [vs| |] eqn:Hvs; try discriminate.
  apply bind_args_from in Hvs.
  destruct vs as [|x [|y vs]]; try discriminate. simpl. intros Hv.
  exists x. split; [exact Hv|].
  apply Forall_cons in Hvs as [[Hx|Hx] _].
  - by apply traces_in_member.
  - simpl in Hx. apply list_elem_of_singleton in Hx. discriminate Hx.
Qed.

Lemma splitter_operand (f : pyval -> pyval -> result pyval)
    (args : list pyval) (kwargs : list (string * pyval)) (v : pyval) :
  str.splitter f args kwargs = Ok v ->
  exists sep maxsplit,
    f sep maxsplit = Ok v /\ traces_in sep ⊆ ⋃ (traces_in <$> (args ++ (snd <$> kwargs))%list).
Proof.
  unfold str.splitter.
  destruct (bind_args _ args kwargs) as [vs| |] eqn:Hvs; try discriminate.
  apply bind_args_from in Hvs.
  destruct vs as [|sep [|maxsplit [|z vs]]]; try discriminate. simpl. intros Hv.
  exists sep, maxsplit. split; [exact Hv|].
  apply Forall_cons in Hvs as [[Hx|Hx] _].
  - by apply traces_in_member.
  - simpl in Hx. apply elem_of_cons in Hx as [[= ->]|Hx]; [done|].
    apply list_elem_of_singleton in Hx as [= ->]. done.
Qed.

(** *** Every method, every operation *)

Lemma bound_derived (self : lstr) (name : string) (f : str.callable)
    (args : list pyval) (kwargs : list (string * pyval)) (v : pyval) :
  lstr.bound self name = Some f ->
  f args kwargs = Ok v ->
  Forall (derived self (⋃ (traces_in <$> (args ++ (snd <$> kwargs))%list))) (instances_in v).
Proof.
  unfold lstr.bound.
  repeat match goal with
         | |- context [String.eqb name ?lit] =>
             destruct (String.eqb_spec name lit) as [->|_];
             [intros [= <-] Hv;
              try (apply unary_operand in Hv as (x & Hv & Hx));
              try (apply splitter_operand in Hv as (sep & maxsplit & Hv & Hx)) |]
         end; try discriminate.
  - eapply Forall_impl; [exact (add_derived _ _ _ Hv)|]. intros l. by apply derived_more.
  - destruct (lstr.__mod__ self x) as [l| |] eqn:E; try discriminate Hv.
    injection Hv as <-. constructor; [|constructor].
    eapply derived_more; [exact Hx|]. by apply mod_derived.
  - eapply Forall_impl; [exact (mul_derived _ _ _ Hv)|]. intros l. by apply derived_more.
  - eapply Forall_impl; [exact (mul_derived _ _ _ Hv)|]. intros l. by apply derived_more.
  - destruct (lstr.__getitem__ self x) as [l| |] eqn:E; try discriminate Hv.
    injection Hv as <-. constructor; [|constructor]. by eapply getitem_derived.
  - unfold str.nullary in Hv. destruct args, kwargs; try discriminate Hv.
    injection Hv as <-. constructor.
  - destruct (lstr.join self x) as [l| |] eqn:E; try discriminate Hv.
    injection Hv as <-. constructor; [|constructor].
    eapply derived_more; [exact Hx|]. by apply join_derived.
  - unfold lstr.split in Hv.
    destruct (lstr._split_helper _ _ _ _) as [frags| |] eqn:E; try discriminate Hv.
    injection Hv as <-. rewrite instances_in_instances.
    eapply Forall_impl; [exact (split_derived _ _ _ _ _ E)|].
    intros l. by apply derived_more.
  - unfold lstr.rsplit in Hv.
    destruct (lstr._split_helper _ _ _ _) as [frags| |] eqn:E; try discriminate Hv.
    injection Hv as <-. rewrite instances_in_instances.
    eapply Forall_impl; [exact (split_derived _ _ _ _ _ E)|].
    intros l. by apply derived_more.
  - destruct (liner_cases args kwargs) as [(keepends & Hf) | Hf];
      rewrite Hf in Hv; [|discriminate Hv].
    destruct (str.truthy keepends); try discriminate Hv. injection Hv as <-.
    rewrite instances_in_instances. apply splitlines_derived.
  - unfold lstr.partition in Hv.
    destruct (lstr._partition_helper _ _ _) as [t| |] eqn:E; try discriminate Hv.
    injection Hv as <-.
    eapply Forall_impl; [exact (partition_derived _ _ _ _ E)|].
    intros l. by apply derived_more.
  - unfold lstr.rpartition in Hv.
    destruct (lstr._partition_helper _ _ _) as [t| |] eqn:E; try discriminate Hv.
    injection Hv as <-.
    eapply Forall_impl; [exact (partition_derived _ _ _ _ E)|].
    intros l. by apply derived_more.
Qed.

Lemma call_derived (self : lstr) (name : string) (args : list pyval)
    (kwargs : list (string * pyval)) (v : pyval) :
  lstr.call self name args kwargs = Ok v ->
  Forall (derived self (⋃ (traces_in <$> (args ++ (snd <$> kwargs))%list))) (instances_in v).
Proof.
  rewrite call_cases.
  destruct (List.existsb _ _); [discriminate|].
  destruct (String.eqb name "__class__"); [discriminate|].
  destruct (lstr.bound self name) as [f|] eqn:Hf; [by apply (bound_derived self name f)|].
  destruct (List.existsb _ _); [discriminate|].
  destruct (str.method name (content self)) as [f|] eqn:Hm; [|discriminate].
  rewrite wrapped_spec.
  destruct (f args kwargs) as [v0| |] eqn:Hv0; try discriminate.
  destruct (method_outcome _ _ _ _ _ _ Hm Hv0) as [[t ->]|[[b ->]|[[n ->]|[t ->]]]];
    simpl; intros [= <-]; simpl; repeat constructor; simpl.
  - set_solver.
  - rewrite fmap_app, union_list_app_L.
    pose proof (origins_in args). pose proof (origins_in (snd <$> kwargs)). set_solver.
Qed.

Lemma run_derived (self : lstr) (op : operation) (v : pyval) :
  run self op = Ok v ->
  Forall (derived self (⋃ (traces_in <$> operands op))) (instances_in v).
Proof.
  assert (forall x : pyval, traces_in x ⊆ ⋃ (traces_in <$> [x])) as Hone
    by (intros x; simpl; set_solver).
  destruct op as [other|other|other|other|other|other|key|name args kwargs|];
    cbn [run operands]; intros Hv.
  - unfold operator.add, operator.settle in Hv.
    destruct (lstr.__add__ self other) as [w| |] eqn:E; try discriminate Hv.
    assert (v = w) as -> by (destruct w; simpl in Hv; congruence).
    eapply Forall_impl; [exact (add_derived _ _ _ E)|]. intros l. by apply derived_more.
  - destruct other; simpl in Hv; try discriminate Hv; injection Hv as <-;
      simpl; repeat constructor; unfold traces_in; simpl; set_solver.
  - unfold operator.mod_ in Hv.
    destruct (lstr.__mod__ self other) as [l| |] eqn:E; try discriminate Hv.
    injection Hv as <-. constructor; [|constructor].
    eapply derived_more; [apply Hone|]. by apply mod_derived.
  - destruct other; simpl in Hv; try discriminate Hv.
    + invert_ok Hv. constructor.
    + invert_ok Hv. constructor.
    + unfold lstr.__mod__ in Hv. simpl in Hv.
      destruct (str.format _ _ _ _); try discriminate Hv. injection Hv as <-.
      simpl. repeat constructor; unfold traces_in; simpl; set_solver.
    + unfold lstr.__mod__ in Hv. simpl in Hv.
      destruct (str.format _ _ _ _); try discriminate Hv. injection Hv as <-.
      simpl. repeat constructor; unfold traces_in; simpl; set_solver.
  - unfold operator.mul, operator.settle in Hv.
    destruct (lstr.__mul__ self other) as [w| |] eqn:E; try discriminate Hv.
    assert (v = w) as -> by (destruct w; simpl in Hv; congruence).
    eapply Forall_impl; [exact (mul_derived _ _ _ E)|]. intros l. by apply derived_more.
  - assert (operator.settle (lstr.__mul__ self other) = Ok v \/
            (exists b, as_lstr other = Some b
                       /\ operator.settle (lstr.__mul__ b (PLstr self)) = Ok v)) as [H|(b & _ & H)]
      by (destruct other; simpl in Hv; eauto).
    + unfold operator.settle in H.
      destruct (lstr.__mul__ self other) as [w| |] eqn:E; try discriminate H.
      assert (v = w) as -> by (destruct w; simpl in H; congruence).
      eapply Forall_impl; [exact (mul_derived _ _ _ E)|]. intros l. by apply derived_more.
    + discriminate H.
  - unfold operator.getitem in Hv.
    destruct (lstr.__getitem__ self key) as [l| |] eqn:E; try discriminate Hv.
    injection Hv as <-. constructor; [|constructor]. by eapply getitem_derived.
  - exact (call_derived _ _ _ _ _ Hv).
  - simpl in Hv. injection Hv as <-. simpl.
    induction (text.chars (content self)) as [|c cs IH]; [constructor | exact IH].
Qed.

Lemma wrapped_text (self : lstr) (attr : str.callable)
    (args : list pyval) (kwargs : list (string * pyval)) (r : pyval) :
  attr args kwargs = Ok r -> isinstance r TStr = true ->
  lstr.wrapped self attr args kwargs
  = Ok (PLstr (mk_lstr (py_str r) None
                 (__origin_trace self ∪ origins_of args ∪ origins_of (snd <$> kwargs)))).
Proof.
  intros Hr Hstr. rewrite wrapped_spec, Hr.
  by destruct r; try discriminate Hstr.
Qed.

(** X22.  The logits are not handed on.  Every instance of the class in the
    result of an operator on either side, of indexing, or of the call of a
    method of the class body with any arguments, alone or in a list or
    tuple, has no logits; and when a method inherited from [str], whichever
    it is, returns a string, the wrapper returns an instance with that text
    and no logits. *)
Theorem results_carry_no_logits (self : lstr) :
  (forall (op : operation) (v : pyval),
     by_class_body op = true -> run self op = Ok v ->
     Forall (fun l => lstr.logits l = None) (instances_in v))
  /\ (forall (attr : str.callable) (args : list pyval) (kwargs : list (string * pyval))
             (r : pyval),
        attr args kwargs = Ok r -> isinstance r TStr = true ->
        exists l, lstr.wrapped self attr args kwargs = Ok (PLstr l)
                  /\ content l = py_str r /\ lstr.logits l = None).
Proof.
  split.
  - intros op v _ Hv. eapply Forall_impl; [exact (run_derived self op v Hv)|].
    by intros l (Hl & _ & _).
  - intros attr args kwargs r Hr Hstr. eexists. split; [by apply wrapped_text|done].
Qed.

Lemma results_carry_no_logits_witness :
  Forall (fun l => lstr.logits l = None) [mk_lstr "ab" None ({[ "m1" ]} : gset string)]
  /\ exists l, lstr.wrapped (lstr.__new__ "ab" (Some [1#2; 1#3]) (lstr.Marker "m1"))
                            (str.nullary (PStr <$> str.upper "ab")) [] []
               = Ok (PLstr l)
               /\ content l = "AB" /\ lstr.logits l = None.
Proof.
  pose proof (results_carry_no_logits (lstr.__new__ "ab" (Some [1#2; 1#3]) (lstr.Marker "m1")))
    as [Hop Hwrap].
  split.
  - apply (Hop (Getitem (PSlice None None None)) (PLstr (mk_lstr "ab" None {[ "m1" ]})));
      reflexivity.
  - apply (Hwrap (str.nullary (PStr <$> str.upper "ab")) [] [] (PStr "AB")); reflexivity.
Defined.

(** X23.  Markers are neither lost nor invented.  Every instance of the
    class in the result of an operator on either side, of indexing, or of
    the call of a method of the class body has all the markers of [self],
    and has no marker that is not a marker of [self] or of an instance among
    the operands; and when a method inherited from [str], whichever it is,
    returns a string, the trace of the instance that the wrapper returns is
    the trace of [self] united with the traces of the arguments that are
    instances. *)
Theorem results_trace_bounds (self : lstr) :
  (forall (op : operation) (v : pyval),
     by_class_body op = true -> run self op = Ok v ->
     Forall (fun l => lstr._origin_trace self ⊆ lstr._origin_trace l
                      /\ lstr._origin_trace l
                         ⊆ lstr._origin_trace self ∪ ⋃ (traces_in <$> operands op))
            (instances_in v))
  /\ (forall (attr : str.callable) (args : list pyval) (kwargs : list (string * pyval))
             (r : pyval),
        attr args kwargs = Ok r -> isinstance r TStr = true ->
        exists l, lstr.wrapped self attr args kwargs = Ok (PLstr l)
                  /\ lstr._origin_trace l
                     = lstr._origin_trace self ∪ origins_of args ∪ origins_of (snd <$> kwargs)).
Proof.
  split.
  - intros op v _ Hv. eapply Forall_impl; [exact (run_derived self op v Hv)|].
    by intros l (_ & Hlow & Hhigh).
  - intros attr args kwargs r Hr Hstr. eexists. split; [by apply wrapped_text|done].
Qed.

Lemma results_trace_bounds_witness :
  Forall (fun l => ({[ "m1" ]} : gset string) ⊆ lstr._origin_trace l
                   /\ lstr._origin_trace l
                      ⊆ {[ "m1" ]} ∪ ⋃ (traces_in <$> [PLstr (mk_lstr "," None {[ "m2" ]})]))
         [mk_lstr "a" None ({[ "m1" ]} ∪ {[ "m2" ]}); mk_lstr "b" None ({[ "m1" ]} ∪ {[ "m2" ]})]
  /\ exists l, lstr.wrapped (lstr.__new__ "a,b" (Some [1#2]) (lstr.Marker "m1"))
                            (str.nullary (PStr <$> str.upper "a,b")) [] []
               = Ok (PLstr l)
               /\ lstr._origin_trace l = {[ "m1" ]} ∪ origins_of [] ∪ origins_of [].
Proof.
  pose proof (results_trace_bounds (lstr.__new__ "a,b" (Some [1#2]) (lstr.Marker "m1")))
    as [Hop Hwrap].
  split.
  - apply (Hop (Call "split" [PLstr (mk_lstr "," None {[ "m2" ]})] [])
               (PList [PLstr (mk_lstr "a" None ({[ "m1" ]} ∪ {[ "m2" ]}));
                       PLstr (mk_lstr "b" None ({[ "m1" ]} ∪ {[ "m2" ]}))]));
      reflexivity.
  - apply (Hwrap (str.nullary (PStr <$> str.upper "a,b")) [] [] (PStr "A,B")); reflexivity.
Defined.

(** ** Attributes that are not wrapped *)

(** X24.  [__getattribute__] hands out what the class body defines as the
    ordinary lookup finds it, with no wrapper around it: the properties
    [logits] and [_origin_trace], which read back what the constructor was
    given, the two instance attributes behind them, and the methods of the
    class. *)
Theorem class_attributes_are_not_wrapped (self : lstr) (name : string)
    (attr : lstr.attribute) :
  name ∈ lstr.__dict__ \/ name ∈ ["_logits"; "_lstr__origin_trace"] ->
  lstr.object_getattribute self name = Ok attr ->
  lstr.__getattribute__ self name = Ok attr
  /\ (forall (text : string) (logits : option ndarray) (ms : gset string),
        lstr.__getattribute__ (lstr.__new__ text logits (lstr.Markers ms)) "logits"
        = Ok (lstr.ALogits logits)
        /\ lstr.__getattribute__ (lstr.__new__ text logits (lstr.Markers ms)) "_origin_trace"
           = Ok (lstr.AOriginTrace ms)).
Proof.
  intros H Hattr. split; [|by intros].
  unfold lstr.__dict__ in H.
  repeat match type of H with
         | _ \/ _ => destruct H as [H|H]
         | _ ∈ _ :: _ => apply elem_of_cons in H as [->|H]
         | _ ∈ [] => by apply elem_of_nil in H
         end;
    unfold lstr.__getattribute__; rewrite Hattr; by destruct attr.
Qed.

Lemma class_attributes_are_not_wrapped_witness :
  lstr.__getattribute__ (lstr.__new__ "ab" None (lstr.Marker "m1")) "__repr__"
  = Ok (lstr.AMethod (str.nullary (Ok (PStr "'ab'")))).
Proof.
  apply (class_attributes_are_not_wrapped (lstr.__new__ "ab" None (lstr.Marker "m1"))
           "__repr__").
  - left. unfold lstr.__dict__. do 6 apply list_elem_of_further. apply list_elem_of_here.
  - reflexivity.
Defined.
